(** * Centroid tracker and vision pipeline: a shallow embedding

    The development follows [backend/tracker.py] (class [CentroidTracker]),
    [backend/vision.py] (classes [EmotionRecognizer] and [VisionSystem]) and
    the snapshot and streaming endpoints of [backend/main.py].

    Modelling conventions.
    - Python integers are [Z]; object ids and list indices are [nat].
    - An [OrderedDict] is an association list kept in insertion order.
    - A raised exception is a value of [exn]; code that can raise returns a
      [result].
    - numpy's Euclidean norm [sqrt(dx^2 + dy^2)] of integer centroids is
      represented by its square [dx^2 + dy^2]: the square root is strictly
      increasing on the exactly representable range of pixel coordinates, so
      every comparison the tracker makes ([min], [argmin], [argsort],
      [> max_distance]) is decided by the squares.
    - numpy's default [argsort] is not stable and CPython fixes no iteration
      order for a set.  Both orders are taken from a [Runtime], and
      everything between [Section Pipeline] and its end holds for every
      runtime; the scenarios after it run on [stable_runtime], and one of
      them on [reversing_runtime].
    - The log file is described twice.  [process_frame] and the functions
      built on it are the pipeline on a file system that accepts every log
      line; [process_frame_io], [get_latest_data_io] and [api_frame_io] are
      the same functions with a write that can be refused, and agree with
      the former whenever no line is refused
      ([process_frame_io_unrefused]). *)

From Stdlib Require Import String QArith Qabs ZArith List Bool Lia Permutation Sorted.
Import ListNotations.
Open Scope Z_scope.

(** ** Exceptions *)

Inductive exn : Type :=
| KeyError
| RuntimeError
| ZeroDivisionError
| OSError.

Inductive result (A : Type) : Type :=
| Ok (a : A)
| Raise (e : exn).
Arguments Ok {A} a.
Arguments Raise {A} e.

Definition bind {A B : Type} (m : result A) (k : A -> result B) : result B :=
  match m with
  | Ok a => k a
  | Raise e => Raise e
  end.

Notation "x <- m ;; k" := (bind m (fun x => k))
  (at level 61, m at next level, right associativity).

(** A [for] loop whose body may raise: the first exception ends the loop. *)
Fixpoint for_each {A S : Type} (body : S -> A -> result S) (l : list A) (s : S)
  : result S :=
  match l with
  | [] => Ok s
  | a :: l' => s' <- body s a ;; for_each body l' s'
  end.

(** ** Insertion-ordered dictionaries with integer keys *)

Section OrderedDict.
Context {V : Type}.

Definition odict : Type := list (nat * V).

Definition keys (d : odict) : list nat := map fst d.
Definition values (d : odict) : list V := map snd d.

(** [d[k]] as a lookup; [None] stands for the missing key. *)
Fixpoint od_get (d : odict) (k : nat) : option V :=
  match d with
  | [] => None
  | (k', v) :: d' => if Nat.eqb k' k then Some v else od_get d' k
  end.

(** [d[k] = v]: an existing key keeps its position, a new key goes last. *)
Fixpoint od_set (d : odict) (k : nat) (v : V) : odict :=
  match d with
  | [] => [(k, v)]
  | (k', v') :: d' =>
      if Nat.eqb k' k then (k, v) :: d' else (k', v') :: od_set d' k v
  end.

(** [d.pop(k, None)]. *)
Definition od_pop (d : odict) (k : nat) : odict :=
  filter (fun kv => negb (Nat.eqb (fst kv) k)) d.
End OrderedDict.
Arguments odict V : clear implicits.

(** ** The orders that numpy and CPython leave open *)

(** Position of the first occurrence of [x] in [l]. *)
Fixpoint index_of (x : nat) (l : list nat) : nat :=
  match l with
  | [] => O
  | y :: l' => if Nat.eqb x y then O else S (index_of x l')
  end.

(** [i] is put in front of the first element that [front] places it before. *)
Fixpoint insert_index (front : nat -> nat -> bool) (i : nat) (l : list nat)
  : list nat :=
  match l with
  | [] => [i]
  | j :: l' => if front i j then i :: l else j :: insert_index front i l'
  end.

(** The elements of [l], inserted one by one from the last to the first.
    The result is a permutation of [l] whatever [front] is, and every
    permutation of a duplicate-free [l] is the result for some [front]
    (lemma [order_by_reaches]). *)
Definition order_by (front : nat -> nat -> bool) (l : list nat) : list nat :=
  fold_right (insert_index front) [] l.

(** What the tracker's results depend on and its libraries do not promise.
    - [argsort_ties ks i j]: whether [np.argsort] places index [i] in front
      of index [j] when the keys [ks] are equal at [i] and [j].  The default
      sort of numpy is not stable, so equal keys need not stay in index
      order.
    - [set_order n s i j]: whether iterating [set(range(n)).difference(s)]
      yields [i] before [j].  CPython iterates a set by hash slot. *)
Class Runtime : Type := {
  argsort_ties : list Z -> nat -> nat -> bool;
  set_order : nat -> list nat -> nat -> nat -> bool
}.

(** Equal keys in index order, sets in ascending order. *)
Definition stable_runtime : Runtime :=
  {| argsort_ties := fun _ i j => Nat.ltb i j;
     set_order := fun _ _ i j => Nat.ltb i j |}.

(** Equal keys in descending index order, which is the order numpy's default
    [argsort] returns for the keys [[20., 20., 1., 0.]], namely
    [[3, 2, 1, 0]]; sets in ascending order. *)
Definition reversing_runtime : Runtime :=
  {| argsort_ties := fun _ i j => Nat.ltb j i;
     set_order := fun _ _ i j => Nat.ltb i j |}.

Ltac solve_wf :=
  split; [repeat constructor; simpl; intuition lia
         |split; [reflexivity|simpl; intuition lia]].

Section Pipeline.
Context {rt : Runtime}.

(** ** backend/tracker.py *)

(** A bounding box [(x, y, w, h)]. *)
Definition rect : Type := (Z * Z * Z * Z)%type.

Record CentroidTracker : Type := {
  next_object_id : nat;
  objects : odict rect;
  disappeared : odict Z;
  max_disappeared : Z;
  max_distance : Z
}.

(** [CentroidTracker.__init__]. *)
Definition init (max_disappeared0 max_distance0 : Z) : CentroidTracker :=
  {| next_object_id := 0;
     objects := [];
     disappeared := [];
     max_disappeared := max_disappeared0;
     max_distance := max_distance0 |}.

Definition register (t : CentroidTracker) (r : rect) : CentroidTracker :=
  {| next_object_id := S (next_object_id t);
     objects := od_set (objects t) (next_object_id t) r;
     disappeared := od_set (disappeared t) (next_object_id t) 0;
     max_disappeared := max_disappeared t;
     max_distance := max_distance t |}.

Definition deregister (t : CentroidTracker) (object_id : nat) : CentroidTracker :=
  {| next_object_id := next_object_id t;
     objects := od_pop (objects t) object_id;
     disappeared := od_pop (disappeared t) object_id;
     max_disappeared := max_disappeared t;
     max_distance := max_distance t |}.

(** [int(x + w / 2)]: true division, then truncation toward zero. *)
Definition int_half_sum (x w : Z) : Z := Z.quot (2 * x + w) 2.

Definition compute_centroid (r : rect) : Z * Z :=
  let '(x, y, w, h) := r in (int_half_sum x w, int_half_sum y h).

Definition _compute_centroids (rects : list rect) : list (Z * Z) :=
  map compute_centroid rects.

(** Squared Euclidean norm of the difference of two centroids. *)
Definition norm2 (a b : Z * Z) : Z :=
  (fst a - fst b) * (fst a - fst b) + (snd a - snd b) * (snd a - snd b).

(** The distance matrix: one row per existing object, one column per
    detection.  Entries are squared distances. *)
Definition _pairwise_distances (a b : list (Z * Z)) : list (list Z) :=
  map (fun p => map (fun q => norm2 p q) b) a.

(** [d > max_distance] for a distance [d] given by its square [d2]. *)
Definition exceeds (d2 max_distance0 : Z) : bool :=
  (max_distance0 <? 0) || (max_distance0 * max_distance0 <? d2).

(** [row.min()] of a non-empty row. *)
Fixpoint list_min (l : list Z) : Z :=
  match l with
  | [] => 0
  | x :: l' => match l' with [] => x | _ => Z.min x (list_min l') end
  end.

(** [row.argmin()]: index of the first occurrence of the minimum. *)
Fixpoint argmin (l : list Z) : nat :=
  match l with
  | [] => O
  | x :: l' =>
      match l' with
      | [] => O
      | _ => if x <=? list_min l' then O else S (argmin l')
      end
  end.

(** [keys.argsort()]: the indices in ascending order of their keys, indices
    of equal keys in the order the runtime chooses. *)
Definition argsort (ks : list Z) : list nat :=
  let key := fun i => nth i ks 0 in
  order_by (fun i j => (key i <? key j) || ((key i =? key j) && argsort_ties ks i j))
           (seq 0 (length ks)).

Definition mem (i : nat) (s : list nat) : bool := existsb (Nat.eqb i) s.

(** [set(range(n)).difference(s)], in the order its iteration yields. *)
Definition range_difference (n : nat) (s : list nat) : list nat :=
  order_by (set_order n s) (filter (fun i => negb (mem i s)) (seq 0 n)).

Definition zero_rect : rect := (0, 0, 0, 0).

(** Body of the loop over [zip(rows, cols)] (tracker.py, lines 52-63).  The
    loop state is the tracker together with [assigned_rows] and
    [assigned_cols]. *)
Definition assign_step (distances : list (list Z)) (object_ids : list nat)
  (rects : list rect) (st : CentroidTracker * list nat * list nat)
  (rc : nat * nat) : CentroidTracker * list nat * list nat :=
  let '(t, assigned_rows, assigned_cols) := st in
  let '(row, col) := rc in
  if mem row assigned_rows || mem col assigned_cols then st
  else if exceeds (nth col (nth row distances []) 0) (max_distance t) then st
  else
    let object_id := nth row object_ids O in
    ({| next_object_id := next_object_id t;
        objects := od_set (objects t) object_id (nth col rects zero_rect);
        disappeared := od_set (disappeared t) object_id 0;
        max_disappeared := max_disappeared t;
        max_distance := max_distance t |},
     row :: assigned_rows, col :: assigned_cols).

(** Lines 45-47: the matrix, the row order and each row's arg-min column. *)
Definition distances_of (t : CentroidTracker) (rects : list rect) : list (list Z) :=
  _pairwise_distances (_compute_centroids (values (objects t)))
                      (_compute_centroids rects).

Definition rows_of (distances : list (list Z)) : list nat :=
  argsort (map list_min distances).

Definition cols_of (distances : list (list Z)) (rows : list nat) : list nat :=
  map (fun r => argmin (nth r distances [])) rows.

(** Lines 41-63: the greedy pass. *)
Definition assign (t : CentroidTracker) (rects : list rect)
  : CentroidTracker * list nat * list nat :=
  let object_ids := keys (objects t) in
  let distances := distances_of t rects in
  let rows := rows_of distances in
  let cols := cols_of distances rows in
  fold_left (assign_step distances object_ids rects) (combine rows cols)
            (t, [], []).

(** Lines 31-33 and 68-70: one more tick without a match for [object_id]. *)
Definition mark_disappeared (t : CentroidTracker) (object_id : nat)
  : result CentroidTracker :=
  match od_get (disappeared t) object_id with
  | None => Raise KeyError
  | Some d =>
      let t1 := {| next_object_id := next_object_id t;
                   objects := objects t;
                   disappeared := od_set (disappeared t) object_id (d + 1);
                   max_disappeared := max_disappeared t;
                   max_distance := max_distance t |} in
      if d + 1 >? max_disappeared t then Ok (deregister t1 object_id) else Ok t1
  end.

(** [CentroidTracker.update]; the returned mapping is [objects] of the
    resulting tracker. *)
Definition update (t : CentroidTracker) (rects : list rect)
  : result CentroidTracker :=
  match rects with
  | [] => for_each mark_disappeared (keys (disappeared t)) t
  | _ :: _ =>
      match objects t with
      | [] => Ok (fold_left register rects t)
      | _ :: _ =>
          let object_ids := keys (objects t) in
          let '(t1, assigned_rows, assigned_cols) := assign t rects in
          let unassigned_rows :=
            range_difference (length (distances_of t rects)) assigned_rows in
          t2 <- for_each (fun t' row => mark_disappeared t' (nth row object_ids O))
                         unassigned_rows t1 ;;
          let unassigned_cols := range_difference (length rects) assigned_cols in
          Ok (fold_left (fun t' col => register t' (nth col rects zero_rect))
                        unassigned_cols t2)
      end
  end.

(** A run of [update] calls on one tracker instance. *)
Fixpoint run (t : CentroidTracker) (calls : list (list rect))
  : result CentroidTracker :=
  match calls with
  | [] => Ok t
  | rects :: calls' => t' <- update t rects ;; run t' calls'
  end.

(** ** backend/vision.py *)

(** What [cv2.rectangle] and [cv2.putText] draw for one tracked object. *)
Record annotation : Type := {
  ann_person_id : nat;
  ann_box : rect;
  ann_emotion : string;
  ann_confidence : Q
}.

(** A camera frame of shape [(frame_h, frame_w, 3)].  Its pixel content is
    opaque; [drawn] records the annotations painted onto it so far, since the
    pipeline draws on the very array it later crops. *)
Record frame : Type := {
  frame_h : Z;
  frame_w : Z;
  pixels : nat;
  drawn : list annotation
}.

(** Length of the slice [a[start:stop]] of an axis of length [n], for
    non-negative [start] and [stop]. *)
Definition slice_len (start stop n : Z) : Z :=
  Z.max 0 (Z.min stop n - Z.min start n).

(** The view [frame[y : y + h, x : x + w]]. *)
Record roi : Type := {
  roi_src : frame;
  roi_y : Z;
  roi_x : Z;
  roi_rows : Z;
  roi_cols : Z
}.

Definition crop (fr : frame) (x y w h : Z) : roi :=
  {| roi_src := fr;
     roi_y := y;
     roi_x := x;
     roi_rows := slice_len y (y + h) (frame_h fr);
     roi_cols := slice_len x (x + w) (frame_w fr) |}.

(** [face_roi.size]: rows times columns times the three channels. *)
Definition roi_size (r : roi) : Z := roi_rows r * roi_cols r * 3.

(** The external classifier [FER.detect_emotions]: it raises, or returns one
    emotions dictionary (label to score, in dictionary order) per face. *)
Inductive fer_outcome : Type :=
| FerRaises
| FerFaces (faces : list (list (string * Q))).

Definition FER : Type := roi -> fer_outcome.

Record EmotionRecognizer : Type := {
  er_detector : option FER
}.

(** [max(emotions, key=emotions.get)] with its score: the first label of
    maximal score; [None] stands for the [ValueError] on an empty dictionary. *)
Fixpoint max_emotion (emotions : list (string * Q)) : option (string * Q) :=
  match emotions with
  | [] => None
  | p :: rest =>
      match max_emotion rest with
      | None => Some p
      | Some q => if Qle_bool (snd q) (snd p) then Some p else Some q
      end
  end.

Definition neutral : string * Q := ("neutral"%string, 0%Q).

(** [EmotionRecognizer.predict]: every exception of the classifier is caught. *)
Definition predict (er : EmotionRecognizer) (image : roi) : string * Q :=
  match er_detector er with
  | None => neutral
  | Some fer =>
      match fer image with
      | FerRaises => neutral
      | FerFaces [] => neutral
      | FerFaces (emotions :: _) =>
          match max_emotion emotions with
          | None => neutral
          | Some p => p
          end
      end
  end.

(** A MediaPipe detection, given by the four truncated products
    [int(bbox.xmin * image_w)], [int(bbox.ymin * image_h)],
    [int(bbox.width * image_w)] and [int(bbox.height * image_h)]. *)
Record detection : Type := {
  px_xmin : Z;
  px_ymin : Z;
  px_width : Z;
  px_height : Z
}.

Definition _bbox_from_detection (d : detection) : rect :=
  (Z.max (px_xmin d) 0, Z.max (px_ymin d) 0, px_width d, px_height d).

(** The capture device: whether it is open, and what its next reads return. *)
Record VideoCapture : Type := {
  opened : bool;
  pending : list (bool * option frame)
}.

(** [cap.read()]; a device with nothing left to deliver returns [(False, None)]. *)
Definition cap_read (c : VideoCapture) : (bool * option frame) * VideoCapture :=
  match pending c with
  | [] => ((false, None), c)
  | r :: rest => (r, {| opened := opened c; pending := rest |})
  end.

Record face_result : Type := {
  person_id : nat;
  bbox : rect;
  emotion : string;
  confidence : Q
}.

(** One line of [logs/emotions.jsonl], without its timestamp. *)
Record log_entry : Type := {
  log_person_id : nat;
  log_emotion : string;
  log_confidence : Q
}.

Record VisionSystem : Type := {
  camera_index : Z;
  emotion_every : Z;
  cap : VideoCapture;
  detector : frame -> list detection;
  tracker : CentroidTracker;
  emotion_recognizer : EmotionRecognizer;
  latest_data : list face_result;
  frame_count : Z;
  logs : list log_entry
}.

Definition is_open (s : VisionSystem) : bool := opened (cap s).

(** Body of the loop over [tracked.items()] (vision.py, lines 117-145).  The
    loop state is the frame being annotated, [results] and the log file. *)
Definition track_step (er : EmotionRecognizer) (count every : Z)
  (acc : frame * list face_result * list log_entry) (item : nat * rect)
  : result (frame * list face_result * list log_entry) :=
  let '(fr, results, lg) := acc in
  let '(pid, (x0, y0, w0, h0)) := item in
  let x := Z.max x0 0 in
  let y := Z.max y0 0 in
  let w := Z.max w0 1 in
  let h := Z.max h0 1 in
  if every =? 0 then Raise ZeroDivisionError
  else
    let '(em, conf, lg') :=
      if count mod every =? 0 then
        let face_roi := crop fr x y w h in
        if roi_size face_roi >? 0 then
          let '(em, conf) := predict er face_roi in
          (em, conf,
           lg ++ [{| log_person_id := pid; log_emotion := em;
                     log_confidence := conf |}])
        else (fst neutral, snd neutral, lg)
      else (fst neutral, snd neutral, lg) in
    Ok ({| frame_h := frame_h fr; frame_w := frame_w fr; pixels := pixels fr;
           drawn := drawn fr ++ [{| ann_person_id := pid; ann_box := (x, y, w, h);
                                    ann_emotion := em; ann_confidence := conf |}] |},
        results ++ [{| person_id := pid; bbox := (x, y, w, h);
                       emotion := em; confidence := conf |}],
        lg').

Definition with_cap (s : VisionSystem) (c : VideoCapture) : VisionSystem :=
  {| camera_index := camera_index s; emotion_every := emotion_every s;
     cap := c; detector := detector s; tracker := tracker s;
     emotion_recognizer := emotion_recognizer s;
     latest_data := latest_data s; frame_count := frame_count s;
     logs := logs s |}.

(** [VisionSystem.process_frame].  The system is returned together with the
    outcome, so that what a raising call has already changed stays visible.
    The JPEG bytes are represented by the annotated frame they encode.  Were
    [update] to raise, the model would leave the tracker as it was; it never
    does on a tracker built by the code. *)
Definition process_frame (s : VisionSystem)
  : VisionSystem * result (frame * list face_result) :=
  if negb (is_open s) then (s, Raise RuntimeError)
  else
    let '((ret, fr), cap') := cap_read (cap s) in
    let s1 := with_cap s cap' in
    match ret, fr with
    | true, Some fr0 =>
        let boxes := map _bbox_from_detection (detector s fr0) in
        match update (tracker s) boxes with
        | Raise e => (s1, Raise e)
        | Ok tracked =>
            let s2 :=
              {| camera_index := camera_index s; emotion_every := emotion_every s;
                 cap := cap'; detector := detector s; tracker := tracked;
                 emotion_recognizer := emotion_recognizer s;
                 latest_data := latest_data s;
                 frame_count := frame_count s + 1;
                 logs := logs s |} in
            match for_each (track_step (emotion_recognizer s)
                                       (frame_count s + 1) (emotion_every s))
                           (objects tracked) (fr0, [], logs s) with
            | Raise e => (s2, Raise e)
            | Ok (fr1, results, lg) =>
                ({| camera_index := camera_index s;
                    emotion_every := emotion_every s;
                    cap := cap'; detector := detector s; tracker := tracked;
                    emotion_recognizer := emotion_recognizer s;
                    latest_data := results;
                    frame_count := frame_count s + 1;
                    logs := lg |},
                 Ok (fr1, results))
            end
        end
    | _, _ => (s1, Raise RuntimeError)
    end.

(** [VisionSystem.get_latest_data]: only [RuntimeError] is caught. *)
Definition get_latest_data (s : VisionSystem)
  : VisionSystem * result (list face_result) :=
  match latest_data s with
  | [] =>
      let '(s', r) := process_frame s in
      match r with
      | Raise RuntimeError => (s', Ok (latest_data s'))
      | Raise e => (s', Raise e)
      | Ok _ => (s', Ok (latest_data s'))
      end
  | _ :: _ => (s, Ok (latest_data s))
  end.

(** ** backend/main.py, the snapshot endpoint *)

Inductive response : Type :=
| Http500
| Faces (data : list face_result).

(** [api_frame]; an [HTTPException] is the response with status 500. *)
Definition api_frame (s : VisionSystem) : VisionSystem * result response :=
  if negb (is_open s) then (s, Ok Http500)
  else
    let '(s1, r) := get_latest_data s in
    match r with
    | Raise e => (s1, Raise e)
    | Ok [] =>
        let '(s2, r2) := process_frame s1 in
        match r2 with
        | Raise RuntimeError => (s2, Ok Http500)
        | Raise e => (s2, Raise e)
        | Ok (_, data) => (s2, Ok (Faces data))
        end
    | Ok data => (s1, Ok (Faces data))
    end.

(** ** Construction, shutdown and the streaming endpoint *)

(** [VisionSystem.shutdown]: [cap.release()] closes the device; the frames it
    had not delivered are never read, since every tick checks [is_open]
    first. *)
Definition shutdown (s : VisionSystem) : VisionSystem :=
  with_cap s {| opened := false; pending := pending (cap s) |}.

(** What the optional import of [fer] and the call [FER(mtcnn=False)] give. *)
Inductive fer_module : Type :=
| FerMissing
| FerConstructorRaises
| FerReady (fer : FER).

(** [EmotionRecognizer.__init__]. *)
Definition new_EmotionRecognizer (m : fer_module) : EmotionRecognizer :=
  match m with
  | FerMissing => {| er_detector := None |}
  | FerConstructorRaises => {| er_detector := None |}
  | FerReady fer => {| er_detector := Some fer |}
  end.

(** [VisionSystem._init_mediapipe_detector]; [None] stands for an import of
    MediaPipe, or a construction of its face detector, that raises. *)
Definition _init_mediapipe_detector (mediapipe : option (frame -> list detection))
  : result (frame -> list detection) :=
  match mediapipe with
  | Some face_detection => Ok face_detection
  | None => Raise RuntimeError
  end.

(** [VisionSystem.__init__], given the device [cv2.VideoCapture] returns,
    the two optional libraries, and whether the directory of the log file
    can be created: the last statement, [logs_path.parent.mkdir(...)], raises
    [OSError] when it cannot.  The tracker takes its defaults. *)
Definition new_VisionSystem (device : VideoCapture)
  (mediapipe : option (frame -> list detection)) (m : fer_module)
  (mkdir_ok : bool) (camera_index0 emotion_every0 : Z) : result VisionSystem :=
  face_detection <- _init_mediapipe_detector mediapipe ;;
  let emotion_recognizer0 := new_EmotionRecognizer m in
  if mkdir_ok then
    Ok {| camera_index := camera_index0;
          emotion_every := emotion_every0;
          cap := device;
          detector := face_detection;
          tracker := init 15 80;
          emotion_recognizer := emotion_recognizer0;
          latest_data := [];
          frame_count := 0;
          logs := [] |}
  else Raise OSError.

(** How a response stream stops: with the [HTTPException] raised inside the
    generator, or with another exception. *)
Inductive stream_end : Type :=
| StreamHttp500
| StreamRaised (e : exn).

(** [frame_generator] of [video_stream], resumed [pulls] times: the chunks it
    yields, each the JPEG of one tick (the multipart framing around it is
    left out), and how it ended, [None] while it can still be resumed. *)
Fixpoint frame_generator (pulls : nat) (s : VisionSystem)
  : VisionSystem * list frame * option stream_end :=
  match pulls with
  | O => (s, [], None)
  | S pulls' =>
      match process_frame s with
      | (s', Ok (frame_bytes, _)) =>
          let '(s'', chunks, ended) := frame_generator pulls' s' in
          (s'', frame_bytes :: chunks, ended)
      | (s', Raise RuntimeError) => (s', [], Some StreamHttp500)
      | (s', Raise e) => (s', [], Some (StreamRaised e))
      end
  end.

Inductive stream_response : Type :=
| StreamRefused
| Streaming (chunks : list frame) (ended : option stream_end).

(** [video_stream], its response consumed for [pulls] chunks; a closed
    camera is refused with status 500 before any frame is read. *)
Definition video_stream (pulls : nat) (s : VisionSystem)
  : VisionSystem * stream_response :=
  if negb (is_open s) then (s, StreamRefused)
  else
    let '(s', chunks, ended) := frame_generator pulls s in
    (s', Streaming chunks ended).

(** ** The log file as the file system has it

    [_log_emotion] opens [logs/emotions.jsonl] for appending and writes one
    line, outside any [try]: when the file system refuses, the [OSError] ends
    the tick.  [track_step] and [process_frame] above describe the pipeline
    on a file system that accepts every line.  The definitions below are the
    same functions with the write as it is: [writable count pid] tells
    whether the line of object [pid] on the tick numbered [count] can be
    written; a refused write leaves the file as it was. *)

Definition track_step_io (writable : Z -> nat -> bool) (er : EmotionRecognizer)
  (count every : Z)
  (acc : frame * list face_result * list log_entry) (item : nat * rect)
  : result (frame * list face_result * list log_entry) :=
  let '(fr, results, lg) := acc in
  let '(pid, (x0, y0, w0, h0)) := item in
  let x := Z.max x0 0 in
  let y := Z.max y0 0 in
  let w := Z.max w0 1 in
  let h := Z.max h0 1 in
  if every =? 0 then Raise ZeroDivisionError
  else
    sample <-
      (if count mod every =? 0 then
         let face_roi := crop fr x y w h in
         if roi_size face_roi >? 0 then
           let '(em, conf) := predict er face_roi in
           if writable count pid then
             Ok (em, conf,
                 lg ++ [{| log_person_id := pid; log_emotion := em;
                           log_confidence := conf |}])
           else Raise OSError
         else Ok (fst neutral, snd neutral, lg)
       else Ok (fst neutral, snd neutral, lg)) ;;
    let '(em, conf, lg') := sample in
    Ok ({| frame_h := frame_h fr; frame_w := frame_w fr; pixels := pixels fr;
           drawn := drawn fr ++ [{| ann_person_id := pid; ann_box := (x, y, w, h);
                                    ann_emotion := em; ann_confidence := conf |}] |},
        results ++ [{| person_id := pid; bbox := (x, y, w, h);
                       emotion := em; confidence := conf |}],
        lg').

(** The loop over [tracked.items()]: besides its outcome it returns the log
    file, which keeps the lines written before an exception. *)
Fixpoint track_loop_io (writable : Z -> nat -> bool) (er : EmotionRecognizer)
  (count every : Z) (items : list (nat * rect))
  (acc : frame * list face_result * list log_entry)
  : list log_entry * result (frame * list face_result) :=
  match items with
  | [] => let '(fr, results, lg) := acc in (lg, Ok (fr, results))
  | item :: items' =>
      match track_step_io writable er count every acc item with
      | Ok acc' => track_loop_io writable er count every items' acc'
      | Raise e => (snd acc, Raise e)
      end
  end.

(** [VisionSystem.process_frame]. *)
Definition process_frame_io (writable : Z -> nat -> bool) (s : VisionSystem)
  : VisionSystem * result (frame * list face_result) :=
  if negb (is_open s) then (s, Raise RuntimeError)
  else
    let '((ret, fr), cap') := cap_read (cap s) in
    let s1 := with_cap s cap' in
    match ret, fr with
    | true, Some fr0 =>
        let boxes := map _bbox_from_detection (detector s fr0) in
        match update (tracker s) boxes with
        | Raise e => (s1, Raise e)
        | Ok tracked =>
            match track_loop_io writable (emotion_recognizer s)
                                (frame_count s + 1) (emotion_every s)
                                (objects tracked) (fr0, [], logs s) with
            | (lg, Raise e) =>
                ({| camera_index := camera_index s;
                    emotion_every := emotion_every s;
                    cap := cap'; detector := detector s; tracker := tracked;
                    emotion_recognizer := emotion_recognizer s;
                    latest_data := latest_data s;
                    frame_count := frame_count s + 1;
                    logs := lg |},
                 Raise e)
            | (lg, Ok (fr1, results)) =>
                ({| camera_index := camera_index s;
                    emotion_every := emotion_every s;
                    cap := cap'; detector := detector s; tracker := tracked;
                    emotion_recognizer := emotion_recognizer s;
                    latest_data := results;
                    frame_count := frame_count s + 1;
                    logs := lg |},
                 Ok (fr1, results))
            end
        end
    | _, _ => (s1, Raise RuntimeError)
    end.

(** [VisionSystem.get_latest_data]. *)
Definition get_latest_data_io (writable : Z -> nat -> bool) (s : VisionSystem)
  : VisionSystem * result (list face_result) :=
  match latest_data s with
  | [] =>
      let '(s', r) := process_frame_io writable s in
      match r with
      | Raise RuntimeError => (s', Ok (latest_data s'))
      | Raise e => (s', Raise e)
      | Ok _ => (s', Ok (latest_data s'))
      end
  | _ :: _ => (s, Ok (latest_data s))
  end.

(** [api_frame]. *)
Definition api_frame_io (writable : Z -> nat -> bool) (s : VisionSystem)
  : VisionSystem * result response :=
  if negb (is_open s) then (s, Ok Http500)
  else
    let '(s1, r) := get_latest_data_io writable s in
    match r with
    | Raise e => (s1, Raise e)
    | Ok [] =>
        let '(s2, r2) := process_frame_io writable s1 in
        match r2 with
        | Raise RuntimeError => (s2, Ok Http500)
        | Raise e => (s2, Raise e)
        | Ok (_, data) => (s2, Ok (Faces data))
        end
    | Ok data => (s1, Ok (Faces data))
    end.

(** * Vocabulary of the statements *)

(** [earlier rows r1 r2]: row [r1] stands before row [r2] in the list
    [rows]. *)
Definition earlier (rows : list nat) (r1 r2 : nat) : Prop :=
  (index_of r1 rows < index_of r2 rows)%nat.

(** A row's minimum distance, and the column where it is first attained. *)
Definition row_key (distances : list (list Z)) (r : nat) : Z :=
  list_min (nth r distances []).
Definition row_col (distances : list (list Z)) (r : nat) : nat :=
  argmin (nth r distances []).

(** What the pass over [rows] has decided once the rows of [l] are
    processed: the assigned rows [ar] and the assigned columns [ac]. *)
Definition assigned_inv (distances : list (list Z)) (md : Z)
  (rows l ar ac : list nat) : Prop :=
  (forall r, In r ar -> In r l) /\
  (forall c, In c ac <-> exists r, In r ar /\ row_col distances r = c) /\
  (forall r, In r l ->
     (In r ar <->
      exceeds (row_key distances r) md = false /\
      forall r', In r' ar -> earlier rows r' r ->
                 row_col distances r' <> row_col distances r)) /\
  NoDup ar /\
  (forall r1 r2, In r1 ar -> In r2 ar ->
     row_col distances r1 = row_col distances r2 -> r1 = r2).

(** What the pass has written into the tracker. *)
Definition written_inv (distances : list (list Z)) (object_ids : list nat)
  (rects : list rect) (t0 t : CentroidTracker) (ar : list nat) : Prop :=
  next_object_id t = next_object_id t0 /\
  max_disappeared t = max_disappeared t0 /\
  max_distance t = max_distance t0 /\
  keys (objects t) = keys (objects t0) /\
  keys (disappeared t) = keys (disappeared t0) /\
  (forall r, In r ar ->
     od_get (objects t) (nth r object_ids O)
       = Some (nth (row_col distances r) rects zero_rect) /\
     od_get (disappeared t) (nth r object_ids O) = Some 0) /\
  (forall k, (forall r, In r ar -> nth r object_ids O <> k) ->
     od_get (objects t) k = od_get (objects t0) k /\
     od_get (disappeared t) k = od_get (disappeared t0) k).

(** Both dictionaries hold the same keys in the same order, a dictionary has
    no key twice, and every key was handed out by [register]. *)
Definition wf (t : CentroidTracker) : Prop :=
  NoDup (keys (objects t)) /\
  keys (disappeared t) = keys (objects t) /\
  (forall k, In k (keys (objects t)) -> (k < next_object_id t)%nat).

(** The lookups after the objects of [ids] have aged by one tick. *)
Definition aged_count (t : CentroidTracker) (ids : list nat) (k : nat) : option Z :=
  if mem k ids then
    match od_get (disappeared t) k with
    | Some d => if d + 1 >? max_disappeared t then None else Some (d + 1)
    | None => None
    end
  else od_get (disappeared t) k.

Definition aged_box (t : CentroidTracker) (ids : list nat) (k : nat) : option rect :=
  if mem k ids then
    match od_get (disappeared t) k with
    | Some d => if d + 1 >? max_disappeared t then None else od_get (objects t) k
    | None => None
    end
  else od_get (objects t) k.

(** The box of the object in row [r], and the squared distance between the
    centroid of that box and the centroid of detection [c]. *)
Definition object_box (t : CentroidTracker) (r : nat) : rect :=
  nth r (values (objects t)) zero_rect.

Definition sqdist (t : CentroidTracker) (rects : list rect) (r c : nat) : Z :=
  norm2 (compute_centroid (object_box t r))
        (compute_centroid (nth c rects zero_rect)).

(** Concrete trackers for the scenarios: one object at box (100,100,50,50),
    and two objects of which the second has gone unmatched for 15 ticks. *)
Definition one_object : CentroidTracker :=
  {| next_object_id := 1;
     objects := [(O, (100, 100, 50, 50))];
     disappeared := [(O, 0)];
     max_disappeared := 15;
     max_distance := 80 |}.

Definition two_objects : CentroidTracker :=
  {| next_object_id := 2;
     objects := [(O, (100, 100, 50, 50)); (1%nat, (500, 500, 50, 50))];
     disappeared := [(O, 0); (1%nat, 15)];
     max_disappeared := 15;
     max_distance := 80 |}.

(** Two objects at equal distance from the single detection
    (120,100,50,50). *)
Definition tied_objects : CentroidTracker :=
  {| next_object_id := 2;
     objects := [(O, (100, 100, 50, 50)); (1%nat, (140, 100, 50, 50))];
     disappeared := [(O, 0); (1%nat, 0)];
     max_disappeared := 15;
     max_distance := 80 |}.

(** Four boxes, and three detections of which the first lies at distance 20
    from the first two boxes, the second at distance 1 from the third box and
    the third on the fourth box: the rows' minimum distances are
    [[20, 20, 1, 0]]. *)
Definition tie_boxes : list rect :=
  [(0, 0, 10, 10); (40, 0, 10, 10); (200, 0, 10, 10); (400, 0, 10, 10)].

Definition tie_detections : list rect :=
  [(20, 0, 10, 10); (201, 0, 10, 10); (400, 0, 10, 10)].

(** Object [r] and detection [c] are within [max_distance] of each other. *)
Definition within (t : CentroidTracker) (rects : list rect) (r c : nat) : Prop :=
  exceeds (sqdist t rects r c) (max_distance t) = false.

(** Every detection lies within [max_distance] of exactly one tracked
    centroid. *)
Definition near_unique_object (t : CentroidTracker) (rects : list rect) : Prop :=
  forall c, (c < length rects)%nat ->
    exists r, (r < length (objects t))%nat /\ within t rects r c /\
      forall r', (r' < length (objects t))%nat -> within t rects r' c -> r' = r.

(** Object [r] is a closest tracked object to detection [c]. *)
Definition closest (t : CentroidTracker) (rects : list rect) (r c : nat) : Prop :=
  forall r', (r' < length (objects t))%nat ->
    sqdist t rects r c <= sqdist t rects r' c.

(** No two detections are closest to the same tracked centroid. *)
Definition no_shared_closest (t : CentroidTracker) (rects : list rect) : Prop :=
  forall r c1 c2,
    (r < length (objects t))%nat ->
    (c1 < length rects)%nat -> (c2 < length rects)%nat ->
    closest t rects r c1 -> closest t rects r c2 -> c1 = c2.

(** The keys of [objects], read in insertion order, increase strictly and
    stay below the counter. *)
Definition ascending (t : CentroidTracker) : Prop :=
  StronglySorted lt (keys (objects t)) /\
  (forall k, In k (keys (objects t)) -> (k < next_object_id t)%nat).

(** The geometric centre [(x + w/2, y + h/2)] of a box, as the specification
    words it, over the rationals. *)
Definition geometric_center (b : rect) : Q * Q :=
  let '(x, y, w, h) := b in
  ((inject_Z x + inject_Z w / 2)%Q, (inject_Z y + inject_Z h / 2)%Q).

(** [z] is [q] rounded toward zero. *)
Definition truncated (q : Q) (z : Z) : Prop :=
  (Qabs (inject_Z z) <= Qabs q)%Q /\ (Qabs (q - inject_Z z) < 1)%Q.

(** Lines 119-120: origin floored at 0, sides floored at 1. *)
Definition clamp (b : rect) : rect :=
  let '(x, y, w, h) := b in (Z.max x 0, Z.max y 0, Z.max w 1, Z.max h 1).

Definition crop_box (fr : frame) (b : rect) : roi :=
  let '(x, y, w, h) := b in crop fr x y w h.

(** The crop of box [b] out of frame [fr] holds at least one pixel. *)
Definition has_crop (fr : frame) (b : rect) : bool := roi_size (crop_box fr b) >? 0.

Definition log_of (r : face_result) : log_entry :=
  {| log_person_id := person_id r;
     log_emotion := emotion r;
     log_confidence := confidence r |}.

Definition is_sentinel (r : face_result) : Prop :=
  emotion r = fst neutral /\ confidence r = snd neutral.

(** The frame [src] is [fr] up to the annotations drawn on it. *)
Definition same_image (src fr : frame) : Prop :=
  frame_h src = frame_h fr /\ frame_w src = frame_w fr /\ pixels src = pixels fr.

(** The result [r] carries what [predict] returned on the non-empty crop of
    its box, cut out of the frame as annotated when its turn came. *)
Definition sampled (er : EmotionRecognizer) (fr : frame) (r : face_result) : Prop :=
  exists src,
    same_image src fr /\
    roi_size (crop_box src (bbox r)) > 0 /\
    (emotion r, confidence r) = predict er (crop_box src (bbox r)).

(** The frame source is open and delivers a frame to this tick. *)
Definition camera_ok (s : VisionSystem) : Prop :=
  is_open s = true /\
  exists fr cap', cap_read (cap s) = ((true, Some fr), cap').

(** The classifier is absent, raises on [image], finds no face in it, or
    returns an empty emotions dictionary for the first face. *)
Definition classifier_fails (er : EmotionRecognizer) (image : roi) : Prop :=
  match er_detector er with
  | None => True
  | Some fer =>
      match fer image with
      | FerRaises => True
      | FerFaces [] => True
      | FerFaces ([] :: _) => True
      | FerFaces (_ :: _) => False
      end
  end.

(** Concrete systems for the scenarios.  The camera delivers 640x480 frames;
    the classifier, where present, answers "happy" with score 9/10. *)
Definition blank_frame : frame :=
  {| frame_h := 480; frame_w := 640; pixels := O; drawn := [] |}.

Definition face_frame : frame :=
  {| frame_h := 480; frame_w := 640; pixels := 1; drawn := [] |}.

Definition happy : FER := fun _ => FerFaces [[("happy"%string, 9 # 10)]].

(** A run of [n] ticks, whatever their outcomes. *)
Fixpoint ticks (n : nat) (s : VisionSystem) : VisionSystem :=
  match n with
  | O => s
  | S n' => ticks n' (fst (process_frame s))
  end.

(** A freshly started system whose camera shows an empty scene for four
    frames and then a face of size 10x10 at [(xmin, 0)]. *)
Definition fresh_system (xmin : Z) : VisionSystem :=
  {| camera_index := 0;
     emotion_every := 5;
     cap := {| opened := true;
               pending := [(true, Some blank_frame); (true, Some blank_frame);
                           (true, Some blank_frame); (true, Some blank_frame);
                           (true, Some face_frame)] |};
     detector := fun fr => if Nat.eqb (pixels fr) 1
                           then [{| px_xmin := xmin; px_ymin := 0;
                                    px_width := 10; px_height := 10 |}]
                           else [];
     tracker := init 15 80;
     emotion_recognizer := {| er_detector := Some happy |};
     latest_data := [];
     frame_count := 0;
     logs := [] |}.

(** That system after its first four ticks. *)
Definition system_before_fifth_tick (xmin : Z) : VisionSystem :=
  ticks 4 (fresh_system xmin).

(** A freshly started system in front of an empty scene. *)
Definition quiet_system : VisionSystem :=
  {| camera_index := 0;
     emotion_every := 5;
     cap := {| opened := true;
               pending := [(true, Some blank_frame); (true, Some blank_frame);
                           (true, Some blank_frame)] |};
     detector := fun _ => [];
     tracker := init 15 80;
     emotion_recognizer := {| er_detector := None |};
     latest_data := [];
     frame_count := 0;
     logs := [] |}.

(** A system whose camera is not open. *)
Definition unplugged_system : VisionSystem :=
  {| camera_index := 0;
     emotion_every := 5;
     cap := {| opened := false; pending := [] |};
     detector := fun _ => [];
     tracker := init 15 80;
     emotion_recognizer := {| er_detector := None |};
     latest_data := [];
     frame_count := 0;
     logs := [] |}.

(** Every count is a number of consecutive misses the tracker still
    tolerates: not negative, and above [max_disappeared] only when it is 0. *)
Definition counts_ok (t : CentroidTracker) : Prop :=
  forall k d, od_get (disappeared t) k = Some d ->
    0 <= d /\ (d = 0 \/ d <= max_disappeared t).

(** A read that delivers a frame. *)
Definition delivers (r : bool * option frame) : bool :=
  match r with
  | (true, Some _) => true
  | _ => false
  end.


(** What a consumer can ask of the running system. *)
Inductive request : Type :=
| Tick
| GetLatest
| ApiFrame
| VideoStream (pulls : nat)
| Shutdown.

Definition serve (s : VisionSystem) (r : request) : VisionSystem :=
  match r with
  | Tick => fst (process_frame s)
  | GetLatest => fst (get_latest_data s)
  | ApiFrame => fst (api_frame s)
  | VideoStream pulls => fst (video_stream pulls s)
  | Shutdown => shutdown s
  end.

Definition serve_all (s : VisionSystem) (requests : list request) : VisionSystem :=
  fold_left serve requests s.

(** The annotation drawn for a result. *)
Definition annotation_of (r : face_result) : annotation :=
  {| ann_person_id := person_id r;
     ann_box := bbox r;
     ann_emotion := emotion r;
     ann_confidence := confidence r |}.

(** [s'] is a later state of the running system [s]: the tracker's
    dictionaries agree, the configuration and the collaborators are those of
    [s], a closed camera has not reopened, the reads consumed in between are
    a prefix of what was pending, the tick counter has advanced by the number
    of frames those reads delivered, and the log has only grown. *)
Definition evolves (s s' : VisionSystem) : Prop :=
  wf (tracker s') /\
  camera_index s' = camera_index s /\
  emotion_every s' = emotion_every s /\
  detector s' = detector s /\
  emotion_recognizer s' = emotion_recognizer s /\
  (opened (cap s') = true -> opened (cap s) = true) /\
  (exists consumed,
     pending (cap s) = consumed ++ pending (cap s') /\
     frame_count s' = frame_count s + Z.of_nat (length (filter delivers consumed))) /\
  (exists new, logs s' = logs s ++ new).

(** A freshly started system configured with a sampling period of 0, whose
    camera shows a face in its first frame. *)
Definition zero_period_system : VisionSystem :=
  {| camera_index := 0;
     emotion_every := 0;
     cap := {| opened := true; pending := [(true, Some face_frame)] |};
     detector := fun _ => [{| px_xmin := 100; px_ymin := 0;
                              px_width := 10; px_height := 10 |}];
     tracker := init 15 80;
     emotion_recognizer := {| er_detector := Some happy |};
     latest_data := [];
     frame_count := 0;
     logs := [] |}.

(** On the tick numbered [count], the line of [item] is due (a sampling
    tick, and the crop of the item's box out of a frame shaped like [fr] is
    not empty) and the file system refuses it. *)
Definition refuses (writable : Z -> nat -> bool) (count every : Z) (fr : frame)
  (item : nat * rect) : bool :=
  (count mod every =? 0) && has_crop fr (clamp (snd item))
  && negb (writable count (fst item)).

(** A file system that accepts every line. *)
Definition always_writable : Z -> nat -> bool := fun _ _ => true.

(** A file system that accepts none. *)
Definition never_writable : Z -> nat -> bool := fun _ _ => false.

(** A log line that records the sentinel. *)
Definition neutral_line (e : log_entry) : Prop :=
  log_emotion e = fst neutral /\ log_confidence e = snd neutral.

(** A system without classifier that has stored and logged only sentinels. *)
Definition quiet (s : VisionSystem) : Prop :=
  er_detector (emotion_recognizer s) = None /\
  wf (tracker s) /\
  Forall is_sentinel (latest_data s) /\
  Forall neutral_line (logs s).

(** * Properties *)

(** ** Dictionaries *)

Section OrderedDictFacts.
Context {V : Type}.
Implicit Types (d : odict V) (k : nat) (v : V).

Lemma od_get_set d k v k' :
  od_get (od_set d k v) k' = if Nat.eqb k k' then Some v else od_get d k'.
Proof.
  induction d as [|[k0 v0] d IH]; simpl.
  - reflexivity.
  - destruct (Nat.eqb k0 k) eqn:E0; simpl.
    + apply Nat.eqb_eq in E0; subst k0.
      destruct (Nat.eqb k k'); reflexivity.
    + rewrite IH. destruct (Nat.eqb k0 k') eqn:E1; [|reflexivity].
      apply Nat.eqb_eq in E1; subst k0. now rewrite Nat.eqb_sym, E0.
Qed.

Lemma od_get_pop d k k' :
  od_get (od_pop d k) k' = if Nat.eqb k k' then None else od_get d k'.
Proof.
  induction d as [|[k0 v0] d IH]; simpl.
  - now destruct (Nat.eqb k k').
  - destruct (Nat.eqb k0 k) eqn:E0; simpl.
    + apply Nat.eqb_eq in E0; subst k0. rewrite IH.
      now destruct (Nat.eqb k k').
    + rewrite IH. destruct (Nat.eqb k0 k') eqn:E1; [|reflexivity].
      apply Nat.eqb_eq in E1; subst k0. now rewrite Nat.eqb_sym, E0.
Qed.

Lemma od_get_in d k : In k (keys d) <-> od_get d k <> None.
Proof.
  induction d as [|[k0 v0] d IH]; simpl.
  - tauto.
  - destruct (Nat.eqb k0 k) eqn:E0.
    + apply Nat.eqb_eq in E0. split; [discriminate|auto].
    + apply Nat.eqb_neq in E0. rewrite <- IH. tauto.
Qed.

Lemma od_get_some_in d k v : od_get d k = Some v -> In k (keys d).
Proof. intros H. apply od_get_in. congruence. Qed.

Lemma od_get_notin d k : ~ In k (keys d) -> od_get d k = None.
Proof.
  intros H. destruct (od_get d k) eqn:E; [|reflexivity].
  exfalso. apply H. eapply od_get_some_in; eauto.
Qed.

Lemma keys_set_in d k v : In k (keys d) -> keys (od_set d k v) = keys d.
Proof.
  induction d as [|[k0 v0] d IH]; simpl; [tauto|].
  intros H. destruct (Nat.eqb k0 k) eqn:E0; simpl.
  - apply Nat.eqb_eq in E0. now subst.
  - apply Nat.eqb_neq in E0. f_equal. apply IH. tauto.
Qed.

Lemma keys_set_notin d k v : ~ In k (keys d) -> keys (od_set d k v) = keys d ++ [k].
Proof.
  induction d as [|[k0 v0] d IH]; simpl; [reflexivity|].
  intros H. destruct (Nat.eqb k0 k) eqn:E0; simpl.
  - apply Nat.eqb_eq in E0. tauto.
  - f_equal. apply IH. tauto.
Qed.

Lemma keys_pop d k :
  keys (od_pop d k) = filter (fun k' => negb (Nat.eqb k' k)) (keys d).
Proof.
  induction d as [|[k0 v0] d IH]; simpl; [reflexivity|].
  destruct (Nat.eqb k0 k); simpl; now rewrite IH.
Qed.

Lemma od_get_nth d i k0 :
  NoDup (keys d) -> (i < length d)%nat ->
  od_get d (nth i (keys d) k0) = nth_error (values d) i.
Proof.
  revert i. induction d as [|[k1 v1] d IH]; simpl; intros i Hnd Hi; [lia|].
  inversion Hnd as [|? ? Hnin Hnd']; subst.
  destruct i as [|i]; simpl.
  - now rewrite Nat.eqb_refl.
  - destruct (Nat.eqb k1 (nth i (keys d) k0)) eqn:E.
    + apply Nat.eqb_eq in E. exfalso. apply Hnin. rewrite E.
      apply nth_In. unfold keys. rewrite length_map. lia.
    + apply IH; [assumption|lia].
Qed.

End OrderedDictFacts.

(** ** Minimum, arg-min and the row order *)

Lemma list_min_le (l : list Z) (x : Z) : In x l -> list_min l <= x.
Proof.
  induction l as [|y l IH]; simpl; [tauto|].
  intros [->|H].
  - destruct l; lia.
  - destruct l as [|z l']; [destruct H|].
    specialize (IH H). lia.
Qed.

Lemma list_min_in (l : list Z) : l <> [] -> In (list_min l) l.
Proof.
  induction l as [|y l IH]; [congruence|]. intros _.
  destruct l as [|z l']; [now left|].
  change (list_min (y :: z :: l')) with (Z.min y (list_min (z :: l'))).
  destruct (Z.min_spec y (list_min (z :: l'))) as [[_ ->]|[_ ->]].
  - now left.
  - right. apply IH. discriminate.
Qed.

Lemma argmin_lt (l : list Z) : l <> [] -> (argmin l < length l)%nat.
Proof.
  induction l as [|y l IH]; [congruence|]. intros _.
  destruct l as [|z l']; [simpl; lia|].
  change (argmin (y :: z :: l'))
    with (if y <=? list_min (z :: l') then O else S (argmin (z :: l'))).
  destruct (y <=? list_min (z :: l')).
  - simpl; lia.
  - assert ((argmin (z :: l') < length (z :: l'))%nat) by (apply IH; discriminate).
    simpl in *; lia.
Qed.

Lemma nth_argmin (l : list Z) : nth (argmin l) l 0 = list_min l.
Proof.
  induction l as [|y l IH]; [reflexivity|].
  destruct l as [|z l']; [reflexivity|].
  change (argmin (y :: z :: l'))
    with (if y <=? list_min (z :: l') then O else S (argmin (z :: l'))).
  change (list_min (y :: z :: l')) with (Z.min y (list_min (z :: l'))).
  destruct (Z.leb_spec y (list_min (z :: l'))).
  - cbn [nth]. lia.
  - change (nth (S (argmin (z :: l'))) (y :: z :: l') 0)
      with (nth (argmin (z :: l')) (z :: l') 0).
    rewrite IH. lia.
Qed.

(** The arg-min is the first position that holds the minimum. *)
Lemma argmin_first (l : list Z) (i : nat) :
  (i < argmin l)%nat -> list_min l < nth i l 0.
Proof.
  revert i. induction l as [|y l IH]; intros i Hi; [simpl in Hi; lia|].
  destruct l as [|z l']; [simpl in Hi; lia|].
  change (argmin (y :: z :: l'))
    with (if y <=? list_min (z :: l') then O else S (argmin (z :: l'))) in Hi.
  change (list_min (y :: z :: l')) with (Z.min y (list_min (z :: l'))).
  destruct (Z.leb_spec y (list_min (z :: l'))); [lia|].
  destruct i as [|i].
  - cbn [nth]. lia.
  - change (nth (S i) (y :: z :: l') 0) with (nth i (z :: l') 0).
    assert (list_min (z :: l') < nth i (z :: l') 0) by (apply IH; lia).
    lia.
Qed.

Lemma index_of_nth_error (x : nat) (l : list nat) :
  In x l -> nth_error l (index_of x l) = Some x.
Proof.
  induction l as [|y l IH]; intros H; [destruct H|]. simpl.
  destruct (Nat.eqb x y) eqn:E.
  - apply Nat.eqb_eq in E. now subst.
  - apply Nat.eqb_neq in E. simpl. apply IH. destruct H; congruence.
Qed.

Lemma index_of_inj (x y : nat) (l : list nat) :
  In x l -> In y l -> index_of x l = index_of y l -> x = y.
Proof.
  intros Hx Hy E. apply index_of_nth_error in Hx, Hy.
  rewrite E in Hx. congruence.
Qed.

Lemma index_of_cons (a x : nat) (l : list nat) :
  x <> a -> index_of x (a :: l) = S (index_of x l).
Proof.
  intros H. cbn [index_of]. apply Nat.eqb_neq in H. now rewrite H.
Qed.

Lemma earlier_irrefl rows r : ~ earlier rows r r.
Proof. unfold earlier. lia. Qed.

Lemma earlier_asym rows r1 r2 : earlier rows r1 r2 -> ~ earlier rows r2 r1.
Proof. unfold earlier. lia. Qed.

Lemma earlier_trans rows r1 r2 r3 :
  earlier rows r1 r2 -> earlier rows r2 r3 -> earlier rows r1 r3.
Proof. unfold earlier. lia. Qed.

Lemma earlier_total rows r1 r2 :
  In r1 rows -> In r2 rows -> r1 <> r2 ->
  earlier rows r1 r2 \/ earlier rows r2 r1.
Proof.
  intros H1 H2 Hne. unfold earlier.
  destruct (Nat.lt_total (index_of r1 rows) (index_of r2 rows)) as [H|[H|H]];
    [now left| |now right].
  exfalso. apply Hne. now apply (index_of_inj r1 r2 rows).
Qed.

Lemma StronglySorted_on {A : Type} (R1 R2 : A -> A -> Prop) (l : list A) :
  (forall a b, In a l -> In b l -> R1 a b -> R2 a b) ->
  StronglySorted R1 l -> StronglySorted R2 l.
Proof.
  intros HR Hs. induction Hs as [|a l Hs IH Hf].
  - constructor.
  - constructor.
    + apply IH. intros x y Hx Hy. apply HR; now right.
    + rewrite Forall_forall in *. intros x Hx.
      apply HR; [now left|now right|now apply Hf].
Qed.

(** A list without duplicates is sorted by the positions of its elements. *)
Lemma earlier_sorted (rows : list nat) :
  NoDup rows -> StronglySorted (earlier rows) rows.
Proof.
  induction 1 as [|a l Hna Hnd IH]; constructor.
  - apply (StronglySorted_on (earlier l)); [|assumption].
    intros x y Hx Hy. unfold earlier.
    rewrite !index_of_cons by (intros ->; contradiction). lia.
  - apply Forall_forall. intros x Hx. unfold earlier.
    rewrite (index_of_cons a x) by (intros ->; contradiction).
    cbn [index_of]. rewrite Nat.eqb_refl. lia.
Qed.

(** In a sorted list, what stands earlier is related to what stands later. *)
Lemma sorted_earlier (R : nat -> nat -> Prop) (l : list nat) :
  StronglySorted R l ->
  forall a b, In a l -> In b l -> earlier l a b -> R a b.
Proof.
  induction 1 as [|x l Hs IH Hf]; intros a b Ha Hb He; [destruct Ha|].
  rewrite Forall_forall in Hf. unfold earlier in He.
  destruct (Nat.eq_dec a x) as [->|Hax].
  - cbn [index_of] in He. rewrite Nat.eqb_refl in He.
    destruct Hb as [<-|Hb]; [|now apply Hf].
    rewrite Nat.eqb_refl in He. lia.
  - rewrite (index_of_cons x a) in He by assumption.
    destruct (Nat.eq_dec b x) as [->|Hbx].
    + cbn [index_of] in He. rewrite Nat.eqb_refl in He. lia.
    + rewrite (index_of_cons x b) in He by assumption.
      destruct Ha as [E|Ha]; [congruence|]. destruct Hb as [E|Hb]; [congruence|].
      apply IH; try assumption. unfold earlier. lia.
Qed.

Lemma insert_index_perm front i l : Permutation (insert_index front i l) (i :: l).
Proof.
  induction l as [|j l IH]; simpl; [reflexivity|].
  destruct (front i j); [reflexivity|].
  rewrite IH. apply perm_swap.
Qed.

Lemma order_by_perm front l : Permutation (order_by front l) l.
Proof.
  induction l as [|a l IH]; [reflexivity|].
  cbn [order_by fold_right]. rewrite insert_index_perm. now constructor.
Qed.

(** Insertion keeps a list sorted by key when [front] never puts a larger
    key in front of a smaller one. *)
Lemma insert_index_sorted (key : nat -> Z) front i l :
  (forall j, front i j = true -> key i <= key j) ->
  (forall j, front i j = false -> key j <= key i) ->
  StronglySorted (fun a b => key a <= key b) l ->
  StronglySorted (fun a b => key a <= key b) (insert_index front i l).
Proof.
  intros Ht Hf. induction l as [|j l IH]; simpl; intros Hs.
  - constructor; constructor.
  - inversion Hs as [|? ? Hs' Hj]; subst.
    destruct (front i j) eqn:E.
    + constructor; [assumption|].
      constructor; [now apply Ht|].
      rewrite Forall_forall in *. intros x Hx.
      specialize (Hj x Hx). specialize (Ht j E). lia.
    + constructor; [now apply IH|].
      eapply Permutation_Forall.
      * symmetry. apply insert_index_perm.
      * constructor; [now apply Hf|assumption].
Qed.

Lemma order_by_sorted (key : nat -> Z) front l :
  (forall i j, front i j = true -> key i <= key j) ->
  (forall i j, front i j = false -> key j <= key i) ->
  StronglySorted (fun a b => key a <= key b) (order_by front l).
Proof.
  intros Ht Hf. induction l as [|a l IH]; [constructor|].
  cbn [order_by fold_right]. apply insert_index_sorted; auto.
Qed.

Lemma argsort_perm (ks : list Z) : Permutation (argsort ks) (seq 0 (length ks)).
Proof. apply order_by_perm. Qed.

(** Whatever the runtime does with equal keys, [argsort] sorts. *)
Lemma argsort_sorted (ks : list Z) :
  StronglySorted (fun i j => nth i ks 0 <= nth j ks 0) (argsort ks).
Proof.
  apply (order_by_sorted (fun i => nth i ks 0)); intros i j H.
  - apply orb_true_iff in H. destruct H as [H|H].
    + apply Z.ltb_lt in H. lia.
    + apply andb_true_iff in H. destruct H as [H _]. apply Z.eqb_eq in H. lia.
  - apply orb_false_iff in H. destruct H as [H _]. apply Z.ltb_ge in H. lia.
Qed.

(** Two lists with the same elements, sorted by the same asymmetric
    relation, are equal. *)
Lemma sorted_perm_unique (R : nat -> nat -> Prop) (l1 l2 : list nat) :
  (forall a b, R a b -> R b a -> False) ->
  StronglySorted R l1 -> StronglySorted R l2 -> Permutation l1 l2 -> l1 = l2.
Proof.
  intros Hasym. revert l2. induction l1 as [|a l1 IH]; intros l2 H1 H2 Hp.
  - now apply Permutation_nil in Hp.
  - destruct l2 as [|b l2].
    { symmetry in Hp. now apply Permutation_nil in Hp. }
    inversion H1 as [|? ? H1' Ha]; subst.
    inversion H2 as [|? ? H2' Hb]; subst.
    rewrite Forall_forall in Ha, Hb.
    destruct (Nat.eq_dec a b) as [->|Hne].
    + f_equal. apply IH; try assumption. now apply Permutation_cons_inv in Hp.
    + exfalso.
      assert (Hab : In a (b :: l2)) by (apply (Permutation_in _ Hp); now left).
      assert (Hba : In b (a :: l1))
        by (apply (Permutation_in _ (Permutation_sym Hp)); now left).
      destruct Hab as [E|Hab]; [congruence|].
      destruct Hba as [E|Hba]; [congruence|].
      exact (Hasym a b (Ha b Hba) (Hb a Hab)).
Qed.

Lemma insert_index_earlier (q : list nat) front i l :
  In i q ->
  (forall j, In j l -> In j q /\ j <> i) ->
  (forall j, In j l -> (front i j = true <-> earlier q i j)) ->
  StronglySorted (earlier q) l ->
  StronglySorted (earlier q) (insert_index front i l).
Proof.
  intros Hi. induction l as [|j l IH]; simpl; intros Hin Hfr Hs.
  - constructor; constructor.
  - inversion Hs as [|? ? Hs' Hj]; subst.
    destruct (front i j) eqn:E.
    + assert (Hij : earlier q i j) by (apply Hfr; [now left|assumption]).
      constructor; [assumption|].
      constructor; [assumption|].
      rewrite Forall_forall in *. intros x Hx.
      apply (earlier_trans q i j x); [assumption|now apply Hj].
    + assert (Hji : earlier q j i).
      { destruct (Hin j (or_introl eq_refl)) as [Hjq Hne].
        destruct (earlier_total q j i Hjq Hi Hne) as [H|H]; [assumption|].
        apply Hfr in H; [congruence|now left]. }
      constructor.
      * apply IH; [| |assumption]; intros x Hx; [apply Hin|apply Hfr]; now right.
      * eapply Permutation_Forall.
        -- symmetry. apply insert_index_perm.
        -- constructor; assumption.
Qed.

(** Every order of a duplicate-free list is reached: [order_by front l] is
    the permutation [q] of [l] as soon as [front] agrees with the positions
    in [q]. *)
Lemma order_by_reaches (q l : list nat) front :
  NoDup l -> Permutation q l ->
  (forall i j, In i l -> In j l -> i <> j ->
     (front i j = true <-> earlier q i j)) ->
  order_by front l = q.
Proof.
  intros Hnd Hp Hfr.
  assert (Hq : forall x, In x l -> In x q)
    by (intros x; apply Permutation_in; now symmetry).
  apply (sorted_perm_unique (earlier q)).
  - intros a b H1 H2. exact (earlier_asym q a b H1 H2).
  - clear Hp. induction l as [|a l IH]; [constructor|].
    inversion Hnd as [|? ? Hna Hnd']; subst.
    cbn [order_by fold_right]. apply insert_index_earlier.
    + apply Hq. now left.
    + intros j Hj. apply (Permutation_in _ (order_by_perm front l)) in Hj.
      split; [apply Hq; now right|]. intros ->. contradiction.
    + intros j Hj. apply (Permutation_in _ (order_by_perm front l)) in Hj.
      apply Hfr; [now left|now right|]. intros ->. contradiction.
    + apply IH; [assumption| |].
      * intros i j Hi Hj. apply Hfr; now right.
      * intros x Hx. apply Hq. now right.
  - apply earlier_sorted. eapply Permutation_NoDup; [symmetry; exact Hp|assumption].
  - rewrite order_by_perm. now symmetry.
Qed.

Lemma StronglySorted_snoc {A : Type} (R : A -> A -> Prop) (l : list A) (x : A) :
  StronglySorted R (l ++ [x]) -> StronglySorted R l /\ Forall (fun y => R y x) l.
Proof.
  induction l as [|y l IH]; simpl; intros H.
  - split; constructor.
  - inversion H as [|? ? Hs Hy]; subst.
    destruct (IH Hs) as [Hs' Hf]. split.
    + constructor; [assumption|].
      rewrite Forall_forall in *. intros z Hz. apply Hy.
      apply in_or_app. now left.
    + constructor; [|assumption].
      rewrite Forall_forall in Hy. apply Hy. apply in_or_app. right. now left.
Qed.

(** ** The greedy pass *)

Lemma mem_In (i : nat) (s : list nat) : mem i s = true <-> In i s.
Proof.
  unfold mem. rewrite existsb_exists. split.
  - intros (x & Hx & E). apply Nat.eqb_eq in E. now subst.
  - intros H. exists i. split; [assumption|apply Nat.eqb_refl].
Qed.

Lemma mem_false (i : nat) (s : list nat) : mem i s = false <-> ~ In i s.
Proof.
  rewrite <- mem_In. destruct (mem i s); split; congruence.
Qed.

Lemma range_difference_In (n : nat) (s : list nat) (i : nat) :
  In i (range_difference n s) <-> (i < n)%nat /\ ~ In i s.
Proof.
  unfold range_difference.
  transitivity (In i (filter (fun i => negb (mem i s)) (seq 0 n))).
  - split; apply Permutation_in; [|symmetry]; apply order_by_perm.
  - rewrite filter_In, in_seq, negb_true_iff, mem_false. intuition lia.
Qed.

Lemma range_difference_NoDup (n : nat) (s : list nat) :
  NoDup (range_difference n s).
Proof.
  unfold range_difference. eapply Permutation_NoDup.
  - symmetry. apply order_by_perm.
  - apply NoDup_filter, seq_NoDup.
Qed.

Section GreedyPass.
Variables (distances : list (list Z)) (object_ids : list nat) (rects : list rect).
Variable rows : list nat.

Lemma pairs_snoc (l : list nat) (x : nat) :
  combine (l ++ [x]) (cols_of distances (l ++ [x]))
  = combine l (cols_of distances l) ++ [(x, (row_col distances) x)].
Proof.
  unfold cols_of. induction l as [|y l IH]; simpl; [reflexivity|].
  now rewrite IH.
Qed.

Lemma assign_step_row t ar ac r :
  assign_step distances object_ids rects (t, ar, ac) (r, (row_col distances) r)
  = if mem r ar || mem ((row_col distances) r) ac then (t, ar, ac)
    else if exceeds ((row_key distances) r) (max_distance t) then (t, ar, ac)
    else ({| next_object_id := next_object_id t;
             objects := od_set (objects t) (nth r object_ids O)
                               (nth ((row_col distances) r) rects zero_rect);
             disappeared := od_set (disappeared t) (nth r object_ids O) 0;
             max_disappeared := max_disappeared t;
             max_distance := max_distance t |},
          r :: ar, (row_col distances) r :: ac).
Proof.
  unfold assign_step, row_col, row_key. now rewrite nth_argmin.
Qed.

Lemma assigned_inv_skip (md : Z) (l ar ac : list nat) (x : nat) :
  (assigned_inv distances) md rows l ar ac ->
  (forall r, In r l -> earlier rows r x) ->
  ~ (exceeds ((row_key distances) x) md = false /\
     forall r', In r' ar -> earlier rows r' x -> (row_col distances) r' <> (row_col distances) x) ->
  (assigned_inv distances) md rows (l ++ [x]) ar ac.
Proof.
  intros (A1 & A2 & A3 & A4 & A5) Hbx Hnot.
  assert (Hxnl : ~ In x l).
  { intros H. apply (earlier_irrefl rows x). now apply Hbx. }
  split; [|split; [|split; [|split]]].
  - intros r Hr. apply in_or_app. left. now apply A1.
  - exact A2.
  - intros r Hr. apply in_app_or in Hr. destruct Hr as [Hr|[<-|[]]].
    + exact (A3 r Hr).
    + split; [intros Hin; exfalso; apply Hxnl; now apply A1|].
      intros Hrhs. contradiction.
  - exact A4.
  - exact A5.
Qed.

Lemma assigned_inv_take (md : Z) (l ar ac : list nat) (x : nat) :
  (assigned_inv distances) md rows l ar ac ->
  (forall r, In r l -> earlier rows r x) ->
  exceeds ((row_key distances) x) md = false ->
  ~ In ((row_col distances) x) ac ->
  (assigned_inv distances) md rows (l ++ [x]) (x :: ar) ((row_col distances) x :: ac).
Proof.
  intros (A1 & A2 & A3 & A4 & A5) Hbx Eex Emc.
  assert (Hxnl : ~ In x l).
  { intros H. apply (earlier_irrefl rows x). now apply Hbx. }
  assert (Hxna : ~ In x ar) by (intros H; apply Hxnl; now apply A1).
  split; [|split; [|split; [|split]]].
  - intros r [<-|Hr]; apply in_or_app; [right; now left|left; now apply A1].
  - intros c. split.
    + intros [<-|Hc]; [exists x; split; [now left|reflexivity]|].
      apply A2 in Hc. destruct Hc as (r & Hr & E).
      exists r. split; [now right|assumption].
    + intros (r & [<-|Hr] & E); [now left|]. right. apply A2. now exists r.
  - intros r Hr. apply in_app_or in Hr. destruct Hr as [Hr|[<-|[]]].
    + split.
      * intros [->|Hin]; [contradiction|].
        destruct (proj1 (A3 r Hr) Hin) as [E Hn]. split; [assumption|].
        intros r' [<-|Hr'] Hb.
        -- exfalso. apply (earlier_asym rows x r Hb). now apply Hbx.
        -- now apply Hn.
      * intros [E Hn]. right. apply (A3 r Hr). split; [assumption|].
        intros r' Hr'. apply Hn. now right.
    + split; [|intros _; now left].
      intros _. split; [assumption|].
      intros r' [<-|Hr'] Hb.
      * exfalso. now apply (earlier_irrefl rows x).
      * intros E. apply Emc. apply A2. now exists r'.
  - constructor; assumption.
  - intros r1 r2 [<-|H1] [<-|H2] E; try reflexivity.
    + exfalso. apply Emc. apply A2. exists r2. split; [assumption|congruence].
    + exfalso. apply Emc. apply A2. exists r1. split; [assumption|congruence].
    + now apply A5.
Qed.

Lemma written_inv_take (t0 t : CentroidTracker) (ar : list nat) (x : nat) :
  NoDup object_ids ->
  keys (objects t0) = object_ids ->
  keys (disappeared t0) = object_ids ->
  (x < length object_ids)%nat ->
  (forall r, In r ar -> (r < length object_ids)%nat) ->
  ~ In x ar ->
  (written_inv distances object_ids rects) t0 t ar ->
  (written_inv distances object_ids rects) t0
    {| next_object_id := next_object_id t;
       objects := od_set (objects t) (nth x object_ids O)
                         (nth ((row_col distances) x) rects zero_rect);
       disappeared := od_set (disappeared t) (nth x object_ids O) 0;
       max_disappeared := max_disappeared t;
       max_distance := max_distance t |}
    (x :: ar).
Proof.
  intros Hnd Hko Hkd Hx Hlt Hxna (W1 & W2 & W3 & W4 & W5 & W6 & W7).
  assert (Hin : In (nth x object_ids O) object_ids) by now apply nth_In.
  assert (Hne : forall r, In r ar ->
            Nat.eqb (nth x object_ids O) (nth r object_ids O) = false).
  { intros r Hr. apply Nat.eqb_neq. intros E.
    apply (proj1 (NoDup_nth object_ids O) Hnd) in E; auto.
    subst. contradiction. }
  unfold written_inv.
  cbn [next_object_id objects disappeared max_disappeared max_distance].
  split; [assumption|]. split; [assumption|]. split; [assumption|].
  split; [rewrite keys_set_in; [assumption|now rewrite W4, Hko]|].
  split; [rewrite keys_set_in; [assumption|now rewrite W5, Hkd]|].
  split.
  - intros r [<-|Hr].
    + now rewrite !od_get_set, Nat.eqb_refl.
    + rewrite !od_get_set, (Hne r Hr). now apply W6.
  - intros k Hk. rewrite !od_get_set.
    destruct (Nat.eqb (nth x object_ids O) k) eqn:E.
    + apply Nat.eqb_eq in E. exfalso. apply (Hk x); [now left|assumption].
    + apply W7. intros r Hr. apply Hk. now right.
Qed.

Lemma greedy_pass_inv (t0 : CentroidTracker) (l : list nat) :
  NoDup object_ids ->
  keys (objects t0) = object_ids ->
  keys (disappeared t0) = object_ids ->
  Forall (fun r => (r < length object_ids)%nat) l ->
  StronglySorted (earlier rows) l ->
  exists t ar ac,
    fold_left (assign_step distances object_ids rects)
              (combine l (cols_of distances l)) (t0, [], []) = (t, ar, ac) /\
    (assigned_inv distances) (max_distance t0) rows l ar ac /\
    (written_inv distances object_ids rects) t0 t ar.
Proof.
  intros Hnd Hko Hkd. induction l as [|x l IH] using rev_ind; intros Hlt Hs.
  - exists t0, [], []. split; [reflexivity|]. split.
    + split; [|split; [|split; [|split]]].
      * intros r [].
      * intros c. split; [intros []|intros (r & [] & _)].
      * intros r [].
      * constructor.
      * intros r1 r2 [].
    + unfold written_inv. do 5 (split; [reflexivity|]).
      split; [intros r []|intros k _; split; reflexivity].
  - apply Forall_app in Hlt. destruct Hlt as [Hlt Hx].
    pose proof (Forall_inv Hx) as Hxlt. cbn beta in Hxlt.
    apply StronglySorted_snoc in Hs. destruct Hs as [Hs Hbx].
    rewrite Forall_forall in Hbx.
    destruct (IH Hlt Hs) as (t & ar & ac & Hfold & Ha & Hw).
    rewrite Forall_forall in Hlt.
    rewrite pairs_snoc, fold_left_app, Hfold. cbn [fold_left].
    rewrite assign_step_row.
    assert (Hmd : max_distance t = max_distance t0) by apply Hw.
    assert (A1 : forall r, In r ar -> In r l) by apply Ha.
    assert (A2 : forall c, In c ac <-> exists r, In r ar /\ (row_col distances) r = c)
      by apply Ha.
    assert (Hxna : ~ In x ar).
    { intros H. apply (earlier_irrefl rows x). apply Hbx. now apply A1. }
    apply mem_false in Hxna. rewrite Hxna. cbn [orb].
    destruct (mem ((row_col distances) x) ac) eqn:Emc.
    { exists t, ar, ac. split; [reflexivity|]. split; [|assumption].
      apply assigned_inv_skip; try assumption.
      intros [_ Hn]. apply mem_In in Emc. apply A2 in Emc.
      destruct Emc as (r' & Hr' & E').
      apply (Hn r' Hr'); [|assumption]. apply Hbx. now apply A1. }
    destruct (exceeds ((row_key distances) x) (max_distance t)) eqn:Eex;
      rewrite Hmd in Eex.
    { exists t, ar, ac. split; [reflexivity|]. split; [|assumption].
      apply assigned_inv_skip; try assumption.
      intros [E _]. congruence. }
    eexists _, (x :: ar), ((row_col distances) x :: ac). split; [reflexivity|]. split.
    + apply assigned_inv_take; try assumption. now apply mem_false.
    + apply written_inv_take; try assumption.
      * intros r Hr. apply Hlt. now apply A1.
      * now apply mem_false.
Qed.

End GreedyPass.

(** ** The state invariant of the tracker *)

Lemma wf_init (md mx : Z) : wf (init md mx).
Proof.
  split; [constructor|]. split; [reflexivity|]. intros k [].
Qed.

Lemma NoDup_snoc {A : Type} (l : list A) (x : A) :
  NoDup l -> ~ In x l -> NoDup (l ++ [x]).
Proof.
  intros Hnd Hx. apply NoDup_rev in Hnd.
  rewrite <- (rev_involutive (l ++ [x])). apply NoDup_rev.
  rewrite rev_app_distr. simpl. constructor; [|assumption].
  now rewrite <- in_rev.
Qed.

Lemma wf_fresh (t : CentroidTracker) :
  wf t -> ~ In (next_object_id t) (keys (objects t)).
Proof. intros (_ & _ & Hb) H. specialize (Hb _ H). lia. Qed.

Lemma register_keys (t : CentroidTracker) (r : rect) :
  wf t ->
  keys (objects (register t r)) = keys (objects t) ++ [next_object_id t] /\
  keys (disappeared (register t r)) = keys (objects t) ++ [next_object_id t].
Proof.
  intros Hwf. pose proof (wf_fresh t Hwf) as Hf.
  destruct Hwf as (_ & Hk & _). simpl. split.
  - now apply keys_set_notin.
  - rewrite keys_set_notin; rewrite Hk; [reflexivity|assumption].
Qed.

Lemma wf_register (t : CentroidTracker) (r : rect) : wf t -> wf (register t r).
Proof.
  intros Hwf. destruct (register_keys t r Hwf) as [Ho Hd].
  pose proof (wf_fresh t Hwf) as Hf. destruct Hwf as (Hnd & Hk & Hb).
  split; [|split].
  - rewrite Ho. now apply NoDup_snoc.
  - now rewrite Ho, Hd.
  - intros k. rewrite Ho. intros H. apply in_app_or in H. simpl.
    destruct H as [H|[<-|[]]]; [specialize (Hb k H)|]; lia.
Qed.

(** Registering a list of boxes, as the loops of lines 37-38 and 73-74 do. *)
Lemma register_all_spec (boxes : list rect) (t : CentroidTracker) :
  wf t ->
  let t' := fold_left register boxes t in
  wf t' /\
  next_object_id t' = (next_object_id t + length boxes)%nat /\
  max_disappeared t' = max_disappeared t /\
  max_distance t' = max_distance t /\
  keys (objects t')
    = keys (objects t) ++ seq (next_object_id t) (length boxes) /\
  (forall i b, nth_error boxes i = Some b ->
     od_get (objects t') (next_object_id t + i) = Some b /\
     od_get (disappeared t') (next_object_id t + i) = Some 0) /\
  (forall k, (k < next_object_id t)%nat ->
     od_get (objects t') k = od_get (objects t) k /\
     od_get (disappeared t') k = od_get (disappeared t) k).
Proof.
  revert t. induction boxes as [|b boxes IH]; intros t Hwf; cbn [fold_left].
  - cbn zeta. split; [assumption|]. split; [simpl; lia|].
    do 2 (split; [reflexivity|]). split; [simpl; now rewrite app_nil_r|].
    split; [intros [|i] b0 H; discriminate H|]. intros; split; reflexivity.
  - specialize (IH (register t b) (wf_register t b Hwf)). cbn zeta in IH.
    destruct IH as (I1 & I2 & I3 & I4 & I5 & I6 & I7).
    destruct (register_keys t b Hwf) as [Ho _].
    cbn zeta. split; [assumption|]. split; [rewrite I2; simpl; lia|].
    split; [rewrite I3; reflexivity|]. split; [rewrite I4; reflexivity|].
    split.
    { rewrite I5, Ho. simpl. now rewrite <- app_assoc. }
    split.
    + intros [|i] b0 H.
      * injection H as <-. rewrite Nat.add_0_r.
        destruct (I7 (next_object_id t)) as [E1 E2]; [simpl; lia|].
        rewrite E1, E2. simpl. now rewrite !od_get_set, Nat.eqb_refl.
      * simpl in H. specialize (I6 i b0 H). simpl in I6.
        now replace (next_object_id t + S i)%nat
          with (S (next_object_id t + i)) by lia.
    + intros k Hk. destruct (I7 k) as [E1 E2]; [simpl; lia|].
      rewrite E1, E2. simpl. rewrite !od_get_set.
      assert (E : Nat.eqb (next_object_id t) k = false)
        by (apply Nat.eqb_neq; lia).
      now rewrite E.
Qed.

(** ** Ageing the unmatched objects *)

Lemma mark_disappeared_spec (t : CentroidTracker) (id : nat) (d : Z) :
  wf t ->
  od_get (disappeared t) id = Some d ->
  exists t',
    mark_disappeared t id = Ok t' /\
    wf t' /\
    next_object_id t' = next_object_id t /\
    max_disappeared t' = max_disappeared t /\
    max_distance t' = max_distance t /\
    (forall k, In k (keys (objects t')) -> In k (keys (objects t))) /\
    (forall k,
       od_get (disappeared t') k
         = (if Nat.eqb id k
            then if d + 1 >? max_disappeared t then None else Some (d + 1)
            else od_get (disappeared t) k) /\
       od_get (objects t') k
         = (if Nat.eqb id k && (d + 1 >? max_disappeared t) then None
            else od_get (objects t) k)).
Proof.
  intros (Hnd & Hk & Hb) Hd. unfold mark_disappeared. rewrite Hd.
  assert (Hin : In id (keys (disappeared t))) by (eapply od_get_some_in; eauto).
  destruct (d + 1 >? max_disappeared t) eqn:E; eexists; (split; [reflexivity|]).
  - split.
    { split; [|split]; simpl.
      - rewrite keys_pop. now apply NoDup_filter.
      - rewrite !keys_pop, keys_set_in by assumption. now rewrite Hk.
      - intros k. rewrite keys_pop, filter_In. intros [H _]. now apply Hb. }
    do 3 (split; [reflexivity|]). split.
    { intros k. simpl. rewrite keys_pop, filter_In. tauto. }
    intros k. simpl. rewrite !od_get_pop, od_get_set.
    destruct (Nat.eqb id k); split; reflexivity.
  - split.
    { split; [|split]; simpl.
      - assumption.
      - now rewrite keys_set_in.
      - assumption. }
    do 3 (split; [reflexivity|]). split; [auto|].
    intros k. simpl. rewrite od_get_set, andb_false_r.
    destruct (Nat.eqb id k); split; reflexivity.
Qed.

Lemma mark_all_spec (ids : list nat) (t : CentroidTracker) :
  wf t -> NoDup ids ->
  (forall k, In k ids -> In k (keys (objects t))) ->
  exists t',
    for_each mark_disappeared ids t = Ok t' /\
    wf t' /\
    next_object_id t' = next_object_id t /\
    max_disappeared t' = max_disappeared t /\
    max_distance t' = max_distance t /\
    (forall k, In k (keys (objects t')) -> In k (keys (objects t))) /\
    (forall k, od_get (disappeared t') k = aged_count t ids k /\
               od_get (objects t') k = aged_box t ids k).
Proof.
  revert t. induction ids as [|id ids IH]; intros t Hwf Hnd Hin.
  - exists t. simpl. split; [reflexivity|]. split; [assumption|].
    do 3 (split; [reflexivity|]). split; [auto|]. intros k. split; reflexivity.
  - inversion Hnd as [|? ? Hnid Hnd']; subst.
    assert (Hid : exists d, od_get (disappeared t) id = Some d).
    { assert (H : In id (keys (disappeared t))).
      { destruct Hwf as (_ & -> & _). apply Hin. now left. }
      apply od_get_in in H. destruct (od_get (disappeared t) id); [eauto|congruence]. }
    destruct Hid as [d Hd].
    destruct (mark_disappeared_spec t id d Hwf Hd)
      as (t1 & E1 & Hwf1 & N1 & M1 & X1 & K1 & G1).
    assert (Hin1 : forall k, In k ids -> In k (keys (objects t1))).
    { intros k Hk. apply od_get_in. rewrite (proj2 (G1 k)).
      assert (E : Nat.eqb id k = false).
      { apply Nat.eqb_neq. intros ->. contradiction. }
      rewrite E. cbn [andb]. apply od_get_in. apply Hin. now right. }
    destruct (IH t1 Hwf1 Hnd' Hin1) as (t' & E' & Hwf' & N' & M' & X' & K' & G').
    exists t'. cbn [for_each]. rewrite E1. cbn [bind].
    split; [assumption|]. split; [assumption|].
    split; [congruence|]. split; [congruence|]. split; [congruence|].
    split; [auto|].
    intros k. destruct (G' k) as [Gd Go]. rewrite Gd, Go.
    unfold aged_count, aged_box. rewrite M1.
    destruct (G1 k) as [Hd1 Ho1]. rewrite Hd1, Ho1.
    cbn [mem existsb]. rewrite (Nat.eqb_sym k id).
    destruct (Nat.eqb id k) eqn:Eid; cbn [orb andb].
    + apply Nat.eqb_eq in Eid. subst k.
      assert (Em : mem id ids = false) by now apply mem_false.
      rewrite Em, Hd.
      destruct (d + 1 >? max_disappeared t); split; reflexivity.
    + split; reflexivity.
Qed.

Lemma for_each_map {A B S : Type} (body : S -> B -> result S) (g : A -> B)
  (l : list A) (s : S) :
  for_each (fun s' a => body s' (g a)) l s = for_each body (map g l) s.
Proof.
  revert s. induction l as [|a l IH]; intros s; simpl; [reflexivity|].
  destruct (body s (g a)); simpl; [apply IH|reflexivity].
Qed.

Lemma fold_left_map {A B S : Type} (f : S -> B -> S) (g : A -> B)
  (l : list A) (s : S) :
  fold_left (fun s' a => f s' (g a)) l s = fold_left f (map g l) s.
Proof.
  revert s. induction l as [|a l IH]; intros s; simpl; [reflexivity|apply IH].
Qed.

(** ** The distance matrix *)

Lemma keys_length {V : Type} (d : odict V) : length (keys d) = length d.
Proof. apply length_map. Qed.

Lemma values_length {V : Type} (d : odict V) : length (values d) = length d.
Proof. apply length_map. Qed.

Lemma distances_length (t : CentroidTracker) (rects : list rect) :
  length (distances_of t rects) = length (objects t).
Proof.
  unfold distances_of, _pairwise_distances, _compute_centroids, values.
  now rewrite !length_map.
Qed.

Lemma nth_map_lt {A B : Type} (f : A -> B) (l : list A) (i : nat) (a : A) (b : B) :
  (i < length l)%nat -> nth i (map f l) b = f (nth i l a).
Proof.
  revert i. induction l as [|x l IH]; intros i Hi; simpl in Hi; [lia|].
  destruct i as [|i]; simpl; [reflexivity|]. apply IH. lia.
Qed.

Lemma distances_row (t : CentroidTracker) (rects : list rect) (r : nat) :
  (r < length (objects t))%nat ->
  nth r (distances_of t rects) []
  = map (fun b => norm2 (compute_centroid (object_box t r)) (compute_centroid b))
        rects.
Proof.
  intros Hr. rewrite <- values_length in Hr.
  unfold distances_of, _pairwise_distances, _compute_centroids, object_box.
  rewrite nth_map_lt with (a := (0, 0)) by (rewrite length_map; lia).
  rewrite nth_map_lt with (a := zero_rect) by lia.
  now rewrite map_map.
Qed.

Lemma distances_entry (t : CentroidTracker) (rects : list rect) (r c : nat) :
  (r < length (objects t))%nat -> (c < length rects)%nat ->
  nth c (nth r (distances_of t rects) []) 0 = sqdist t rects r c.
Proof.
  intros Hr Hc. rewrite distances_row by assumption. unfold sqdist.
  now rewrite nth_map_lt with (a := zero_rect) by lia.
Qed.

Lemma distances_row_length (t : CentroidTracker) (rects : list rect) (r : nat) :
  (r < length (objects t))%nat ->
  length (nth r (distances_of t rects) []) = length rects.
Proof. intros Hr. rewrite distances_row by assumption. apply length_map. Qed.

(** Each row's key is its least entry and its column the first to attain it. *)
Lemma row_col_spec (t : CentroidTracker) (rects : list rect) (r : nat) :
  rects <> [] -> (r < length (objects t))%nat ->
  let D := distances_of t rects in
  (row_col D r < length rects)%nat /\
  sqdist t rects r (row_col D r) = row_key D r /\
  (forall c, (c < length rects)%nat -> row_key D r <= sqdist t rects r c) /\
  (forall c, (c < row_col D r)%nat -> row_key D r < sqdist t rects r c).
Proof.
  intros Hne Hr D. unfold row_col, row_key.
  pose proof (distances_row_length t rects r Hr) as Hlen. fold D in Hlen.
  assert (Hrow : nth r D [] <> []).
  { intros E. rewrite E in Hlen. destruct rects; [congruence|discriminate]. }
  assert (Hlt : (argmin (nth r D []) < length rects)%nat).
  { rewrite <- Hlen. now apply argmin_lt. }
  split; [assumption|]. split; [|split].
  - unfold D. rewrite <- distances_entry by assumption. apply nth_argmin.
  - intros c Hc. unfold D. rewrite <- distances_entry by assumption.
    apply list_min_le. apply nth_In. fold D. lia.
  - intros c Hc. unfold D. rewrite <- distances_entry by (assumption || lia).
    now apply argmin_first.
Qed.

Lemma StronglySorted_weaken {A : Type} (R1 R2 : A -> A -> Prop) (l : list A) :
  (forall a b, R1 a b -> R2 a b) -> StronglySorted R1 l -> StronglySorted R2 l.
Proof.
  intros HR. induction 1 as [|a l Hs IH Hf]; constructor; [assumption|].
  eapply Forall_impl; [|exact Hf]. apply HR.
Qed.

Lemma rows_of_spec (D : list (list Z)) :
  Permutation (rows_of D) (seq 0 (length D)) /\
  StronglySorted (fun r1 r2 => row_key D r1 <= row_key D r2) (rows_of D) /\
  StronglySorted (earlier (rows_of D)) (rows_of D).
Proof.
  assert (Hp : Permutation (rows_of D) (seq 0 (length D))).
  { unfold rows_of. rewrite <- (length_map list_min D). apply argsort_perm. }
  split; [assumption|]. split.
  - unfold rows_of. eapply StronglySorted_weaken; [|apply argsort_sorted].
    assert (E : forall i, nth i (map list_min D) 0 = row_key D i).
    { intros i. unfold row_key. apply (map_nth list_min D [] i). }
    intros a b. cbn beta. now rewrite !E.
  - apply earlier_sorted. eapply Permutation_NoDup; [symmetry; exact Hp|].
    apply seq_NoDup.
Qed.

Lemma rows_of_In (D : list (list Z)) (r : nat) :
  In r (rows_of D) <-> (r < length D)%nat.
Proof.
  destruct (rows_of_spec D) as [Hp _]. split; intros H.
  - apply (Permutation_in _ Hp), in_seq in H. lia.
  - apply (Permutation_in _ (Permutation_sym Hp)), in_seq. lia.
Qed.

(** ** The greedy pass of one [update] call *)

Lemma assign_spec (t : CentroidTracker) (rects : list rect) :
  wf t ->
  let D := distances_of t rects in
  exists t1 ar ac,
    assign t rects = (t1, ar, ac) /\
    assigned_inv D (max_distance t) (rows_of D) (rows_of D) ar ac /\
    written_inv D (keys (objects t)) rects t t1 ar.
Proof.
  intros (Hnd & Hk & Hb) D. unfold assign. fold D.
  destruct (rows_of_spec D) as (_ & _ & Hs).
  apply greedy_pass_inv; try assumption; try reflexivity.
  apply Forall_forall. intros r Hr. apply rows_of_In in Hr.
  unfold D in Hr. now rewrite distances_length, <- keys_length in Hr.
Qed.

Lemma written_wf (D : list (list Z)) (rects : list rect)
  (t t1 : CentroidTracker) (ar : list nat) :
  wf t -> written_inv D (keys (objects t)) rects t t1 ar -> wf t1.
Proof.
  intros (Hnd & Hk & Hb) (W1 & _ & _ & W4 & W5 & _).
  split; [|split]; rewrite ?W4, ?W5, ?W1; assumption.
Qed.

Lemma NoDup_map_nth (ids : list nat) (l : list nat) :
  NoDup ids -> NoDup l -> (forall r, In r l -> (r < length ids)%nat) ->
  NoDup (map (fun r => nth r ids O) l).
Proof.
  intros Hids. induction l as [|x l IH]; intros Hl Hlt; simpl; [constructor|].
  inversion Hl as [|? ? Hx Hl']; subst. constructor.
  - rewrite in_map_iff. intros (y & E & Hy).
    apply (proj1 (NoDup_nth ids O) Hids) in E.
    + now subst.
    + apply Hlt. now right.
    + apply Hlt. now left.
  - apply IH; [assumption|]. intros r Hr. apply Hlt. now right.
Qed.

Lemma update_matching_unfold (t : CentroidTracker) (rects : list rect) :
  rects <> [] -> objects t <> [] ->
  update t rects
  = (let '(t1, assigned_rows, assigned_cols) := assign t rects in
     t2 <- for_each (fun t' row => mark_disappeared t' (nth row (keys (objects t)) O))
                    (range_difference (length (distances_of t rects)) assigned_rows)
                    t1 ;;
     Ok (fold_left (fun t' col => register t' (nth col rects zero_rect))
                   (range_difference (length rects) assigned_cols) t2)).
Proof.
  intros Hr Ho. unfold update. destruct rects as [|b rects]; [congruence|].
  destruct (objects t) eqn:E; [congruence|]. reflexivity.
Qed.

(** Everything one [update] call does when both the detections and the
    tracked set are non-empty. *)
Lemma update_matching_spec (t : CentroidTracker) (rects : list rect) :
  wf t -> rects <> [] -> objects t <> [] ->
  let D := distances_of t rects in
  let ids := keys (objects t) in
  exists t1 ar ac t',
    assign t rects = (t1, ar, ac) /\
    update t rects = Ok t' /\
    assigned_inv D (max_distance t) (rows_of D) (rows_of D) ar ac /\
    wf t' /\
    next_object_id t'
      = (next_object_id t + length (range_difference (length rects) ac))%nat /\
    max_disappeared t' = max_disappeared t /\
    max_distance t' = max_distance t /\
    (forall k, In k (keys (objects t')) ->
       In k ids \/ (next_object_id t <= k)%nat) /\
    (forall r, In r ar ->
       od_get (objects t1) (nth r ids O) = Some (nth (row_col D r) rects zero_rect) /\
       od_get (disappeared t1) (nth r ids O) = Some 0 /\
       od_get (objects t') (nth r ids O) = Some (nth (row_col D r) rects zero_rect) /\
       od_get (disappeared t') (nth r ids O) = Some 0) /\
    (forall r, (r < length ids)%nat -> ~ In r ar ->
       exists d,
         od_get (disappeared t) (nth r ids O) = Some d /\
         od_get (disappeared t') (nth r ids O)
           = (if d + 1 >? max_disappeared t then None else Some (d + 1)) /\
         od_get (objects t') (nth r ids O)
           = (if d + 1 >? max_disappeared t then None
              else od_get (objects t) (nth r ids O))) /\
    (forall i col,
       nth_error (range_difference (length rects) ac) i = Some col ->
       od_get (objects t') (next_object_id t + i) = Some (nth col rects zero_rect) /\
       od_get (disappeared t') (next_object_id t + i) = Some 0).
Proof.
  intros Hwf Hne Hno D ids.
  destruct (assign_spec t rects Hwf) as (t1 & ar & ac & Ea & Ha & Hw).
  fold D in Ha, Hw. fold ids in Hw.
  pose proof (written_wf _ _ _ _ _ Hwf Hw) as Hwf1.
  destruct Hwf as (Hnd & Hk & Hb). fold ids in Hnd, Hk, Hb.
  destruct Hw as (W1 & W2 & W3 & W4 & W5 & W6 & W7). fold ids in W4.
  assert (A1 : forall r, In r ar -> (r < length ids)%nat).
  { intros r Hr. apply (proj1 Ha) in Hr. apply rows_of_In in Hr.
    unfold D in Hr. rewrite distances_length in Hr. unfold ids.
    now rewrite keys_length. }
  assert (Hlen : length D = length ids).
  { unfold D, ids. now rewrite distances_length, keys_length. }
  set (urows := range_difference (length D) ar).
  set (U := map (fun r => nth r ids O) urows).
  assert (HU : forall r, (r < length ids)%nat ->
             (In (nth r ids O) U <-> ~ In r ar)).
  { intros r Hr. unfold U. rewrite in_map_iff. split.
    - intros (r' & E & Hr'). apply range_difference_In in Hr'.
      apply (proj1 (NoDup_nth ids O) Hnd) in E; [now subst|lia|assumption].
    - intros Hn. exists r. split; [reflexivity|].
      apply range_difference_In. split; [lia|assumption]. }
  destruct (mark_all_spec U t1 Hwf1) as (t2 & E2 & Hwf2 & N2 & M2 & X2 & K2 & G2).
  { apply NoDup_map_nth; [assumption|apply range_difference_NoDup|].
    intros r Hr. apply range_difference_In in Hr. lia. }
  { intros k Hk'. unfold U in Hk'. apply in_map_iff in Hk'.
    destruct Hk' as (r & <- & Hr). apply range_difference_In in Hr.
    rewrite W4. apply nth_In. lia. }
  set (ucols := range_difference (length rects) ac).
  set (boxes := map (fun col => nth col rects zero_rect) ucols).
  pose proof (register_all_spec boxes t2 Hwf2) as Hreg. cbn zeta in Hreg.
  destruct Hreg as (R1 & R2 & R3 & R4 & R5 & R6 & R7).
  exists t1, ar, ac, (fold_left register boxes t2).
  split; [assumption|]. split.
  { rewrite update_matching_unfold by assumption. rewrite Ea.
    fold D urows ids. rewrite for_each_map. fold U. rewrite E2. cbn [bind].
    fold ucols. now rewrite fold_left_map. }
  split; [assumption|]. split; [assumption|].
  split; [rewrite R2, N2, W1; unfold boxes; now rewrite length_map|].
  split; [congruence|]. split; [congruence|].
  assert (Hold : forall r, (r < length ids)%nat ->
            od_get (objects (fold_left register boxes t2)) (nth r ids O)
              = aged_box t1 U (nth r ids O) /\
            od_get (disappeared (fold_left register boxes t2)) (nth r ids O)
              = aged_count t1 U (nth r ids O)).
  { intros r Hr. destruct (R7 (nth r ids O)) as [E1 E3].
    - rewrite N2, W1. apply Hb. now apply nth_In.
    - rewrite E1, E3. destruct (G2 (nth r ids O)) as [-> ->]. now split. }
  split.
  { intros k Hk'. rewrite R5 in Hk'. apply in_app_or in Hk'.
    destruct Hk' as [Hk'|Hk'].
    - left. rewrite <- W4. now apply K2.
    - right. apply in_seq in Hk'. rewrite N2, W1 in Hk'. lia. }
  split.
  { intros r Hr. destruct (W6 r Hr) as [E1 E3].
    split; [assumption|]. split; [assumption|].
    destruct (Hold r (A1 r Hr)) as [-> ->].
    unfold aged_box, aged_count.
    assert (Em : mem (nth r ids O) U = false).
    { apply mem_false. rewrite HU by now apply A1. tauto. }
    rewrite Em. now split. }
  split.
  { intros r Hr Hnr.
    assert (Hink : In (nth r ids O) (keys (disappeared t))).
    { rewrite Hk. now apply nth_In. }
    apply od_get_in in Hink.
    destruct (od_get (disappeared t) (nth r ids O)) as [d|] eqn:Ed; [|congruence].
    exists d. split; [reflexivity|].
    destruct (Hold r Hr) as [-> ->]. unfold aged_box, aged_count.
    assert (Em : mem (nth r ids O) U = true).
    { apply mem_In. now apply HU. }
    rewrite Em.
    destruct (W7 (nth r ids O)) as [Eo Edd].
    { intros r' Hr' E. apply (proj1 (NoDup_nth ids O) Hnd) in E; [|now apply A1|assumption].
      now subst. }
    rewrite Edd, Ed, W2, Eo. now split. }
  intros i col Hi. rewrite <- W1, <- N2. apply R6.
  unfold boxes, ucols. rewrite nth_error_map, Hi. reflexivity.
Qed.

(** ** The other two branches of [update], and totality *)

Lemma update_empty_spec (t : CentroidTracker) :
  wf t ->
  exists t',
    update t [] = Ok t' /\
    wf t' /\
    next_object_id t' = next_object_id t /\
    max_disappeared t' = max_disappeared t /\
    max_distance t' = max_distance t /\
    (forall k, In k (keys (objects t')) -> In k (keys (objects t))) /\
    (forall k, od_get (disappeared t') k = aged_count t (keys (objects t)) k /\
               od_get (objects t') k = aged_box t (keys (objects t)) k).
Proof.
  intros Hwf. cbn [update].
  assert (Hk : keys (disappeared t) = keys (objects t)) by apply Hwf.
  rewrite Hk. apply mark_all_spec; [assumption|apply Hwf|auto].
Qed.

Lemma update_total (t : CentroidTracker) (rects : list rect) :
  wf t ->
  exists t',
    update t rects = Ok t' /\
    wf t' /\
    (next_object_id t <= next_object_id t')%nat /\
    max_disappeared t' = max_disappeared t /\
    max_distance t' = max_distance t /\
    (forall k, In k (keys (objects t')) ->
       In k (keys (objects t)) \/ (next_object_id t <= k)%nat).
Proof.
  intros Hwf. destruct rects as [|b rects].
  - destruct (update_empty_spec t Hwf) as (t' & E & Hwf' & N & M & X & K & _).
    exists t'. repeat (split; [assumption || lia|]). auto.
  - destruct (objects t) as [|o os] eqn:Eo.
    + exists (fold_left register (b :: rects) t).
      split; [unfold update; rewrite Eo; reflexivity|].
      pose proof (register_all_spec (b :: rects) t Hwf) as H. cbn zeta in H.
      destruct H as (R1 & R2 & R3 & R4 & R5 & _).
      split; [assumption|]. split; [lia|]. do 2 (split; [assumption|]).
      intros k Hk. rewrite R5 in Hk. apply in_app_or in Hk.
      destruct Hk as [Hk|Hk]; [left; now rewrite Eo in Hk|right].
      apply in_seq in Hk. lia.
    + destruct (update_matching_spec t (b :: rects) Hwf)
        as (t1 & ar & ac & t' & _ & E & _ & Hwf' & N & M & X & K & _).
      * discriminate.
      * rewrite Eo. discriminate.
      * exists t'. split; [assumption|]. split; [assumption|].
        split; [lia|]. do 2 (split; [assumption|]). rewrite <- Eo. exact K.
Qed.

(** Every tracker obtained from a fresh one by [update] calls satisfies the
    invariant, and no call of such a run raises. *)
Lemma run_total (t : CentroidTracker) (calls : list (list rect)) :
  wf t ->
  exists t',
    run t calls = Ok t' /\
    wf t' /\
    (next_object_id t <= next_object_id t')%nat /\
    (forall k, In k (keys (objects t')) ->
       In k (keys (objects t)) \/ (next_object_id t <= k)%nat).
Proof.
  revert t. induction calls as [|rects calls IH]; intros t Hwf.
  - exists t. split; [reflexivity|]. split; [assumption|]. split; [lia|auto].
  - destruct (update_total t rects Hwf) as (t1 & E1 & Hwf1 & N1 & _ & _ & K1).
    destruct (IH t1 Hwf1) as (t' & E' & Hwf' & N' & K').
    exists t'. cbn [run]. rewrite E1. cbn [bind].
    split; [assumption|]. split; [assumption|]. split; [lia|].
    intros k Hk. destruct (K' k Hk) as [H|H]; [|right; lia].
    destruct (K1 k H) as [H'|H']; [now left|right; lia].
Qed.

(** * The claims *)

Lemma wf_one_object : wf one_object.
Proof. solve_wf. Qed.

Lemma wf_two_objects : wf two_objects.
Proof. solve_wf. Qed.

(** C3.  An [update] call with no detection on a tracker that holds objects
    returns normally; every object has a count [d], and after the call an
    object with [d + 1 > max_disappeared] is gone from the returned mapping
    (and from the counts), while any other object has count [d + 1] and its
    previous box; the call adds no key. *)
Theorem update_without_detections (t : CentroidTracker) :
  wf t -> objects t <> [] ->
  exists t',
    update t [] = Ok t' /\
    (forall id box, od_get (objects t) id = Some box ->
       exists d,
         od_get (disappeared t) id = Some d /\
         (d + 1 > max_disappeared t ->
            od_get (objects t') id = None /\ od_get (disappeared t') id = None) /\
         (d + 1 <= max_disappeared t ->
            od_get (objects t') id = Some box /\
            od_get (disappeared t') id = Some (d + 1))) /\
    (forall id, In id (keys (objects t')) -> In id (keys (objects t))).
Proof.
  intros Hwf _.
  destruct (update_empty_spec t Hwf) as (t' & E & _ & _ & _ & _ & K & G).
  exists t'. split; [assumption|]. split; [|assumption].
  intros id box Hbox.
  assert (Hin : In id (keys (objects t))) by (eapply od_get_some_in; eauto).
  assert (Hd : od_get (disappeared t) id <> None).
  { apply od_get_in. destruct Hwf as (_ & -> & _). assumption. }
  destruct (od_get (disappeared t) id) as [d|] eqn:Ed; [|congruence].
  exists d. split; [reflexivity|].
  destruct (G id) as [Gd Go]. rewrite Gd, Go. unfold aged_count, aged_box.
  apply mem_In in Hin. rewrite Hin, Ed, Hbox.
  destruct (Z.gtb_spec (d + 1) (max_disappeared t)); split; intros; try lia; now split.
Qed.

(** C1.  In an [update] call with detections and tracked objects, the greedy
    pass visits every row once, in ascending order of the row's minimum
    distance; rows of equal minimum are visited in the order [argsort]
    returns them, whatever that order is.  A row's column is the first column
    attaining the row's minimum; a row is assigned exactly when its minimum
    does not exceed [max_distance] and no row visited before it was assigned
    the same column, so no row and no column is assigned twice; an assigned
    object ends the call with the box of its column and count 0; and of two
    rows tied on distance and column the one visited later is never
    assigned. *)
Theorem greedy_assignment_order_and_ties (t : CentroidTracker) (rects : list rect) :
  wf t -> rects <> [] -> objects t <> [] ->
  let D := distances_of t rects in
  let ids := keys (objects t) in
  let n := length (objects t) in
  let m := length rects in
  exists t1 ar ac t',
    assign t rects = (t1, ar, ac) /\
    update t rects = Ok t' /\
    Permutation (rows_of D) (seq 0 n) /\
    StronglySorted (fun r1 r2 => row_key D r1 <= row_key D r2) (rows_of D) /\
    (forall r, (r < n)%nat ->
       (row_col D r < m)%nat /\
       sqdist t rects r (row_col D r) = row_key D r /\
       (forall c, (c < m)%nat -> row_key D r <= sqdist t rects r c) /\
       (forall c, (c < row_col D r)%nat -> row_key D r < sqdist t rects r c)) /\
    (forall r,
       In r ar <->
       (r < n)%nat /\
       exceeds (row_key D r) (max_distance t) = false /\
       (forall r', In r' ar -> earlier (rows_of D) r' r ->
                   row_col D r' <> row_col D r)) /\
    (forall c, In c ac <-> exists r, In r ar /\ row_col D r = c) /\
    NoDup ar /\
    (forall r1 r2, In r1 ar -> In r2 ar -> row_col D r1 = row_col D r2 -> r1 = r2) /\
    (forall r, In r ar ->
       od_get (objects t') (nth r ids O)
         = Some (nth (row_col D r) rects zero_rect) /\
       od_get (disappeared t') (nth r ids O) = Some 0) /\
    (forall r1 r2, (r1 < n)%nat -> (r2 < n)%nat ->
       earlier (rows_of D) r1 r2 ->
       row_key D r1 = row_key D r2 -> row_col D r1 = row_col D r2 ->
       ~ In r2 ar).
Proof.
  intros Hwf Hne Hno D ids n m.
  destruct (update_matching_spec t rects Hwf Hne Hno)
    as (t1 & ar & ac & t' & Ea & Eu & Ha & _ & _ & _ & _ & _ & Hm & _).
  fold D ids in Ha, Hm.
  destruct Ha as (A1 & A2 & A3 & A4 & A5).
  assert (Hn : length D = n) by apply distances_length.
  assert (Hiff : forall r,
            In r ar <->
            (r < n)%nat /\
            exceeds (row_key D r) (max_distance t) = false /\
            (forall r', In r' ar -> earlier (rows_of D) r' r ->
                        row_col D r' <> row_col D r)).
  { intros r. split.
    - intros Hr. pose proof (A1 r Hr) as Hl.
      split; [apply rows_of_In in Hl; lia|]. now apply (A3 r Hl).
    - intros (Hr & H). apply A3; [|assumption]. apply rows_of_In. lia. }
  exists t1, ar, ac, t'.
  split; [assumption|]. split; [assumption|].
  split; [rewrite <- Hn; apply rows_of_spec|].
  split; [apply rows_of_spec|].
  split; [intros r Hr; now apply row_col_spec|].
  split; [assumption|]. split; [assumption|]. split; [assumption|].
  split; [assumption|].
  split; [intros r Hr; destruct (Hm r Hr) as (_ & _ & H1 & H2); now split|].
  intros r1 r2 Hr1 Hr2 Hb12 Ek Ec H2.
  destruct (proj1 (Hiff r2) H2) as (_ & Ex & Hfree).
  apply (Hfree r1); [|assumption|assumption].
  apply Hiff. split; [assumption|]. split; [now rewrite Ek|].
  intros r' Hr' Hb E. apply (Hfree r' Hr'); [|congruence].
  exact (earlier_trans _ _ _ _ Hb Hb12).
Qed.

(** C4.  In an [update] call with detections and tracked objects, every row
    the greedy pass left unassigned has its object's count [d] raised to
    [d + 1], and the object is removed when [d + 1 > max_disappeared] and
    keeps its box otherwise; every unassigned column is registered under an
    id of its own, not below the counter and so never seen before, with the
    column's box and count 0, and the counter advances by the number of
    unassigned columns.  In particular a tracker with [max_distance = 80]
    and at least one tolerated miss, holding one just-matched object, that
    receives one detection at centroid distance 200 ends the call with that
    object's count 1 and the detection registered under the next id. *)
Theorem unassigned_rows_age_and_columns_register :
  (forall (t : CentroidTracker) (rects : list rect),
     wf t -> rects <> [] -> objects t <> [] ->
     let ids := keys (objects t) in
     let n := length (objects t) in
     let m := length rects in
     exists t1 ar ac t',
       assign t rects = (t1, ar, ac) /\
       update t rects = Ok t' /\
       (forall r, (r < n)%nat -> ~ In r ar ->
          exists d,
            od_get (disappeared t) (nth r ids O) = Some d /\
            (d + 1 > max_disappeared t ->
               od_get (objects t') (nth r ids O) = None /\
               od_get (disappeared t') (nth r ids O) = None) /\
            (d + 1 <= max_disappeared t ->
               od_get (disappeared t') (nth r ids O) = Some (d + 1) /\
               od_get (objects t') (nth r ids O)
                 = od_get (objects t) (nth r ids O))) /\
       next_object_id t'
         = (next_object_id t + length (range_difference m ac))%nat /\
       (exists id_of : nat -> nat,
          (forall col, (col < m)%nat -> ~ In col ac ->
             (next_object_id t <= id_of col < next_object_id t')%nat /\
             ~ In (id_of col) ids /\
             od_get (objects t') (id_of col) = Some (nth col rects zero_rect) /\
             od_get (disappeared t') (id_of col) = Some 0) /\
          (forall c1 c2,
             (c1 < m)%nat -> ~ In c1 ac -> (c2 < m)%nat -> ~ In c2 ac ->
             id_of c1 = id_of c2 -> c1 = c2))) /\
  (forall (id nxt : nat) (box det : rect) (md : Z),
     (id < nxt)%nat -> 1 <= md ->
     norm2 (compute_centroid box) (compute_centroid det) = 200 * 200 ->
     update {| next_object_id := nxt;
               objects := [(id, box)];
               disappeared := [(id, 0)];
               max_disappeared := md;
               max_distance := 80 |} [det]
     = Ok {| next_object_id := S nxt;
             objects := [(id, box); (nxt, det)];
             disappeared := [(id, 1); (nxt, 0)];
             max_disappeared := md;
             max_distance := 80 |}).
Proof.
  split.
  - intros t rects Hwf Hne Hno ids n m.
    destruct (update_matching_spec t rects Hwf Hne Hno)
      as (t1 & ar & ac & t' & Ea & Eu & _ & _ & N & _ & _ & _ & _ & Hu & Hc).
    fold ids in Hu. fold m in N, Hc.
    exists t1, ar, ac, t'.
    split; [assumption|]. split; [assumption|]. split.
    { intros r Hr Hnr.
      destruct (Hu r) as (d & Ed & Hd & Ho);
        [unfold ids; rewrite keys_length; exact Hr|assumption|].
      exists d. split; [assumption|]. rewrite Hd, Ho.
      destruct (Z.gtb_spec (d + 1) (max_disappeared t));
        split; intros; try lia; now split. }
    split; [assumption|].
    exists (fun col => (next_object_id t + index_of col (range_difference m ac))%nat).
    assert (Hidx : forall col, (col < m)%nat -> ~ In col ac ->
              nth_error (range_difference m ac)
                        (index_of col (range_difference m ac)) = Some col).
    { intros col Hcol Hnc. apply index_of_nth_error.
      apply range_difference_In. now split. }
    split.
    + intros col Hcol Hnc. pose proof (Hidx col Hcol Hnc) as Hi.
      assert (Hil : (index_of col (range_difference m ac)
                     < length (range_difference m ac))%nat).
      { apply nth_error_Some. congruence. }
      split; [lia|]. split; [|now apply Hc].
      intros Hk. apply Hwf in Hk. lia.
    + intros c1 c2 Hc1 Hn1 Hc2 Hn2 E.
      pose proof (Hidx c1 Hc1 Hn1) as E1. pose proof (Hidx c2 Hc2 Hn2) as E2.
      assert (Ei : index_of c1 (range_difference m ac)
                   = index_of c2 (range_difference m ac)) by lia.
      rewrite Ei in E1. congruence.
  - intros id nxt box det md Hid Hmd Hdist.
    assert (Eid : Nat.eqb id nxt = false) by (apply Nat.eqb_neq; lia).
    assert (Emd : (0 + 1 >? md) = false).
    { destruct (Z.gtb_spec (0 + 1) md); [lia|reflexivity]. }
    unfold update, assign, distances_of, _pairwise_distances, _compute_centroids,
      rows_of, cols_of, values.
    cbn [objects keys map snd fst list_min length seq argsort order_by
         fold_right insert_index combine argmin nth fold_left assign_step mem
         existsb orb max_distance].
    rewrite Hdist.
    change (exceeds (200 * 200) 80) with true. cbv beta iota zeta.
    cbn [range_difference order_by fold_right insert_index seq filter mem
         existsb negb for_each nth].
    unfold mark_disappeared.
    cbn [disappeared od_get max_disappeared next_object_id objects].
    rewrite Nat.eqb_refl, Emd. cbn [od_set bind].
    rewrite Nat.eqb_refl.
    cbn [length range_difference order_by fold_right insert_index seq filter
         mem existsb negb fold_left nth register next_object_id objects
         disappeared od_set max_disappeared max_distance].
    unfold register.
    cbn [next_object_id objects disappeared od_set max_disappeared max_distance].
    now rewrite Eid.
Qed.

(** ** Identity under small motion *)

Lemma exceeds_mono (d1 d2 md : Z) :
  d1 <= d2 -> exceeds d2 md = false -> exceeds d1 md = false.
Proof.
  unfold exceeds. intros Hle H. apply orb_false_iff in H. destruct H as [H1 H2].
  apply orb_false_iff. split; [assumption|].
  apply Z.ltb_ge in H2. apply Z.ltb_ge. lia.
Qed.

Lemma exceeds_separates (d1 d2 md : Z) :
  exceeds d1 md = false -> exceeds d2 md = true -> d1 < d2.
Proof.
  unfold exceeds. intros H1 H2. apply orb_false_iff in H1. destruct H1 as [H1 H1'].
  rewrite H1 in H2. cbn [orb] in H2.
  apply Z.ltb_ge in H1'. apply Z.ltb_lt in H2. lia.
Qed.

Lemma assigned_rows_iff (t : CentroidTracker) (rects : list rect) (ar ac : list nat) :
  let D := distances_of t rects in
  assigned_inv D (max_distance t) (rows_of D) (rows_of D) ar ac ->
  forall r,
    In r ar <->
    (r < length (objects t))%nat /\
    exceeds (row_key D r) (max_distance t) = false /\
    (forall r', In r' ar -> earlier (rows_of D) r' r ->
                row_col D r' <> row_col D r).
Proof.
  intros D (A1 & A2 & A3 & A4 & A5) r.
  assert (Hn : length D = length (objects t)) by apply distances_length.
  split.
  - intros Hr. pose proof (A1 r Hr) as Hl.
    split; [apply rows_of_In in Hl; lia|]. now apply (A3 r Hl).
  - intros (Hr & H). apply A3; [|assumption]. apply rows_of_In. lia.
Qed.

(** Under the two hypotheses an object is within reach of at most one
    detection, and that detection is the column of its row. *)
Lemma small_motion_column (t : CentroidTracker) (rects : list rect) (r c : nat) :
  rects <> [] ->
  near_unique_object t rects -> no_shared_closest t rects ->
  (r < length (objects t))%nat -> (c < length rects)%nat ->
  within t rects r c ->
  row_col (distances_of t rects) r = c.
Proof.
  intros Hne H1 H2 Hr Hc Hw.
  assert (Hclosest : forall c', (c' < length rects)%nat ->
            within t rects r c' -> closest t rects r c').
  { intros c' Hc' Hw' r' Hr'.
    destruct (H1 c' Hc') as (r0 & _ & _ & Huniq).
    destruct (exceeds (sqdist t rects r' c') (max_distance t)) eqn:E.
    - pose proof (exceeds_separates _ _ _ Hw' E). lia.
    - rewrite (Huniq r' Hr' E), <- (Huniq r Hr Hw'). lia. }
  destruct (row_col_spec t rects r Hne Hr) as (Hlt & Ek & Hmin & _).
  assert (Hw' : within t rects r (row_col (distances_of t rects) r)).
  { unfold within. rewrite Ek. eapply exceeds_mono; [apply (Hmin c Hc)|exact Hw]. }
  apply (H2 r); auto.
Qed.

(** Under the two hypotheses the rows assigned by the greedy pass are the
    objects within reach of a detection, and every column is assigned. *)
Lemma small_motion_assigned (t : CentroidTracker) (rects : list rect)
  (ar ac : list nat) :
  rects <> [] ->
  near_unique_object t rects -> no_shared_closest t rects ->
  let D := distances_of t rects in
  assigned_inv D (max_distance t) (rows_of D) (rows_of D) ar ac ->
  (forall r c, (r < length (objects t))%nat -> (c < length rects)%nat ->
     within t rects r c -> In r ar /\ row_col D r = c) /\
  (forall r, In r ar ->
     (r < length (objects t))%nat /\ (row_col D r < length rects)%nat /\
     within t rects r (row_col D r)) /\
  range_difference (length rects) ac = [].
Proof.
  intros Hne H1 H2 D Ha.
  pose proof (assigned_rows_iff t rects ar ac Ha) as Hiff. fold D in Hiff.
  assert (Hin : forall r, In r ar ->
            (r < length (objects t))%nat /\ (row_col D r < length rects)%nat /\
            within t rects r (row_col D r)).
  { intros r Hr. apply Hiff in Hr. destruct Hr as (Hr & Ex & _).
    destruct (row_col_spec t rects r Hne Hr) as (Hlt & Ek & _).
    split; [assumption|]. split; [assumption|].
    unfold within. fold D in Ek. now rewrite Ek. }
  assert (Hmatch : forall r c, (r < length (objects t))%nat ->
            (c < length rects)%nat -> within t rects r c ->
            In r ar /\ row_col D r = c).
  { intros r c Hr Hc Hw.
    pose proof (small_motion_column t rects r c Hne H1 H2 Hr Hc Hw) as Ecol.
    fold D in Ecol. split; [|assumption].
    apply Hiff. split; [assumption|].
    destruct (row_col_spec t rects r Hne Hr) as (_ & Ek & _). fold D in Ek.
    split.
    - rewrite <- Ek, Ecol. exact Hw.
    - intros r' Hr' Hb E. destruct (Hin r' Hr') as (Hr'lt & _ & Hw').
      rewrite E, Ecol in Hw'.
      destruct (H1 c Hc) as (r0 & _ & _ & Huniq).
      rewrite (Huniq r' Hr'lt Hw'), <- (Huniq r Hr Hw) in Hb.
      now apply (earlier_irrefl (rows_of D) r). }
  split; [assumption|]. split; [assumption|].
  destruct (range_difference (length rects) ac) as [|c l] eqn:E; [reflexivity|].
  exfalso.
  assert (Hc : In c (range_difference (length rects) ac))
    by (rewrite E; now left).
  apply range_difference_In in Hc. destruct Hc as [Hc Hnc].
  destruct (H1 c Hc) as (r0 & Hr0 & Hw0 & _).
  destruct (Hmatch r0 c Hr0 Hc Hw0) as [Hr0a Ecol].
  apply Hnc. apply Ha. now exists r0.
Qed.

(** C2, as amended.  When every detection lies within [max_distance] of
    exactly one tracked centroid and no two detections are closest to the
    same one, an [update] call registers nothing: the counter is unchanged and
    every returned id was tracked before; each object within reach of a
    detection gets that detection's box and count 0; an object within reach
    of none ages by one tick, and is removed once its count exceeds
    [max_disappeared].  The returned ids are therefore those before the call
    whenever every object is matched or still tolerated.  In particular a
    tracker with [max_distance = 80] holding object 0 at box (100,100,50,50)
    turns the single detection (105,103,50,50) into object 0 with that box,
    count 0 and an unchanged counter. *)
Theorem identity_preserved_under_small_motion :
  (forall (t : CentroidTracker) (rects : list rect),
     wf t ->
     near_unique_object t rects -> no_shared_closest t rects ->
     let ids := keys (objects t) in
     let n := length (objects t) in
     let m := length rects in
     exists t',
       update t rects = Ok t' /\
       next_object_id t' = next_object_id t /\
       (forall id, In id (keys (objects t')) -> In id ids) /\
       (forall r c, (r < n)%nat -> (c < m)%nat -> within t rects r c ->
          od_get (objects t') (nth r ids O) = Some (nth c rects zero_rect) /\
          od_get (disappeared t') (nth r ids O) = Some 0) /\
       (forall r, (r < n)%nat ->
          (forall c, (c < m)%nat -> ~ within t rects r c) ->
          exists d,
            od_get (disappeared t) (nth r ids O) = Some d /\
            (d + 1 > max_disappeared t ->
               od_get (objects t') (nth r ids O) = None) /\
            (d + 1 <= max_disappeared t ->
               od_get (objects t') (nth r ids O)
                 = od_get (objects t) (nth r ids O) /\
               od_get (disappeared t') (nth r ids O) = Some (d + 1))) /\
       ((forall r, (r < n)%nat ->
           (exists c, (c < m)%nat /\ within t rects r c) \/
           (exists d, od_get (disappeared t) (nth r ids O) = Some d /\
                      d + 1 <= max_disappeared t)) ->
        forall id, In id (keys (objects t')) <-> In id ids)) /\
  (forall (nxt : nat) (d md : Z),
     update {| next_object_id := nxt;
               objects := [(O, (100, 100, 50, 50))];
               disappeared := [(O, d)];
               max_disappeared := md;
               max_distance := 80 |} [(105, 103, 50, 50)]
     = Ok {| next_object_id := nxt;
             objects := [(O, (105, 103, 50, 50))];
             disappeared := [(O, 0)];
             max_disappeared := md;
             max_distance := 80 |}).
Proof.
  split; [|reflexivity].
  intros t rects Hwf H1 H2. cbv zeta.
  set (ids := keys (objects t)). set (n := length (objects t)).
  assert (Hlen : length ids = n) by apply keys_length.
  destruct rects as [|b0 rects0].
  { (* no detection: every object ages *)
    destruct (update_empty_spec t Hwf) as (t' & E & _ & N & _ & _ & K & G).
    exists t'. split; [exact E|]. split; [exact N|]. split; [exact K|].
    split; [intros r c _ Hc; simpl in Hc; lia|].
    assert (Hrow : forall r, (r < n)%nat ->
              exists d,
                od_get (disappeared t) (nth r ids O) = Some d /\
                od_get (disappeared t') (nth r ids O)
                  = (if d + 1 >? max_disappeared t then None else Some (d + 1)) /\
                od_get (objects t') (nth r ids O)
                  = (if d + 1 >? max_disappeared t then None
                     else od_get (objects t) (nth r ids O))).
    { intros r Hr.
      assert (Hin : In (nth r ids O) ids) by (apply nth_In; lia).
      assert (Hd : od_get (disappeared t) (nth r ids O) <> None).
      { apply od_get_in. destruct Hwf as (_ & -> & _). exact Hin. }
      destruct (od_get (disappeared t) (nth r ids O)) as [d|] eqn:Ed; [|congruence].
      exists d. split; [reflexivity|].
      destruct (G (nth r ids O)) as [-> ->]. unfold aged_count, aged_box.
      apply mem_In in Hin. fold ids. rewrite Hin, Ed. now split. }
    split.
    { intros r Hr _. destruct (Hrow r Hr) as (d & Ed & Hd & Ho).
      exists d. split; [assumption|]. rewrite Hd, Ho.
      destruct (Z.gtb_spec (d + 1) (max_disappeared t));
        split; intros; try lia; now split. }
    intros Hall id. split; [apply K|].
    intros Hid. destruct (In_nth ids id O Hid) as (r & Hr & <-).
    rewrite Hlen in Hr. destruct (Hrow r Hr) as (d & Ed & _ & Ho).
    apply od_get_in. rewrite Ho.
    destruct (Hall r Hr) as [(c & Hc & _)|(d' & Ed' & Hd')]; [simpl in Hc; lia|].
    assert (d' = d) by congruence. subst d'.
    destruct (Z.gtb_spec (d + 1) (max_disappeared t)); [lia|].
    apply od_get_in. fold ids. apply nth_In. lia. }
  set (rects := b0 :: rects0) in *. set (m := length rects).
  assert (Hne : rects <> []) by discriminate.
  assert (Hno : objects t <> []).
  { destruct (H1 O) as (r & Hr & _); [simpl; lia|].
    intros E. rewrite E in Hr. simpl in Hr. lia. }
  destruct (update_matching_spec t rects Hwf Hne Hno)
    as (t1 & ar & ac & t' & Ea & Eu & Ha & Hwf' & N & _ & _ & K & Hm & Hu & _).
  fold ids in K, Hm, Hu.
  destruct (small_motion_assigned t rects ar ac Hne H1 H2 Ha)
    as (Hmatch & Hin & Enone).
  exists t'. split; [assumption|].
  split; [rewrite N, Enone; simpl; lia|].
  assert (Hsub : forall id, In id (keys (objects t')) -> In id ids).
  { intros id Hid. destruct (K id Hid) as [H|H]; [assumption|].
    exfalso. apply Hwf' in Hid. rewrite N, Enone in Hid. simpl in Hid. lia. }
  split; [assumption|]. split.
  { intros r c Hr Hc Hw. destruct (Hmatch r c Hr Hc Hw) as [Hra Ecol].
    destruct (Hm r Hra) as (_ & _ & Eo & Ed). rewrite Ecol in Eo. now split. }
  split.
  { intros r Hr Hnone.
    destruct (Hu r) as (d & Ed & Hd & Ho); [lia| |].
    - intros Hra. destruct (Hin r Hra) as (_ & Hc & Hw). now apply (Hnone _ Hc).
    - exists d. split; [assumption|]. rewrite Hd, Ho.
      destruct (Z.gtb_spec (d + 1) (max_disappeared t));
        split; intros; try lia; now split. }
  intros Hall id. split; [apply Hsub|].
  intros Hid. destruct (In_nth ids id O Hid) as (r & Hr & <-).
  apply od_get_in.
  destruct (in_dec Nat.eq_dec r ar) as [Hra|Hnra].
  - destruct (Hm r Hra) as (_ & _ & -> & _). discriminate.
  - destruct (Hu r Hr Hnra) as (d & Ed & _ & ->).
    destruct (Hall r) as [(c & Hc & Hw)|(d' & Ed' & Hd')]; [lia| |].
    + exfalso. apply Hnra. now apply (Hmatch r c); [lia| |].
    + assert (d' = d) by congruence. subst d'.
      destruct (Z.gtb_spec (d + 1) (max_disappeared t)); [lia|].
      apply od_get_in. assumption.
Qed.

(** ** Ids ascend in registration order *)

Lemma StronglySorted_filter {A : Type} (R : A -> A -> Prop) (f : A -> bool)
  (l : list A) :
  StronglySorted R l -> StronglySorted R (filter f l).
Proof.
  induction 1 as [|a l Hs IH Hf]; simpl; [constructor|].
  destruct (f a); [|assumption]. constructor; [assumption|].
  rewrite Forall_forall in *. intros x Hx. apply filter_In in Hx. now apply Hf.
Qed.

Lemma StronglySorted_lt_snoc (l : list nat) (a : nat) :
  StronglySorted lt l -> (forall k, In k l -> (k < a)%nat) ->
  StronglySorted lt (l ++ [a]).
Proof.
  induction 1 as [|b l Hs IH Hf]; intros Hlt; simpl.
  - constructor; constructor.
  - constructor.
    + apply IH. intros k Hk. apply Hlt. now right.
    + apply Forall_app. split; [assumption|].
      constructor; [|constructor]. apply Hlt. now left.
Qed.

Lemma ascending_init (md mx : Z) : ascending (init md mx).
Proof. split; [constructor|intros k []]. Qed.

Lemma ascending_register (t : CentroidTracker) (r : rect) :
  ascending t -> ascending (register t r).
Proof.
  intros [Hs Hb].
  assert (Hk : keys (objects (register t r))
               = keys (objects t) ++ [next_object_id t]).
  { simpl. apply keys_set_notin. intros H. apply Hb in H. lia. }
  split; rewrite Hk.
  - now apply StronglySorted_lt_snoc.
  - intros k Hin. apply in_app_or in Hin. simpl.
    destruct Hin as [H|[<-|[]]]; [apply Hb in H|]; lia.
Qed.

Lemma ascending_register_all (boxes : list rect) (t : CentroidTracker) :
  ascending t -> ascending (fold_left register boxes t).
Proof.
  revert t. induction boxes as [|b boxes IH]; intros t H; simpl; [assumption|].
  apply IH. now apply ascending_register.
Qed.

Lemma ascending_mark_disappeared (t t' : CentroidTracker) (id : nat) :
  mark_disappeared t id = Ok t' -> ascending t -> ascending t'.
Proof.
  unfold mark_disappeared. intros E [Hs Hb].
  destruct (od_get (disappeared t) id) as [d|]; [|discriminate].
  destruct (d + 1 >? max_disappeared t); injection E as <-;
    unfold ascending, deregister; cbn [objects next_object_id].
  - split.
    + rewrite keys_pop. now apply StronglySorted_filter.
    + intros k. rewrite keys_pop, filter_In. intros [H _]. now apply Hb.
  - now split.
Qed.

Lemma ascending_mark_all (ids : list nat) (t t' : CentroidTracker) :
  for_each mark_disappeared ids t = Ok t' -> ascending t -> ascending t'.
Proof.
  revert t. induction ids as [|id ids IH]; intros t E H; simpl in E.
  - now injection E as <-.
  - destruct (mark_disappeared t id) as [t1|e] eqn:E1; [|discriminate].
    simpl in E. apply (IH t1 E). eapply ascending_mark_disappeared; eauto.
Qed.

Lemma ascending_update (t t' : CentroidTracker) (rects : list rect) :
  wf t -> ascending t -> update t rects = Ok t' -> ascending t'.
Proof.
  intros Hwf Hasc E. destruct rects as [|b rects].
  - cbn [update] in E. eapply ascending_mark_all; eauto.
  - destruct (objects t) as [|o os] eqn:Eo.
    + unfold update in E. rewrite Eo in E. injection E as <-.
      now apply ascending_register_all, ascending_register.
    + rewrite update_matching_unfold in E; [|discriminate|rewrite Eo; discriminate].
      destruct (assign_spec t (b :: rects) Hwf)
        as (t1 & ar & ac & Ea & _ & (W1 & _ & _ & W4 & _)).
      rewrite Ea in E. rewrite for_each_map in E.
      match type of E with
      | bind ?m _ = _ => destruct m as [t2|e] eqn:E2; [|discriminate]
      end.
      cbn [bind] in E. rewrite fold_left_map in E. injection E as <-.
      apply ascending_register_all.
      apply (ascending_mark_all _ _ _ E2).
      destruct Hasc as [Hs Hb]. split; rewrite W4, ?W1; assumption.
Qed.

Lemma run_ascending (t : CentroidTracker) (calls : list (list rect)) :
  wf t -> ascending t ->
  exists t',
    run t calls = Ok t' /\ wf t' /\ ascending t' /\
    (next_object_id t <= next_object_id t')%nat /\
    (forall k, In k (keys (objects t')) ->
       In k (keys (objects t)) \/ (next_object_id t <= k)%nat).
Proof.
  revert t. induction calls as [|rects calls IH]; intros t Hwf Hasc.
  - exists t. split; [reflexivity|]. do 2 (split; [assumption|]). split; [lia|auto].
  - destruct (update_total t rects Hwf) as (t1 & E1 & Hwf1 & N1 & _ & _ & K1).
    pose proof (ascending_update t t1 rects Hwf Hasc E1) as Hasc1.
    destruct (IH t1 Hwf1 Hasc1) as (t' & E' & Hwf' & Hasc' & N' & K').
    exists t'. cbn [run]. rewrite E1. cbn [bind].
    split; [assumption|]. do 2 (split; [assumption|]). split; [lia|].
    intros k Hk. destruct (K' k Hk) as [H|H]; [|right; lia].
    destruct (K1 k H) as [H'|H']; [now left|right; lia].
Qed.

(** C5.  Along any run of [update] calls on a fresh tracker no call raises,
    and for any three successive stages of the run: an id present at the
    last stage and absent at the middle one is greater than every id present
    at the first or the middle stage; an id present at the first stage and
    gone at the middle one is not present at the last; the counter never
    decreases and bounds every id handed out so far, ids registered later
    lying at or above it; and the ids of the returned mapping, read in
    registration order, increase strictly. *)
Theorem ids_increase_and_are_never_reused
  (md mx : Z) (calls0 calls1 calls2 : list (list rect)) :
  exists t0 t1 t2,
    run (init md mx) calls0 = Ok t0 /\
    run t0 calls1 = Ok t1 /\
    run t1 calls2 = Ok t2 /\
    (forall id id',
       In id (keys (objects t2)) -> ~ In id (keys (objects t1)) ->
       In id' (keys (objects t0)) \/ In id' (keys (objects t1)) ->
       (id' < id)%nat) /\
    (forall id,
       In id (keys (objects t0)) -> ~ In id (keys (objects t1)) ->
       ~ In id (keys (objects t2))) /\
    (next_object_id t0 <= next_object_id t1 <= next_object_id t2)%nat /\
    (forall id, In id (keys (objects t1)) -> (id < next_object_id t1)%nat) /\
    (forall id,
       In id (keys (objects t2)) -> ~ In id (keys (objects t1)) ->
       (next_object_id t1 <= id < next_object_id t2)%nat) /\
    StronglySorted lt (keys (objects t2)).
Proof.
  destruct (run_ascending (init md mx) calls0 (wf_init md mx) (ascending_init md mx))
    as (t0 & E0 & Hwf0 & Hasc0 & _ & _).
  destruct (run_ascending t0 calls1 Hwf0 Hasc0) as (t1 & E1 & Hwf1 & Hasc1 & N1 & K1).
  destruct (run_ascending t1 calls2 Hwf1 Hasc1) as (t2 & E2 & Hwf2 & Hasc2 & N2 & K2).
  exists t0, t1, t2. do 3 (split; [assumption|]).
  assert (B0 : forall k, In k (keys (objects t0)) -> (k < next_object_id t0)%nat)
    by apply Hwf0.
  assert (B1 : forall k, In k (keys (objects t1)) -> (k < next_object_id t1)%nat)
    by apply Hwf1.
  assert (B2 : forall k, In k (keys (objects t2)) -> (k < next_object_id t2)%nat)
    by apply Hwf2.
  split.
  { intros id id' H2 Hn1 Hold.
    destruct (K2 id H2) as [H|H]; [contradiction|].
    destruct Hold as [H0|H1]; [apply B0 in H0|apply B1 in H1]; lia. }
  split.
  { intros id H0 Hn1 H2.
    destruct (K2 id H2) as [H|H]; [contradiction|]. apply B0 in H0. lia. }
  split; [lia|]. split; [assumption|]. split; [|apply Hasc2].
  intros id H2 Hn1. destruct (K2 id H2) as [H|H]; [contradiction|].
  apply B2 in H2. lia.
Qed.

(** ** Centroids *)

Lemma quot_rem_2 (n : Z) :
  n = 2 * Z.quot n 2 + Z.rem n 2 /\
  (0 <= n -> 0 <= Z.rem n 2 < 2) /\
  (n <= 0 -> -2 < Z.rem n 2 <= 0).
Proof.
  split; [apply Z.quot_rem'|]. split; intros H.
  - apply Z.rem_bound_pos; lia.
  - pose proof (Z.rem_bound_pos (- n) 2) as Hb. rewrite Z.rem_opp_l' in Hb. lia.
Qed.

Lemma int_half_sum_truncated (x w : Z) :
  truncated (inject_Z x + inject_Z w / 2)%Q (int_half_sum x w).
Proof.
  unfold truncated, int_half_sum.
  destruct (quot_rem_2 (2 * x + w)) as (E & Hp & Hn).
  set (z := Z.quot (2 * x + w) 2) in *. set (r := Z.rem (2 * x + w) 2) in *.
  unfold Qabs, Qle, Qlt, Qminus, Qplus, Qdiv, Qmult, Qinv, Qopp, inject_Z; simpl.
  lia.
Qed.

Lemma int_half_sum_exact (x w : Z) :
  (inject_Z (int_half_sum x w) == inject_Z x + inject_Z w / 2)%Q
  <-> Z.even w = true.
Proof.
  unfold int_half_sum.
  destruct (quot_rem_2 (2 * x + w)) as (E & Hp & Hn).
  set (z := Z.quot (2 * x + w) 2) in *. set (r := Z.rem (2 * x + w) 2) in *.
  unfold Qeq, Qplus, Qdiv, Qmult, Qinv, inject_Z; simpl.
  split.
  - intros H. apply Z.even_spec. exists (z - x). lia.
  - intros H. apply Z.even_spec in H. destruct H as [k Hk]. lia.
Qed.

(** C6, as amended.  The centroid used for matching is the geometric centre
    [(x + w/2, y + h/2)] with each coordinate rounded toward zero to an
    integer; a coordinate equals that of the centre exactly when the
    corresponding side ([w], respectively [h]) is even. *)
Theorem centroid_is_truncated_center (x y w h : Z) :
  exists cx cy,
    _compute_centroids [(x, y, w, h)] = [(cx, cy)] /\
    truncated (fst (geometric_center (x, y, w, h))) cx /\
    truncated (snd (geometric_center (x, y, w, h))) cy /\
    ((inject_Z cx == fst (geometric_center (x, y, w, h)))%Q <-> Z.even w = true) /\
    ((inject_Z cy == snd (geometric_center (x, y, w, h)))%Q <-> Z.even h = true).
Proof.
  exists (int_half_sum x w), (int_half_sum y h).
  split; [reflexivity|]. cbn [geometric_center fst snd].
  split; [apply int_half_sum_truncated|].
  split; [apply int_half_sum_truncated|].
  split; apply int_half_sum_exact.
Qed.

(** C6 as stated fails on a box of odd side: the centre of (0,0,3,3) is
    (3/2, 3/2), the centroid used is (1,1). *)
Lemma centroid_of_odd_box_is_not_its_center :
  _compute_centroids [(0, 0, 3, 3)] = [(1, 1)] /\
  Qeq (fst (geometric_center (0, 0, 3, 3))) (3 # 2) /\
  Qeq (snd (geometric_center (0, 0, 3, 3))) (3 # 2) /\
  ~ Qeq (inject_Z 1) (fst (geometric_center (0, 0, 3, 3))) /\
  ~ Qeq (inject_Z 1) (snd (geometric_center (0, 0, 3, 3))).
Proof.
  split; [reflexivity|]. split; [reflexivity|]. split; [reflexivity|].
  split; intros H; vm_compute in H; discriminate H.
Qed.

(** ** The loop over the tracked objects *)

Lemma has_crop_same_image (src fr : frame) (b : rect) :
  same_image src fr -> has_crop src b = has_crop fr b.
Proof.
  intros (Hh & Hw & _). destruct b as [[[x y] w] h].
  unfold has_crop, crop_box, crop, roi_size. simpl. now rewrite Hh, Hw.
Qed.


Lemma track_step_spec (er : EmotionRecognizer) (count every : Z)
  (fr : frame) (res : list face_result) (lg : list log_entry)
  (pid : nat) (b : rect) :
  every <> 0 ->
  exists r fr',
    track_step er count every (fr, res, lg) (pid, b)
      = Ok (fr', res ++ [r],
            lg ++ (if (count mod every =? 0) && has_crop fr (clamp b)
                   then [log_of r] else [])) /\
    person_id r = pid /\
    bbox r = clamp b /\
    same_image fr' fr /\
    (if (count mod every =? 0) && has_crop fr (clamp b)
     then (emotion r, confidence r) = predict er (crop_box fr (clamp b))
     else is_sentinel r).
Proof.
  intros Hev. destruct b as [[[x y] w] h].
  assert (E0 : (every =? 0) = false) by now apply Z.eqb_neq.
  unfold track_step. rewrite E0.
  unfold has_crop, clamp, crop_box.
  set (bx := (Z.max x 0, Z.max y 0, Z.max w 1, Z.max h 1)).
  destruct (count mod every =? 0); cbn [andb].
  - destruct (roi_size (crop fr (Z.max x 0) (Z.max y 0) (Z.max w 1) (Z.max h 1)) >? 0).
    + destruct (predict er (crop fr (Z.max x 0) (Z.max y 0) (Z.max w 1) (Z.max h 1)))
        as [em conf] eqn:Ep.
      exists {| person_id := pid; bbox := bx; emotion := em; confidence := conf |}.
      eexists. split; [reflexivity|]. cbn.
      repeat split; reflexivity.
    + exists {| person_id := pid; bbox := bx; emotion := fst neutral;
                confidence := snd neutral |}.
      eexists. split; [rewrite app_nil_r; reflexivity|]. cbn.
      repeat split; reflexivity.
  - exists {| person_id := pid; bbox := bx; emotion := fst neutral;
              confidence := snd neutral |}.
    eexists. split; [rewrite app_nil_r; reflexivity|]. cbn.
    repeat split; reflexivity.
Qed.

Lemma track_loop_spec (er : EmotionRecognizer) (count every : Z)
  (items : list (nat * rect)) :
  every <> 0 ->
  forall (fr : frame) (res : list face_result) (lg : list log_entry),
  exists fr' new,
    for_each (track_step er count every) items (fr, res, lg)
      = Ok (fr', res ++ new,
            lg ++ (if count mod every =? 0
                   then map log_of (filter (fun r => has_crop fr (bbox r)) new)
                   else [])) /\
    map person_id new = map fst items /\
    map bbox new = map clamp (map snd items) /\
    same_image fr' fr /\
    Forall (fun r => if (count mod every =? 0) && has_crop fr (bbox r)
                     then sampled er fr r else is_sentinel r) new.
Proof.
  intros Hev. induction items as [|[pid b] items IH]; intros fr res lg.
  - exists fr, []. cbn [for_each]. rewrite !app_nil_r.
    split; [now destruct (count mod every =? 0); rewrite ?app_nil_r|].
    repeat split; constructor.
  - destruct (track_step_spec er count every fr res lg pid b Hev)
      as (r & fr1 & E1 & Hpid & Hbox & Himg & Hr).
    destruct (IH fr1 (res ++ [r])
                 (lg ++ (if (count mod every =? 0) && has_crop fr (clamp b)
                         then [log_of r] else [])))
      as (fr' & new & E' & Hids & Hboxes & Himg' & Hall).
    exists fr', (r :: new). cbn [for_each]. rewrite E1. cbn [bind]. rewrite E'.
    split.
    { f_equal. f_equal; [f_equal; now rewrite <- app_assoc|].
      rewrite <- app_assoc. f_equal. cbn [filter]. rewrite Hbox.
      rewrite (filter_ext (fun r0 => has_crop fr1 (bbox r0))
                          (fun r0 => has_crop fr (bbox r0)))
        by (intros r0; now apply has_crop_same_image).
      destruct (count mod every =? 0); cbn [andb]; [|reflexivity].
      now destruct (has_crop fr (clamp b)). }
    split; [cbn [map fst]; now rewrite Hpid, Hids|].
    split; [cbn [map snd]; now rewrite Hbox, Hboxes|].
    split.
    { destruct Himg as (A & B & C), Himg' as (A' & B' & C').
      repeat split; congruence. }
    constructor.
    + rewrite Hbox.
      destruct ((count mod every =? 0) && has_crop fr (clamp b)) eqn:Es;
        [|assumption].
      exists fr. split; [repeat split|]. rewrite Hbox. split; [|assumption].
      apply andb_true_iff in Es. destruct Es as [_ Es].
      unfold has_crop in Es. now apply Z.gtb_lt in Es; apply Z.lt_gt.
    + eapply Forall_impl; [|exact Hall]. intros r0 H0. cbn beta in H0.
      rewrite (has_crop_same_image fr1 fr) in H0 by assumption.
      destruct ((count mod every =? 0) && has_crop fr (bbox r0)); [|assumption].
      destruct H0 as (src & (A & B & C) & Hsz & Hp).
      destruct Himg as (A1 & B1 & C1).
      exists src. split; [repeat split; congruence|]. now split.
Qed.

(** ** One pipeline tick *)

Lemma process_frame_ok (s : VisionSystem) (fr0 : frame) (cap' : VideoCapture) :
  wf (tracker s) -> emotion_every s <> 0 ->
  is_open s = true -> cap_read (cap s) = ((true, Some fr0), cap') ->
  exists s' fr1 results,
    process_frame s = (s', Ok (fr1, results)) /\
    update (tracker s) (map _bbox_from_detection (detector s fr0))
      = Ok (tracker s') /\
    wf (tracker s') /\
    emotion_every s' = emotion_every s /\
    emotion_recognizer s' = emotion_recognizer s /\
    detector s' = detector s /\
    cap s' = cap' /\
    frame_count s' = frame_count s + 1 /\
    latest_data s' = results /\
    logs s' = logs s ++
              (if frame_count s' mod emotion_every s =? 0
               then map log_of (filter (fun r => has_crop fr1 (bbox r)) results)
               else []) /\
    map person_id results = keys (objects (tracker s')) /\
    map bbox results = map clamp (values (objects (tracker s'))) /\
    same_image fr1 fr0 /\
    Forall (fun r => if (frame_count s' mod emotion_every s =? 0)
                        && has_crop fr1 (bbox r)
                     then sampled (emotion_recognizer s) fr1 r
                     else is_sentinel r) results.
Proof.
  intros Hwf Hev Hopen Hread.
  destruct (update_total (tracker s) (map _bbox_from_detection (detector s fr0)) Hwf)
    as (tracked & Eu & Hwf' & _).
  destruct (track_loop_spec (emotion_recognizer s) (frame_count s + 1)
              (emotion_every s) (objects tracked) Hev fr0 [] (logs s))
    as (fr1 & results & El & Hids & Hboxes & Himg & Hall).
  cbn [app] in El.
  eexists _, fr1, results. split.
  { unfold process_frame. rewrite Hopen. cbn [negb]. rewrite Hread, Eu, El.
    reflexivity. }
  cbn [tracker emotion_every emotion_recognizer detector cap frame_count
       latest_data logs].
  split; [assumption|]. split; [assumption|].
  do 6 (split; [reflexivity|]).
  split.
  { f_equal. destruct ((frame_count s + 1) mod emotion_every s =? 0); [|reflexivity].
    f_equal. apply filter_ext. intros r. symmetry.
    now apply has_crop_same_image. }
  split; [assumption|]. split; [assumption|]. split; [assumption|].
  eapply Forall_impl; [|exact Hall]. intros r Hr. cbn beta in Hr.
  rewrite (has_crop_same_image fr1 fr0) by assumption.
  destruct (((frame_count s + 1) mod emotion_every s =? 0) && has_crop fr0 (bbox r));
    [|assumption].
  destruct Hr as (src & (A & B & C) & Hsz & Hp).
  destruct Himg as (A1 & B1 & C1).
  exists src. split; [repeat split; congruence|]. now split.
Qed.

Lemma process_frame_source_failure (s : VisionSystem) :
  ~ camera_ok s ->
  exists s',
    process_frame s = (s', Raise RuntimeError) /\
    tracker s' = tracker s /\
    frame_count s' = frame_count s /\
    latest_data s' = latest_data s /\
    logs s' = logs s.
Proof.
  intros Hno. unfold process_frame.
  destruct (is_open s) eqn:Hopen; cbn [negb].
  - destruct (cap_read (cap s)) as [[ret fr] cap'] eqn:Hread.
    destruct ret, fr as [fr|];
      try (eexists; split; [reflexivity|]; repeat split; reflexivity).
    exfalso. apply Hno. split; [assumption|]. now exists fr, cap'.
  - exists s. repeat split; reflexivity.
Qed.

Lemma camera_ok_dec (s : VisionSystem) : camera_ok s \/ ~ camera_ok s.
Proof.
  unfold camera_ok. destruct (is_open s); [|right; intros [H _]; discriminate].
  destruct (cap_read (cap s)) as [[ret fr] cap'].
  destruct ret, fr as [fr|]; try (right; intros (_ & f & c & H); discriminate).
  left. split; [reflexivity|]. now exists fr, cap'.
Qed.

Lemma predict_failure (er : EmotionRecognizer) (image : roi) :
  classifier_fails er image -> predict er image = neutral.
Proof.
  unfold classifier_fails, predict.
  destruct (er_detector er) as [fer|]; [|reflexivity].
  destruct (fer image) as [|[|[|p emotions] faces]]; try reflexivity.
  intros [].
Qed.


(** On a file system that accepts every line and with a non-zero sampling
    period, [get_latest_data] returns normally and what it returns is the
    stored list. *)
Lemma get_latest_data_returns (s : VisionSystem) :
  wf (tracker s) -> emotion_every s <> 0 ->
  exists s' data,
    get_latest_data s = (s', Ok data) /\
    data = latest_data s' /\
    (latest_data s <> [] -> s' = s) /\
    (latest_data s = [] -> ~ camera_ok s ->
       data = [] /\
       latest_data s' = latest_data s /\
       tracker s' = tracker s /\
       frame_count s' = frame_count s /\
       logs s' = logs s).
Proof.
  intros Hwf Hev. unfold get_latest_data.
  destruct (latest_data s) as [|r l] eqn:El.
  - destruct (camera_ok_dec s) as [Hcam|Hno].
    + destruct Hcam as (Hopen & fr0 & cap' & Hread).
      destruct (process_frame_ok s fr0 cap' Hwf Hev Hopen Hread)
        as (s' & fr1 & results & Ep & _).
      rewrite Ep. exists s', (latest_data s').
      split; [reflexivity|]. split; [reflexivity|]. split; [congruence|].
      intros _ Hno. exfalso. apply Hno. split; [assumption|]. now exists fr0, cap'.
    + destruct (process_frame_source_failure s Hno) as (s' & Ep & Ht & Hf & Hd & Hl).
      rewrite Ep. exists s', (latest_data s').
      split; [reflexivity|]. split; [reflexivity|]. split; [congruence|].
      intros _ _. rewrite Hd, El. repeat split; assumption.
  - exists s, (latest_data s). rewrite El.
    split; [reflexivity|]. split; [reflexivity|]. split; [reflexivity|].
    intros H. discriminate H.
Qed.

(** ** The snapshot accessor and empty snapshots *)

(** A stored list that is not empty is returned without running a tick. *)
Lemma get_latest_data_cached (s : VisionSystem) :
  latest_data s <> [] -> get_latest_data s = (s, Ok (latest_data s)).
Proof.
  intros H. unfold get_latest_data. destruct (latest_data s); [congruence|reflexivity].
Qed.

(** C9 fails on the code.  In front of an empty scene the first tick
    publishes a snapshot without faces; the next [get_latest_data] call does
    not return that snapshot as it is but runs the pipeline again, reading
    another frame and advancing the tick counter; and one [api_frame] request
    on the fresh system runs two ticks. *)
Theorem empty_snapshot_is_recomputed :
  exists s1 fr1 s2 s3,
    process_frame quiet_system = (s1, Ok (fr1, [])) /\
    latest_data s1 = [] /\
    frame_count s1 = 1 /\
    length (pending (cap s1)) = 2%nat /\
    get_latest_data s1 = (s2, Ok []) /\
    frame_count s2 = 2 /\
    length (pending (cap s2)) = 1%nat /\
    api_frame quiet_system = (s3, Ok (Faces [])) /\
    frame_count s3 = 2 /\
    length (pending (cap s3)) = 1%nat.
Proof.
  eexists _, _, _, _.
  split; [vm_compute; reflexivity|].
  do 3 (split; [reflexivity|]).
  split; [vm_compute; reflexivity|].
  do 2 (split; [reflexivity|]).
  split; [vm_compute; reflexivity|].
  split; reflexivity.
Qed.

(** * Further properties of the code *)

(** ** [register], [deregister] and the first detections *)

Lemma od_set_fresh {V : Type} (d : odict V) (k : nat) (v : V) :
  ~ In k (keys d) -> od_set d k v = d ++ [(k, v)].
Proof.
  induction d as [|[k0 v0] d IH]; simpl; [reflexivity|].
  intros H. destruct (Nat.eqb k0 k) eqn:E.
  - apply Nat.eqb_eq in E. tauto.
  - f_equal. apply IH. tauto.
Qed.

Lemma od_pop_absent {V : Type} (d : odict V) (k : nat) :
  ~ In k (keys d) -> od_pop d k = d.
Proof.
  induction d as [|[k0 v0] d IH]; simpl; [reflexivity|].
  intros H. destruct (Nat.eqb k0 k) eqn:E; simpl.
  - apply Nat.eqb_eq in E. tauto.
  - f_equal. apply IH. tauto.
Qed.

Lemma od_pop_app {V : Type} (d1 d2 : odict V) (k : nat) :
  od_pop (d1 ++ d2) k = od_pop d1 k ++ od_pop d2 k.
Proof. unfold od_pop. apply filter_app. Qed.

Lemma keys_nil {V : Type} (d : odict V) : keys d = [] -> d = [].
Proof. destruct d; [reflexivity|discriminate]. Qed.

Lemma register_all_dicts (boxes : list rect) (t : CentroidTracker) :
  wf t ->
  objects (fold_left register boxes t)
    = objects t ++ combine (seq (next_object_id t) (length boxes)) boxes /\
  disappeared (fold_left register boxes t)
    = disappeared t ++ map (fun k => (k, 0)) (seq (next_object_id t) (length boxes)).
Proof.
  revert t. induction boxes as [|b boxes IH]; intros t Hwf; cbn [fold_left].
  - simpl. now rewrite !app_nil_r.
  - destruct (IH (register t b) (wf_register t b Hwf)) as [Eo Ed].
    rewrite Eo, Ed. pose proof (wf_fresh t Hwf) as Hf.
    assert (Hf' : ~ In (next_object_id t) (keys (disappeared t))).
    { destruct Hwf as (_ & -> & _). exact Hf. }
    cbn [register objects disappeared next_object_id length seq combine map].
    rewrite !od_set_fresh by assumption. now rewrite <- !app_assoc.
Qed.

(** X1.  On a tracker that holds no object, an [update] call with [k]
    detections returns normally and tracks exactly those [k] boxes, in the
    order given, under the next [k] ids, each with count 0; the counter
    advances by [k] and the configuration is kept.  With no detection the
    tracker is left as it is. *)
Theorem first_detections_are_all_registered (t : CentroidTracker) (rects : list rect) :
  wf t -> objects t = [] ->
  exists t',
    update t rects = Ok t' /\
    objects t' = combine (seq (next_object_id t) (length rects)) rects /\
    disappeared t'
      = map (fun k => (k, 0)) (seq (next_object_id t) (length rects)) /\
    next_object_id t' = (next_object_id t + length rects)%nat /\
    max_disappeared t' = max_disappeared t /\
    max_distance t' = max_distance t.
Proof.
  intros Hwf Ho.
  assert (Hd : disappeared t = []).
  { apply keys_nil. destruct Hwf as (_ & -> & _). now rewrite Ho. }
  destruct rects as [|b rects].
  - exists t. split; [cbn [update]; rewrite Hd; reflexivity|].
    rewrite Ho, Hd. cbn [length seq combine map]. rewrite Nat.add_0_r.
    repeat split; reflexivity.
  - exists (fold_left register (b :: rects) t).
    split; [unfold update; rewrite Ho; reflexivity|].
    destruct (register_all_dicts (b :: rects) t Hwf) as [Eo Ed].
    pose proof (register_all_spec (b :: rects) t Hwf) as H. cbn zeta in H.
    destruct H as (_ & N & M & X & _).
    rewrite Eo, Ed, Ho, Hd. repeat split; assumption.
Qed.

(** X6.  [deregister] removes the id from both dictionaries and changes
    nothing else: the other entries, their order, the counter and the
    configuration stay; on an id that is not tracked it changes nothing at
    all; and deregistering the object just registered restores both
    dictionaries but not the counter, so the id is spent. *)
Theorem deregister_removes_only_that_id (t : CentroidTracker) (id : nat) :
  wf t ->
  wf (deregister t id) /\
  next_object_id (deregister t id) = next_object_id t /\
  od_get (objects (deregister t id)) id = None /\
  od_get (disappeared (deregister t id)) id = None /\
  (forall k, k <> id ->
     od_get (objects (deregister t id)) k = od_get (objects t) k /\
     od_get (disappeared (deregister t id)) k = od_get (disappeared t) k) /\
  keys (objects (deregister t id))
    = filter (fun k => negb (Nat.eqb k id)) (keys (objects t)) /\
  (~ In id (keys (objects t)) ->
     objects (deregister t id) = objects t /\
     disappeared (deregister t id) = disappeared t) /\
  (forall r,
     objects (deregister (register t r) (next_object_id t)) = objects t /\
     disappeared (deregister (register t r) (next_object_id t)) = disappeared t /\
     next_object_id (deregister (register t r) (next_object_id t))
       = S (next_object_id t)).
Proof.
  intros Hwf. pose proof (wf_fresh t Hwf) as Hf.
  destruct Hwf as (Hnd & Hk & Hb).
  assert (Hf' : ~ In (next_object_id t) (keys (disappeared t))) by now rewrite Hk.
  unfold deregister. cbn [objects disappeared next_object_id].
  split.
  { split; [|split]; cbn [objects disappeared next_object_id].
    - rewrite keys_pop. now apply NoDup_filter.
    - now rewrite !keys_pop, Hk.
    - intros k. rewrite keys_pop, filter_In. intros [H _]. now apply Hb. }
  split; [reflexivity|].
  split; [now rewrite od_get_pop, Nat.eqb_refl|].
  split; [now rewrite od_get_pop, Nat.eqb_refl|].
  split.
  { intros k Hne. rewrite !od_get_pop.
    assert (E : Nat.eqb id k = false) by (apply Nat.eqb_neq; congruence).
    now rewrite E. }
  split; [apply keys_pop|].
  split.
  { intros Hn. split; apply od_pop_absent; [assumption|now rewrite Hk]. }
  intros r. cbn [register objects disappeared next_object_id].
  rewrite !od_set_fresh, !od_pop_app by assumption.
  rewrite (od_pop_absent (objects t)), (od_pop_absent (disappeared t))
    by assumption.
  cbn [od_pop filter fst]. rewrite Nat.eqb_refl. cbn [negb].
  rewrite !app_nil_r. repeat split; reflexivity.
Qed.

(** ** What one [update] call returns, and what every run maintains *)

Lemma wf_count_of_key (t : CentroidTracker) (k : nat) :
  wf t -> In k (keys (objects t)) -> exists d, od_get (disappeared t) k = Some d.
Proof.
  intros (_ & Hk & _) Hin. rewrite <- Hk in Hin. apply od_get_in in Hin.
  destruct (od_get (disappeared t) k) as [d|]; [now exists d|congruence].
Qed.

Lemma update_lookup (t : CentroidTracker) (rects : list rect) :
  wf t ->
  exists t',
    update t rects = Ok t' /\
    wf t' /\
    max_disappeared t' = max_disappeared t /\
    max_distance t' = max_distance t /\
    (forall k, In k (keys (objects t')) ->
       (exists b, In b rects /\
                  od_get (objects t') k = Some b /\
                  od_get (disappeared t') k = Some 0) \/
       (exists d, od_get (disappeared t) k = Some d /\
                  d + 1 <= max_disappeared t /\
                  od_get (disappeared t') k = Some (d + 1) /\
                  od_get (objects t') k = od_get (objects t) k)).
Proof.
  intros Hwf. destruct rects as [|b0 rects0].
  - destruct (update_empty_spec t Hwf) as (t' & E & Hwf' & _ & M & X & K & G).
    exists t'. do 4 (split; [assumption|]).
    intros k Hk. right. pose proof (K k Hk) as Hold.
    destruct (wf_count_of_key t k Hwf Hold) as [d Ed]. exists d.
    destruct (G k) as [Gd Go]. unfold aged_count, aged_box in Gd, Go.
    apply mem_In in Hold. rewrite Hold, Ed in Gd, Go.
    apply od_get_in in Hk.
    destruct (Z.gtb_spec (d + 1) (max_disappeared t)); [congruence|].
    repeat split; (assumption || lia).
  - set (rects := b0 :: rects0).
    destruct (objects t) as [|o os] eqn:Eo.
    + exists (fold_left register rects t).
      split; [unfold update, rects; rewrite Eo; reflexivity|].
      pose proof (register_all_spec rects t Hwf) as H. cbn zeta in H.
      destruct H as (R1 & R2 & R3 & R4 & R5 & R6 & _).
      do 3 (split; [assumption|]).
      intros k Hk. left. rewrite R5, Eo in Hk. cbn [keys map app] in Hk.
      apply in_seq in Hk.
      assert (Hi : (k - next_object_id t < length rects)%nat) by lia.
      destruct (nth_error rects (k - next_object_id t)) as [b|] eqn:Eb;
        [|apply nth_error_None in Eb; lia].
      exists b. split; [eapply nth_error_In; eauto|].
      destruct (R6 _ _ Eb) as [E1 E2].
      replace (next_object_id t + (k - next_object_id t))%nat with k in E1, E2 by lia.
      now split.
    + assert (Hne : rects <> []) by discriminate.
      assert (Hno : objects t <> []) by (rewrite Eo; discriminate).
      rewrite <- Eo.
      destruct (update_matching_spec t rects Hwf Hne Hno)
        as (t1 & ar & ac & t' & _ & E & Ha & Hwf' & N & M & X & K & Hm & Hu & Hc).
      exists t'. do 4 (split; [assumption|]).
      intros k Hk. destruct (K k Hk) as [Hold|Hnew].
      * destruct (In_nth _ _ O Hold) as (r & Hr & <-).
        destruct (in_dec Nat.eq_dec r ar) as [Hra|Hnra].
        -- left. destruct (Hm r Hra) as (_ & _ & E1 & E2).
           exists (nth (row_col (distances_of t rects) r) rects zero_rect).
           split; [|now split].
           apply nth_In. apply row_col_spec; [assumption|].
           now rewrite <- keys_length.
        -- right. destruct (Hu r Hr Hnra) as (d & Ed & Hd & Hb).
           exists d. apply od_get_in in Hk. rewrite Hb in Hk. rewrite Hd, Hb.
           destruct (Z.gtb_spec (d + 1) (max_disappeared t)); [congruence|].
           repeat split; (assumption || lia).
      * left. assert (Hlt : (k < next_object_id t')%nat) by now apply Hwf'.
        rewrite N in Hlt.
        destruct (nth_error (range_difference (length rects) ac)
                            (k - next_object_id t)) as [col|] eqn:Ec;
          [|apply nth_error_None in Ec; lia].
        destruct (Hc _ _ Ec) as [E1 E2].
        replace (next_object_id t + (k - next_object_id t))%nat with k in E1, E2 by lia.
        exists (nth col rects zero_rect). split; [|now split].
        apply nth_In. apply nth_error_In in Ec.
        now apply range_difference_In in Ec.
Qed.

(** X3.  After an [update] call on a tracker whose two dictionaries agree,
    every object of the returned mapping is of one of two kinds: it carries
    the box of one of this call's detections and count 0, or it was tracked
    before, keeps the box it had, and its count went up by one without
    passing [max_disappeared].  So the call never invents a box. *)
Theorem update_returns_detections_or_aged_objects
  (t : CentroidTracker) (rects : list rect) :
  wf t ->
  exists t',
    update t rects = Ok t' /\
    forall k box, od_get (objects t') k = Some box ->
      (In box rects /\ od_get (disappeared t') k = Some 0) \/
      (od_get (objects t) k = Some box /\
       exists d, od_get (disappeared t) k = Some d /\
                 d + 1 <= max_disappeared t /\
                 od_get (disappeared t') k = Some (d + 1)).
Proof.
  intros Hwf.
  destruct (update_lookup t rects Hwf) as (t' & E & _ & _ & _ & H).
  exists t'. split; [assumption|].
  intros k box Hbox.
  destruct (H k (od_get_some_in _ _ _ Hbox))
    as [(b & Hb & E1 & E2)|(d & Ed & Hd & E1 & E2)].
  - left. split; [congruence|assumption].
  - right. split; [congruence|]. now exists d.
Qed.

Lemma counts_ok_update (t t' : CentroidTracker) (rects : list rect) :
  wf t -> counts_ok t -> update t rects = Ok t' -> counts_ok t'.
Proof.
  intros Hwf Hc E.
  destruct (update_lookup t rects Hwf) as (t1 & E1 & Hwf1 & M & _ & H).
  assert (t1 = t') by congruence. subst t1.
  intros k d' Hd'.
  assert (Hk : In k (keys (objects t'))).
  { destruct Hwf1 as (_ & <- & _). eapply od_get_some_in; eauto. }
  rewrite M.
  destruct (H k Hk) as [(b & _ & _ & E0)|(d & Ed & Hd & E2 & _)].
  - assert (d' = 0) by congruence. lia.
  - assert (d' = d + 1) by congruence. destruct (Hc k d Ed). lia.
Qed.

Lemma run_invariants (t : CentroidTracker) (calls : list (list rect)) :
  wf t -> counts_ok t ->
  exists t',
    run t calls = Ok t' /\ wf t' /\ counts_ok t' /\
    max_disappeared t' = max_disappeared t /\
    max_distance t' = max_distance t.
Proof.
  revert t. induction calls as [|rects calls IH]; intros t Hwf Hc.
  - exists t. split; [reflexivity|]. do 2 (split; [assumption|]).
    split; reflexivity.
  - destruct (update_total t rects Hwf) as (t1 & E1 & Hwf1 & _ & M1 & X1 & _).
    destruct (IH t1 Hwf1 (counts_ok_update t t1 rects Hwf Hc E1))
      as (t' & E' & Hwf' & Hc' & M' & X').
    exists t'. cbn [run]. rewrite E1. cbn [bind].
    do 3 (split; [assumption|]). split; congruence.
Qed.

Lemma counts_ok_init (md mx : Z) : counts_ok (init md mx).
Proof. intros k d H. discriminate H. Qed.

(** X2.  Whatever [update] calls a fresh tracker receives, no call raises,
    the configuration stays as constructed, [objects] and [disappeared] hold
    the same ids in the same order, no id twice, and every count lies
    between 0 and [max_disappeared] (between 0 and 0 for a negative
    [max_disappeared]). *)
Theorem tracker_invariants (md mx : Z) (calls : list (list rect)) :
  exists t,
    run (init md mx) calls = Ok t /\
    max_disappeared t = md /\
    max_distance t = mx /\
    keys (disappeared t) = keys (objects t) /\
    NoDup (keys (objects t)) /\
    (forall k, od_get (objects t) k <> None <-> od_get (disappeared t) k <> None) /\
    (forall k d, od_get (disappeared t) k = Some d -> 0 <= d <= Z.max 0 md).
Proof.
  destruct (run_invariants (init md mx) calls (wf_init md mx) (counts_ok_init md mx))
    as (t & E & Hwf & Hc & M & X).
  cbn [init max_disappeared max_distance] in M, X.
  exists t. split; [assumption|]. split; [assumption|]. split; [assumption|].
  destruct Hwf as (Hnd & Hk & _).
  split; [assumption|]. split; [assumption|]. split.
  - intros k. rewrite <- !od_get_in. now rewrite Hk.
  - intros k d Hd. destruct (Hc k d Hd) as [H0 H1]. rewrite M in H1. lia.
Qed.

(** ** Forgetting what is no longer seen *)

Lemma update_empty_counts (t : CentroidTracker) (lo : Z) :
  wf t ->
  (forall k d, od_get (disappeared t) k = Some d -> lo <= d) ->
  exists t',
    update t [] = Ok t' /\ wf t' /\
    next_object_id t' = next_object_id t /\
    max_disappeared t' = max_disappeared t /\
    max_distance t' = max_distance t /\
    (forall k d', od_get (disappeared t') k = Some d' ->
       lo + 1 <= d' <= max_disappeared t).
Proof.
  intros Hwf Hlo.
  destruct (update_empty_spec t Hwf) as (t' & E & Hwf' & N & M & X & _ & G).
  exists t'. do 5 (split; [assumption|]).
  intros k d' Hd'. destruct (G k) as [Gd _]. rewrite Hd' in Gd.
  unfold aged_count in Gd.
  destruct (mem k (keys (objects t))) eqn:Em.
  - destruct (od_get (disappeared t) k) as [d|] eqn:Ed; [|discriminate].
    destruct (Z.gtb_spec (d + 1) (max_disappeared t)); [discriminate|].
    injection Gd as ->. specialize (Hlo k d Ed). lia.
  - apply mem_false in Em. destruct Hwf as (_ & Hk & _). rewrite <- Hk in Em.
    apply od_get_notin in Em. congruence.
Qed.

Lemma empty_run_counts (j : nat) (t : CentroidTracker) (lo : Z) :
  wf t ->
  (forall k d, od_get (disappeared t) k = Some d -> lo <= d) ->
  exists t',
    run t (repeat [] (S j)) = Ok t' /\ wf t' /\
    next_object_id t' = next_object_id t /\
    max_disappeared t' = max_disappeared t /\
    (forall k d', od_get (disappeared t') k = Some d' ->
       lo + Z.of_nat (S j) <= d' <= max_disappeared t).
Proof.
  revert t lo. induction j as [|j IH]; intros t lo Hwf Hlo;
    destruct (update_empty_counts t lo Hwf Hlo) as (t1 & E1 & Hwf1 & N1 & M1 & _ & B1).
  - exists t1. cbn [repeat run]. rewrite E1. cbn [bind].
    do 4 (split; [assumption || reflexivity|]).
    intros k d' Hd'. specialize (B1 k d' Hd'). lia.
  - destruct (IH t1 (lo + 1) Hwf1) as (t' & E' & Hwf' & N' & M' & B').
    { intros k d Hd. now apply (B1 k d). }
    exists t'. change (repeat [] (S (S j))) with (@nil rect :: repeat [] (S j)).
    cbn [run]. rewrite E1. cbn [bind].
    split; [assumption|]. split; [assumption|].
    split; [congruence|]. split; [congruence|].
    intros k d' Hd'. specialize (B' k d' Hd'). rewrite M1 in B'. lia.
Qed.

Lemma empty_run_survivor (j : nat) (t : CentroidTracker) (k : nat) (d : Z) (b : rect) :
  wf t ->
  od_get (disappeared t) k = Some d -> od_get (objects t) k = Some b ->
  d + Z.of_nat j <= max_disappeared t ->
  exists t',
    run t (repeat [] j) = Ok t' /\
    od_get (disappeared t') k = Some (d + Z.of_nat j) /\
    od_get (objects t') k = Some b.
Proof.
  revert t d. induction j as [|j IH]; intros t d Hwf Hd Hb Hle.
  - exists t. cbn [repeat run]. rewrite Z.add_0_r. now repeat split.
  - destruct (update_empty_spec t Hwf) as (t1 & E1 & Hwf1 & _ & M1 & _ & _ & G).
    destruct (G k) as [Gd Go]. unfold aged_count, aged_box in Gd, Go.
    assert (Hin : mem k (keys (objects t)) = true).
    { apply mem_In. eapply od_get_some_in; eauto. }
    rewrite Hin, Hd in Gd, Go.
    destruct (Z.gtb_spec (d + 1) (max_disappeared t)); [lia|].
    destruct (IH t1 (d + 1) Hwf1 Gd) as (t' & E' & Ed' & Eb'); [congruence|lia|].
    exists t'. cbn [repeat run]. rewrite E1. cbn [bind].
    split; [assumption|]. split; [|assumption].
    rewrite Ed'. f_equal. lia.
Qed.

(** X4.  From any state a tracker can reach, [max_disappeared + 1] further
    [update] calls without detections (one call when [max_disappeared] is
    negative) leave no object tracked, while the id counter stays where it
    was; and the bound is tight: an object that had just been matched is
    still tracked, with its box and count [max_disappeared], after
    [max_disappeared] such calls. *)
Theorem unseen_objects_are_forgotten (md mx : Z) (calls : list (list rect)) :
  exists t t',
    run (init md mx) calls = Ok t /\
    run t (repeat [] (S (Z.to_nat md))) = Ok t' /\
    objects t' = [] /\
    disappeared t' = [] /\
    next_object_id t' = next_object_id t /\
    (forall k b,
       od_get (objects t) k = Some b -> od_get (disappeared t) k = Some 0 ->
       0 <= md ->
       exists t'',
         run t (repeat [] (Z.to_nat md)) = Ok t'' /\
         od_get (objects t'') k = Some b /\
         od_get (disappeared t'') k = Some md).
Proof.
  destruct (run_invariants (init md mx) calls (wf_init md mx) (counts_ok_init md mx))
    as (t & E & Hwf & Hc & M & _).
  cbn [init max_disappeared] in M.
  destruct (empty_run_counts (Z.to_nat md) t 0 Hwf) as (t' & E' & Hwf' & N' & M' & B').
  { intros k d Hd. now apply (Hc k d). }
  exists t, t'. split; [assumption|]. split; [assumption|].
  assert (Hd : disappeared t' = []).
  { destruct (disappeared t') as [|[k d] l] eqn:El; [reflexivity|]. exfalso.
    assert (Hg : od_get ((k, d) :: l) k = Some d).
    { cbn [od_get]. now rewrite Nat.eqb_refl. }
    specialize (B' k d Hg). rewrite M in B'. lia. }
  split.
  { apply keys_nil. destruct Hwf' as (_ & <- & _). now rewrite Hd. }
  split; [assumption|]. split; [assumption|].
  intros k b Hb H0 Hmd.
  destruct (empty_run_survivor (Z.to_nat md) t k 0 b Hwf H0 Hb) as (t'' & E'' & Ed & Eb).
  { rewrite M. lia. }
  exists t''. split; [assumption|]. split; [assumption|].
  rewrite Ed. f_equal. lia.
Qed.

(** ** What a tick draws, returns and logs *)

Lemma track_step_inv (er : EmotionRecognizer) (count every : Z)
  (fr fr' : frame) (res res' : list face_result) (lg lg' : list log_entry)
  (pid : nat) (b : rect) :
  track_step er count every (fr, res, lg) (pid, b) = Ok (fr', res', lg') ->
  every <> 0 /\
  exists r,
    res' = res ++ [r] /\
    person_id r = pid /\
    bbox r = clamp b /\
    fr' = {| frame_h := frame_h fr; frame_w := frame_w fr; pixels := pixels fr;
             drawn := drawn fr ++ [annotation_of r] |} /\
    (lg' = lg \/ lg' = lg ++ [log_of r]) /\
    ((emotion r, confidence r) = neutral \/
     (emotion r, confidence r) = predict er (crop_box fr (clamp b))).
Proof.
  destruct b as [[[x y] w] h]. unfold track_step, clamp, crop_box.
  destruct (Z.eqb_spec every 0) as [|Hne]; [discriminate|].
  intros H. split; [assumption|].
  destruct (count mod every =? 0).
  - destruct (roi_size (crop fr (Z.max x 0) (Z.max y 0) (Z.max w 1) (Z.max h 1)) >? 0).
    + destruct (predict er (crop fr (Z.max x 0) (Z.max y 0) (Z.max w 1) (Z.max h 1)))
        as [em conf] eqn:Ep.
      injection H as <- <- <-.
      eexists {| person_id := pid; bbox := _; emotion := em; confidence := conf |}.
      cbn. repeat split; auto.
    + injection H as <- <- <-.
      eexists {| person_id := pid; bbox := _; emotion := fst neutral;
                 confidence := snd neutral |}.
      cbn. repeat split; auto.
  - injection H as <- <- <-.
    eexists {| person_id := pid; bbox := _; emotion := fst neutral;
               confidence := snd neutral |}.
    cbn. repeat split; auto.
Qed.

Lemma track_loop_inv (er : EmotionRecognizer) (count every : Z)
  (items : list (nat * rect)) :
  forall (fr fr' : frame) (res res' : list face_result) (lg lg' : list log_entry),
  for_each (track_step er count every) items (fr, res, lg) = Ok (fr', res', lg') ->
  exists new logged,
    res' = res ++ new /\
    map person_id new = map fst items /\
    map bbox new = map clamp (map snd items) /\
    frame_h fr' = frame_h fr /\ frame_w fr' = frame_w fr /\
    pixels fr' = pixels fr /\
    drawn fr' = drawn fr ++ map annotation_of new /\
    lg' = lg ++ map log_of logged /\
    incl logged new /\
    Forall (fun r => (emotion r, confidence r) = neutral \/
                     exists image, (emotion r, confidence r) = predict er image)
           new.
Proof.
  induction items as [|[pid b] items IH]; intros fr fr' res res' lg lg' H.
  - cbn [for_each] in H. injection H as <- <- <-. exists [], [].
    cbn. rewrite !app_nil_r. repeat split; auto. intros x [].
  - cbn [for_each] in H.
    destruct (track_step er count every (fr, res, lg) (pid, b))
      as [[[fr1 res1] lg1]|e] eqn:E1; [|discriminate].
    cbn [bind] in H.
    apply track_step_inv in E1.
    destruct E1 as (_ & r & -> & Hpid & Hbox & -> & Hlg & Hem).
    destruct (IH _ _ _ _ _ _ H)
      as (new & logged & -> & Hids & Hboxes & Hh & Hw & Hp & Hd & -> & Hincl & Hall).
    cbn [frame_h frame_w pixels drawn] in Hh, Hw, Hp, Hd.
    assert (Hr : (emotion r, confidence r) = neutral \/
                 exists image, (emotion r, confidence r) = predict er image).
    { destruct Hem as [H0|H0]; [now left|right; eauto]. }
    destruct Hlg as [->| ->].
    + exists (r :: new), logged.
      split; [now rewrite <- app_assoc|].
      split; [cbn; now rewrite Hpid, Hids|].
      split; [cbn; now rewrite Hbox, Hboxes|].
      do 3 (split; [assumption|]).
      split; [rewrite Hd, <- app_assoc; reflexivity|].
      split; [reflexivity|]. split; [now apply incl_tl|].
      now constructor.
    + exists (r :: new), (r :: logged).
      split; [now rewrite <- app_assoc|].
      split; [cbn; now rewrite Hpid, Hids|].
      split; [cbn; now rewrite Hbox, Hboxes|].
      do 3 (split; [assumption|]).
      split; [rewrite Hd, <- app_assoc; reflexivity|].
      split; [now rewrite <- app_assoc|].
      split; [apply incl_cons; [now left|now apply incl_tl]|].
      now constructor.
Qed.



(** ** What every request maintains *)

Lemma evolves_refl (s : VisionSystem) : wf (tracker s) -> evolves s s.
Proof.
  intros Hwf. unfold evolves. do 5 (split; [assumption || reflexivity|]).
  split; [auto|]. split.
  - exists []. split; [reflexivity|]. cbn. lia.
  - exists []. now rewrite app_nil_r.
Qed.

Lemma evolves_trans (s1 s2 s3 : VisionSystem) :
  evolves s1 s2 -> evolves s2 s3 -> evolves s1 s3.
Proof.
  intros (_ & A1 & A2 & A3 & A4 & A5 & (c1 & P1 & F1) & (n1 & L1))
         (W & B1 & B2 & B3 & B4 & B5 & (c2 & P2 & F2) & (n2 & L2)).
  unfold evolves. split; [assumption|].
  do 4 (split; [congruence|]). split; [auto|]. split.
  - exists (c1 ++ c2). split; [rewrite P1, P2; now rewrite app_assoc|].
    rewrite F2, F1, filter_app, length_app. lia.
  - exists (n1 ++ n2). rewrite L2, L1. now rewrite app_assoc.
Qed.

Lemma process_frame_effect (s : VisionSystem) :
  wf (tracker s) ->
  exists s' r,
    process_frame s = (s', r) /\
    evolves s s' /\
    opened (cap s') = opened (cap s) /\
    (forall e, r = Raise e -> latest_data s' = latest_data s /\ logs s' = logs s) /\
    (forall fr res, r = Ok (fr, res) -> latest_data s' = res).
Proof.
  intros Hwf. unfold process_frame.
  destruct (is_open s) eqn:Hopen; cbn [negb].
  2:{ exists s, (Raise RuntimeError). split; [reflexivity|].
      split; [now apply evolves_refl|]. split; [reflexivity|].
      split; [now split|discriminate]. }
  unfold cap_read.
  destruct (pending (cap s)) as [|[ret fr] rest] eqn:Ep.
  { eexists _, _. split; [reflexivity|].
    split; [|split; [reflexivity|split; [now split|discriminate]]].
    unfold evolves. cbn. do 5 (split; [assumption || reflexivity|]).
    split; [auto|]. split.
    - exists []. rewrite Ep. split; [reflexivity|]. cbn. lia.
    - exists []. now rewrite app_nil_r. }
  assert (Hbad : delivers (ret, fr) = false ->
            evolves s (with_cap s {| opened := opened (cap s); pending := rest |})).
  { intros Hd. unfold evolves. cbn. do 5 (split; [assumption || reflexivity|]).
    split; [auto|]. split.
    - exists [(ret, fr)]. rewrite Ep. split; [reflexivity|].
      cbn [filter]. rewrite Hd. cbn. lia.
    - exists []. now rewrite app_nil_r. }
  destruct ret; [destruct fr as [fr0|]|];
    try (eexists _, _; split; [reflexivity|];
         split; [now apply Hbad|];
         split; [reflexivity|split; [now split|discriminate]]).
  destruct (update_total (tracker s) (map _bbox_from_detection (detector s fr0)) Hwf)
    as (tracked & Eu & Hwf' & _).
  rewrite Eu. clear Hbad.
  destruct (for_each _ (objects tracked) (fr0, [], logs s))
    as [[[fr1 results] lg]|e] eqn:El.
  - destruct (track_loop_inv _ _ _ _ _ _ _ _ _ _ El)
      as (new & logged & _ & _ & _ & _ & _ & _ & _ & Hlg & _).
    eexists _, _. split; [reflexivity|]. split.
    { unfold evolves. cbn. do 5 (split; [assumption || reflexivity|]).
      split; [auto|]. split; [|eauto].
      exists [(true, Some fr0)]. rewrite Ep. split; [reflexivity|]. cbn. lia. }
    split; [reflexivity|]. split; [discriminate|].
    intros fr res H. now injection H as _ <-.
  - eexists _, _. split; [reflexivity|]. split.
    { unfold evolves. cbn. do 5 (split; [assumption || reflexivity|]).
      split; [auto|]. split.
      - exists [(true, Some fr0)]. rewrite Ep. split; [reflexivity|]. cbn. lia.
      - exists []. now rewrite app_nil_r. }
    split; [reflexivity|]. split; [now split|discriminate].
Qed.

Lemma get_latest_data_effect (s : VisionSystem) :
  wf (tracker s) ->
  exists s' r,
    get_latest_data s = (s', r) /\ evolves s s' /\
    opened (cap s') = opened (cap s).
Proof.
  intros Hwf. unfold get_latest_data. destruct (latest_data s).
  - destruct (process_frame_effect s Hwf) as (s' & r & E & Hev & Ho & _).
    rewrite E. destruct r as [a|[| | |]]; eexists _, _; split; try reflexivity;
      now split.
  - eexists _, _. split; [reflexivity|]. split; [now apply evolves_refl|reflexivity].
Qed.

Lemma api_frame_effect (s : VisionSystem) :
  wf (tracker s) ->
  exists s' r,
    api_frame s = (s', r) /\ evolves s s' /\ opened (cap s') = opened (cap s).
Proof.
  intros Hwf. unfold api_frame. destruct (is_open s); cbn [negb].
  2:{ eexists _, _. split; [reflexivity|]. split; [now apply evolves_refl|reflexivity]. }
  destruct (get_latest_data_effect s Hwf) as (s1 & r1 & E1 & Hev1 & Ho1).
  rewrite E1.
  destruct r1 as [[|d data]|e];
    try (eexists _, _; split; [reflexivity|]; now split).
  destruct (process_frame_effect s1 (proj1 Hev1)) as (s2 & r2 & E2 & Hev2 & Ho2 & _).
  rewrite E2.
  assert (Hev : evolves s s2) by (eapply evolves_trans; eauto).
  destruct r2 as [[fr data]|[| | |]]; eexists _, _; split; try reflexivity;
    split; (assumption || congruence).
Qed.

Lemma frame_generator_effect (pulls : nat) (s : VisionSystem) :
  wf (tracker s) ->
  exists s' chunks ended,
    frame_generator pulls s = (s', chunks, ended) /\ evolves s s' /\
    opened (cap s') = opened (cap s).
Proof.
  revert s. induction pulls as [|pulls IH]; intros s Hwf; cbn [frame_generator].
  - eexists _, _, _. split; [reflexivity|]. split; [now apply evolves_refl|reflexivity].
  - destruct (process_frame_effect s Hwf) as (s1 & r1 & E1 & Hev1 & Ho1 & _).
    rewrite E1. destruct r1 as [[fr data]|e].
    + destruct (IH s1 (proj1 Hev1)) as (s2 & chunks & ended & E2 & Hev2 & Ho2).
      rewrite E2. eexists _, _, _. split; [reflexivity|].
      split; [eapply evolves_trans; eauto|congruence].
    + destruct e; eexists _, _, _; (split; [reflexivity|]); now split.
Qed.

Lemma video_stream_effect (pulls : nat) (s : VisionSystem) :
  wf (tracker s) ->
  exists s' r,
    video_stream pulls s = (s', r) /\ evolves s s' /\
    opened (cap s') = opened (cap s).
Proof.
  intros Hwf. unfold video_stream. destruct (is_open s); cbn [negb].
  - destruct (frame_generator_effect pulls s Hwf) as (s' & chunks & ended & E & H).
    rewrite E. eexists _, _. split; [reflexivity|]. exact H.
  - eexists _, _. split; [reflexivity|]. split; [now apply evolves_refl|reflexivity].
Qed.

Lemma shutdown_effect (s : VisionSystem) : wf (tracker s) -> evolves s (shutdown s).
Proof.
  intros Hwf. unfold evolves, shutdown. cbn.
  do 5 (split; [assumption || reflexivity|]).
  split; [discriminate|]. split.
  - exists []. split; [reflexivity|]. cbn. lia.
  - exists []. now rewrite app_nil_r.
Qed.

Lemma serve_effect (s : VisionSystem) (r : request) :
  wf (tracker s) -> evolves s (serve s r).
Proof.
  intros Hwf. destruct r as [| | |pulls|]; cbn [serve].
  - destruct (process_frame_effect s Hwf) as (s' & r & E & H & _). now rewrite E.
  - destruct (get_latest_data_effect s Hwf) as (s' & r & E & H & _). now rewrite E.
  - destruct (api_frame_effect s Hwf) as (s' & r & E & H & _). now rewrite E.
  - destruct (video_stream_effect pulls s Hwf) as (s' & r & E & H & _). now rewrite E.
  - now apply shutdown_effect.
Qed.

Lemma serve_all_effect (requests : list request) (s : VisionSystem) :
  wf (tracker s) -> evolves s (serve_all s requests).
Proof.
  unfold serve_all. revert s.
  induction requests as [|r requests IH]; intros s Hwf; cbn [fold_left].
  - now apply evolves_refl.
  - pose proof (serve_effect s r Hwf) as H1.
    eapply evolves_trans; [exact H1|]. apply IH. apply H1.
Qed.

(** X9.  Whatever ticks, snapshot reads, snapshot requests, streams and
    shutdowns are served, in any order, by a system whose tracker dictionaries
    agree: they still agree afterwards; the configuration, the detector and
    the recognizer are the ones it started with; a closed camera stays
    closed; the reads consumed are a prefix of the reads that were pending
    and the tick counter has advanced by exactly the number of frames those
    reads delivered; and the log has only been appended to. *)
Theorem requests_keep_the_system_consistent
  (s : VisionSystem) (requests : list request) :
  wf (tracker s) ->
  let s' := serve_all s requests in
  wf (tracker s') /\
  camera_index s' = camera_index s /\
  emotion_every s' = emotion_every s /\
  detector s' = detector s /\
  emotion_recognizer s' = emotion_recognizer s /\
  (is_open s = false -> is_open s' = false) /\
  (exists consumed,
     pending (cap s) = consumed ++ pending (cap s') /\
     frame_count s' = frame_count s + Z.of_nat (length (filter delivers consumed))) /\
  (exists new, logs s' = logs s ++ new).
Proof.
  intros Hwf s'.
  destruct (serve_all_effect requests s Hwf) as (A & B & C & D & E & F & G & H).
  fold s' in A, B, C, D, E, F, G, H.
  do 5 (split; [assumption|]). split; [|now split].
  unfold is_open. intros Hc. destruct (opened (cap s')); [|reflexivity].
  rewrite F in Hc by reflexivity. discriminate.
Qed.

(** ** A sampling period of zero *)

Lemma track_loop_zero_period (er : EmotionRecognizer) (count : Z)
  (items : list (nat * rect)) (acc : frame * list face_result * list log_entry) :
  items <> [] ->
  for_each (track_step er count 0) items acc = Raise ZeroDivisionError.
Proof.
  destruct items as [|[pid [[[x y] w] h]] items]; [congruence|]. intros _.
  destruct acc as [[fr res] lg]. reflexivity.
Qed.

(** X10.  With [emotion_every = 0] a tick that gets a frame still updates
    the tracker and advances the tick counter; when no object is tracked
    after the update it returns an empty result list, and otherwise it raises
    [ZeroDivisionError] with the stored results and the log left as they
    were.  That exception is not the [RuntimeError] the snapshot accessor
    catches: [get_latest_data] and [api_frame] let it through. *)
Theorem zero_sampling_period
  (s : VisionSystem) (fr0 : frame) (cap' : VideoCapture) :
  wf (tracker s) -> emotion_every s = 0 ->
  is_open s = true -> cap_read (cap s) = ((true, Some fr0), cap') ->
  exists tracked,
    update (tracker s) (map _bbox_from_detection (detector s fr0)) = Ok tracked /\
    (objects tracked = [] ->
       exists s',
         process_frame s = (s', Ok (fr0, [])) /\
         tracker s' = tracked /\
         frame_count s' = frame_count s + 1) /\
    (objects tracked <> [] ->
       exists s',
         process_frame s = (s', Raise ZeroDivisionError) /\
         tracker s' = tracked /\
         frame_count s' = frame_count s + 1 /\
         cap s' = cap' /\
         latest_data s' = latest_data s /\
         logs s' = logs s /\
         (latest_data s = [] ->
            get_latest_data s = (s', Raise ZeroDivisionError) /\
            api_frame s = (s', Raise ZeroDivisionError))).
Proof.
  intros Hwf Hev Hopen Hread.
  destruct (update_total (tracker s) (map _bbox_from_detection (detector s fr0)) Hwf)
    as (tracked & Eu & _).
  exists tracked. split; [assumption|].
  assert (Ep : process_frame s
               = match for_each (track_step (emotion_recognizer s)
                                            (frame_count s + 1) 0)
                                (objects tracked) (fr0, [], logs s) with
                 | Raise e =>
                     ({| camera_index := camera_index s;
                         emotion_every := emotion_every s;
                         cap := cap'; detector := detector s; tracker := tracked;
                         emotion_recognizer := emotion_recognizer s;
                         latest_data := latest_data s;
                         frame_count := frame_count s + 1;
                         logs := logs s |}, Raise e)
                 | Ok (fr1, results, lg) =>
                     ({| camera_index := camera_index s;
                         emotion_every := emotion_every s;
                         cap := cap'; detector := detector s; tracker := tracked;
                         emotion_recognizer := emotion_recognizer s;
                         latest_data := results;
                         frame_count := frame_count s + 1;
                         logs := lg |}, Ok (fr1, results))
                 end).
  { unfold process_frame. rewrite Hopen. cbn [negb]. rewrite Hread, Eu, Hev.
    reflexivity. }
  split.
  - intros Ho. rewrite Ho in Ep. cbn [for_each] in Ep.
    eexists. split; [exact Ep|]. split; reflexivity.
  - intros Hne. rewrite track_loop_zero_period in Ep by assumption.
    eexists. split; [exact Ep|].
    cbn [tracker frame_count cap latest_data logs].
    do 5 (split; [reflexivity|]).
    intros Hl.
    assert (Eg : get_latest_data s
                 = (fst (process_frame s), Raise ZeroDivisionError)).
    { unfold get_latest_data. rewrite Hl, Ep. reflexivity. }
    split; [rewrite Eg, Ep; reflexivity|].
    unfold api_frame. rewrite Hopen. cbn [negb]. rewrite Eg, Ep. reflexivity.
Qed.

(** ** The label [predict] chooses *)

Lemma max_emotion_spec (emotions : list (string * Q)) :
  emotions <> [] ->
  exists label score earlier later,
    max_emotion emotions = Some (label, score) /\
    emotions = earlier ++ (label, score) :: later /\
    (forall l x, In (l, x) emotions -> (x <= score)%Q) /\
    (forall l x, In (l, x) earlier -> (x < score)%Q).
Proof.
  induction emotions as [|[l0 x0] rest IH]; [congruence|]. intros _.
  destruct rest as [|p rest'].
  - exists l0, x0, [], []. cbn. split; [reflexivity|]. split; [reflexivity|].
    split; [|intros ? ? []].
    intros l x [H|[]]. injection H as _ <-. apply Qle_refl.
  - destruct IH as (l1 & x1 & earlier & later & Em & Es & Hmax & Hearly);
      [discriminate|].
    change (max_emotion ((l0, x0) :: p :: rest'))
      with (match max_emotion (p :: rest') with
            | None => Some (l0, x0)
            | Some q => if Qle_bool (snd q) (snd (l0, x0)) then Some (l0, x0)
                        else Some q
            end).
    rewrite Em. cbn [snd].
    destruct (Qle_bool x1 x0) eqn:Ec.
    + apply Qle_bool_iff in Ec.
      exists l0, x0, [], (p :: rest'). split; [reflexivity|]. split; [reflexivity|].
      split; [|intros ? ? []].
      intros l x [H|H].
      * injection H as _ <-. apply Qle_refl.
      * eapply Qle_trans; [eapply Hmax; exact H|exact Ec].
    + assert (Hlt : (x0 < x1)%Q).
      { apply Qnot_le_lt. intros H. apply Qle_bool_iff in H. congruence. }
      exists l1, x1, ((l0, x0) :: earlier), later.
      split; [reflexivity|]. split; [rewrite Es; reflexivity|]. split.
      * intros l x [H|H].
        -- injection H as _ <-. now apply Qlt_le_weak.
        -- eapply Hmax; exact H.
      * intros l x [H|H].
        -- now injection H as _ <-.
        -- eapply Hearly; exact H.
Qed.

(** X7.  When the classifier answers with at least one face whose emotions
    dictionary is not empty, [predict] returns a label of that first face
    together with its own score; no score of that face is higher, every
    label listed before it scores strictly less, and the other faces play no
    part. *)
Theorem predict_returns_the_first_best_emotion
  (er : EmotionRecognizer) (fer : FER) (image : roi)
  (emotions : list (string * Q)) (faces : list (list (string * Q))) :
  er_detector er = Some fer ->
  fer image = FerFaces (emotions :: faces) ->
  emotions <> [] ->
  exists label score earlier later,
    predict er image = (label, score) /\
    emotions = earlier ++ (label, score) :: later /\
    (forall l x, In (l, x) emotions -> (x <= score)%Q) /\
    (forall l x, In (l, x) earlier -> (x < score)%Q).
Proof.
  intros Hd Hf Hne.
  destruct (max_emotion_spec emotions Hne)
    as (label & score & earlier & later & Em & H).
  exists label, score, earlier, later. split; [|exact H].
  unfold predict. now rewrite Hd, Hf, Em.
Qed.

(** ** Requests as runs of ticks *)

Lemma ticks_add (a b : nat) (s : VisionSystem) :
  ticks (a + b) s = ticks b (ticks a s).
Proof.
  revert s. induction a as [|a IH]; intros s; [reflexivity|].
  cbn [Nat.add ticks]. apply IH.
Qed.

Lemma get_latest_data_ticks (s : VisionSystem) :
  exists k, (k <= 1)%nat /\ fst (get_latest_data s) = ticks k s.
Proof.
  unfold get_latest_data. destruct (latest_data s).
  - exists 1%nat. split; [lia|]. cbn [ticks].
    destruct (process_frame s) as [s' [a|[| | |]]]; reflexivity.
  - exists O. split; [lia|reflexivity].
Qed.

Lemma api_frame_ticks (s : VisionSystem) :
  exists k, (k <= 2)%nat /\ fst (api_frame s) = ticks k s.
Proof.
  unfold api_frame. destruct (is_open s); cbn [negb];
    [|exists O; split; [lia|reflexivity]].
  destruct (get_latest_data_ticks s) as (k & Hk & E).
  destruct (get_latest_data s) as [s1 r1]. cbn [fst] in E. subst s1.
  destruct r1 as [[|d data]|e];
    try (exists k; split; [lia|reflexivity]).
  exists (k + 1)%nat. split; [lia|]. rewrite ticks_add. cbn [ticks].
  destruct (process_frame (ticks k s)) as [s2 [[fr data]|[| | |]]]; reflexivity.
Qed.

Lemma frame_generator_ticks (pulls : nat) (s : VisionSystem) :
  exists k, (k <= pulls)%nat /\ fst (fst (frame_generator pulls s)) = ticks k s.
Proof.
  revert s. induction pulls as [|pulls IH]; intros s; cbn [frame_generator].
  - exists O. split; [lia|reflexivity].
  - destruct (process_frame s) as [s1 r1] eqn:E1.
    assert (Es : s1 = fst (process_frame s)) by now rewrite E1.
    destruct r1 as [[fr data]|e].
    + destruct (IH s1) as (k & Hk & E).
      destruct (frame_generator pulls s1) as [[s2 chunks] ended].
      cbn [fst] in *. exists (S k). split; [lia|].
      cbn [ticks]. now rewrite <- Es.
    + exists 1%nat. split; [lia|]. cbn [ticks]. rewrite <- Es.
      destruct e; reflexivity.
Qed.

Lemma serve_ticks (s : VisionSystem) (r : request) :
  serve s r = shutdown s \/ exists k, serve s r = ticks k s.
Proof.
  destruct r as [| | |pulls|]; cbn [serve].
  - right. now exists 1%nat.
  - right. destruct (get_latest_data_ticks s) as (k & _ & E). eauto.
  - right. destruct (api_frame_ticks s) as (k & _ & E). eauto.
  - right. unfold video_stream. destruct (is_open s); cbn [negb].
    + destruct (frame_generator_ticks pulls s) as (k & _ & E).
      destruct (frame_generator pulls s) as [[s' chunks] ended]. eauto.
    + now exists O.
  - now left.
Qed.

Lemma process_frame_inv (s s' : VisionSystem) (fr : frame) (res : list face_result) :
  process_frame s = (s', Ok (fr, res)) ->
  exists logged,
    latest_data s' = res /\
    logs s' = logs s ++ map log_of logged /\
    incl logged res /\
    Forall (fun r => (emotion r, confidence r) = neutral \/
                     exists image, (emotion r, confidence r)
                                   = predict (emotion_recognizer s) image) res.
Proof.
  unfold process_frame. destruct (is_open s); cbn [negb]; [|discriminate].
  destruct (cap_read (cap s)) as [[ret fr0] cap'].
  destruct ret; [|discriminate]. destruct fr0 as [fr0|]; [|discriminate].
  destruct (update (tracker s) _) as [tracked|e]; [|discriminate].
  destruct (for_each _ (objects tracked) (fr0, [], logs s))
    as [[[fr1 results] lg]|e] eqn:El; [|discriminate].
  intros H. injection H as <- <- <-.
  destruct (track_loop_inv _ _ _ _ _ _ _ _ _ _ El)
    as (new & logged & En & _ & _ & _ & _ & _ & _ & Hlg & Hincl & Hall).
  cbn [app] in En. subst new. exists logged. cbn [latest_data logs].
  now repeat split.
Qed.

(** ** Running without a classifier *)

Lemma predict_without_detector (er : EmotionRecognizer) (image : roi) :
  er_detector er = None -> predict er image = neutral.
Proof. intros H. unfold predict. now rewrite H. Qed.

Lemma quiet_process_frame (s : VisionSystem) :
  quiet s -> quiet (fst (process_frame s)).
Proof.
  intros (Hnone & Hwf & Hdata & Hlogs).
  destruct (process_frame_effect s Hwf)
    as (s' & r & E & (Hwf' & _ & _ & _ & Her & _) & _ & Hraise & _).
  rewrite E. cbn [fst]. unfold quiet. rewrite Her.
  split; [assumption|]. split; [assumption|].
  destruct r as [[fr res]|e].
  - destruct (process_frame_inv s s' fr res E) as (logged & Hl & Hlg & Hincl & Hall).
    assert (Hres : Forall is_sentinel res).
    { eapply Forall_impl; [|exact Hall]. intros r [H|(image & H)].
      - unfold is_sentinel. now injection H as -> ->.
      - rewrite predict_without_detector in H by assumption.
        unfold is_sentinel. now injection H as -> ->. }
    split; [now rewrite Hl|].
    rewrite Hlg. apply Forall_app. split; [assumption|].
    apply Forall_forall. intros e He. apply in_map_iff in He.
    destruct He as (r & <- & Hr). apply Hincl in Hr.
    rewrite Forall_forall in Hres. exact (Hres r Hr).
  - destruct (Hraise e eq_refl) as [-> ->]. now split.
Qed.

Lemma quiet_ticks (k : nat) (s : VisionSystem) : quiet s -> quiet (ticks k s).
Proof.
  revert s. induction k as [|k IH]; intros s H; [assumption|].
  cbn [ticks]. apply IH. now apply quiet_process_frame.
Qed.

Lemma quiet_serve_all (requests : list request) (s : VisionSystem) :
  quiet s -> quiet (serve_all s requests).
Proof.
  unfold serve_all. revert s.
  induction requests as [|r requests IH]; intros s H; cbn [fold_left];
    [assumption|].
  apply IH. destruct (serve_ticks s r) as [->|(k & ->)].
  - exact H.
  - now apply quiet_ticks.
Qed.

(** X11.  Constructing the system fails with [RuntimeError] exactly when
    MediaPipe cannot be set up, and with [OSError] exactly when MediaPipe is
    set up and the directory of the log file cannot be created; the emotion
    library never makes it fail.  A constructed system is fresh: default
    tracker, tick counter 0, nothing stored or logged.  When the emotion
    library is missing or its constructor raises, the system runs without
    classifier, and whatever requests it then serves, every stored result
    and every log line carries the sentinel label with confidence 0. *)
Theorem construction_and_missing_classifier
  (device : VideoCapture) (mediapipe : option (frame -> list detection))
  (m : fer_module) (mkdir_ok : bool) (camera_index0 emotion_every0 : Z) :
  let made :=
    new_VisionSystem device mediapipe m mkdir_ok camera_index0 emotion_every0 in
  (made = Raise RuntimeError <-> mediapipe = None) /\
  (made = Raise OSError <-> mediapipe <> None /\ mkdir_ok = false) /\
  (forall face_detection,
     mediapipe = Some face_detection -> mkdir_ok = true ->
     exists s0,
       made = Ok s0 /\
       cap s0 = device /\ detector s0 = face_detection /\
       camera_index s0 = camera_index0 /\ emotion_every s0 = emotion_every0 /\
       tracker s0 = init 15 80 /\ frame_count s0 = 0 /\
       latest_data s0 = [] /\ logs s0 = [] /\
       ((forall fer, m <> FerReady fer) ->
        forall requests,
          er_detector (emotion_recognizer (serve_all s0 requests)) = None /\
          Forall is_sentinel (latest_data (serve_all s0 requests)) /\
          Forall neutral_line (logs (serve_all s0 requests)))).
Proof.
  intros made. unfold made, new_VisionSystem, _init_mediapipe_detector.
  split; [|split].
  - destruct mediapipe, mkdir_ok; cbn [bind]; split; congruence.
  - destruct mediapipe, mkdir_ok; cbn [bind]; split;
      try congruence; try (intros [H1 H2]; congruence);
      intros _; split; congruence.
  - intros face_detection -> ->. cbn [bind]. eexists. split; [reflexivity|].
    cbn [cap detector camera_index emotion_every tracker frame_count
         latest_data logs].
    do 8 (split; [reflexivity|]).
    intros Hm requests.
    match goal with
    | |- context [serve_all ?s0 requests] =>
        assert (Hq : quiet s0)
    end.
    { unfold quiet. cbn [emotion_recognizer tracker latest_data logs].
      split; [|split; [apply wf_init|split; constructor]].
      destruct m as [| |fer]; [reflexivity|reflexivity|].
      exfalso. now apply (Hm fer). }
    destruct (quiet_serve_all requests _ Hq) as (H1 & _ & H2 & H3).
    now repeat split.
Qed.

(** ** After shutdown *)

Lemma process_frame_closed (s : VisionSystem) :
  is_open s = false -> process_frame s = (s, Raise RuntimeError).
Proof. intros H. unfold process_frame. now rewrite H. Qed.

Lemma serve_closed (s : VisionSystem) (r : request) :
  is_open s = false -> shutdown s = s -> serve s r = s.
Proof.
  intros Hc Hs. destruct r as [| | |pulls|]; cbn [serve].
  - now rewrite process_frame_closed.
  - unfold get_latest_data. rewrite process_frame_closed by assumption.
    now destruct (latest_data s).
  - unfold api_frame. now rewrite Hc.
  - unfold video_stream. now rewrite Hc.
  - exact Hs.
Qed.

(** X12.  [shutdown] closes the camera and touches nothing else.  From then
    on a tick raises [RuntimeError] without reading a frame, the snapshot
    accessor returns the stored list, the snapshot endpoint answers with
    status 500, a stream is refused, and no request whatsoever changes the
    system any more. *)
Theorem after_shutdown_nothing_runs (s : VisionSystem) :
  is_open (shutdown s) = false /\
  tracker (shutdown s) = tracker s /\
  latest_data (shutdown s) = latest_data s /\
  frame_count (shutdown s) = frame_count s /\
  logs (shutdown s) = logs s /\
  pending (cap (shutdown s)) = pending (cap s) /\
  process_frame (shutdown s) = (shutdown s, Raise RuntimeError) /\
  get_latest_data (shutdown s) = (shutdown s, Ok (latest_data s)) /\
  api_frame (shutdown s) = (shutdown s, Ok Http500) /\
  (forall pulls, video_stream pulls (shutdown s) = (shutdown s, StreamRefused)) /\
  (forall requests, serve_all (shutdown s) requests = shutdown s).
Proof.
  assert (Hc : is_open (shutdown s) = false) by reflexivity.
  assert (Hs : shutdown (shutdown s) = shutdown s) by reflexivity.
  do 6 (split; [reflexivity|]).
  split; [now apply process_frame_closed|].
  split.
  { unfold get_latest_data. rewrite process_frame_closed by assumption.
    cbn [latest_data shutdown with_cap]. now destruct (latest_data s). }
  split; [unfold api_frame; now rewrite Hc|].
  split; [intros pulls; unfold video_stream; now rewrite Hc|].
  intros requests. unfold serve_all.
  induction requests as [|r requests IH]; cbn [fold_left]; [reflexivity|].
  now rewrite serve_closed.
Qed.

(** ** The snapshot endpoint *)

Lemma process_frame_outcome (s : VisionSystem) :
  wf (tracker s) -> emotion_every s <> 0 ->
  wf (tracker (fst (process_frame s))) /\
  emotion_every (fst (process_frame s)) = emotion_every s /\
  is_open (fst (process_frame s)) = is_open s /\
  ((camera_ok s /\
    exists fr, process_frame s
               = (fst (process_frame s),
                  Ok (fr, latest_data (fst (process_frame s))))) \/
   (~ camera_ok s /\
    process_frame s = (fst (process_frame s), Raise RuntimeError) /\
    latest_data (fst (process_frame s)) = latest_data s)).
Proof.
  intros Hwf Hev.
  destruct (process_frame_effect s Hwf)
    as (s' & r & E & (Hwf' & _ & Hev' & _) & Ho & _).
  rewrite E. cbn [fst]. do 3 (split; [assumption|]).
  destruct (camera_ok_dec s) as [Hcam|Hno].
  - left. split; [assumption|].
    destruct Hcam as (Hopen & fr0 & cap' & Hread).
    destruct (process_frame_ok s fr0 cap' Hwf Hev Hopen Hread)
      as (s1 & fr1 & results & Ep & _ & _ & _ & _ & _ & _ & _ & Hl & _).
    rewrite Ep in E. injection E as <- <-. exists fr1. now rewrite Hl.
  - right. split; [assumption|].
    destruct (process_frame_source_failure s Hno) as (s1 & Ep & _ & _ & Hl & _).
    rewrite Ep in E. injection E as <- <-. now split.
Qed.

(** The snapshot endpoint on a file system that accepts every line. *)
Lemma api_frame_cases (s : VisionSystem) :
  wf (tracker s) -> emotion_every s <> 0 ->
  exists s' resp,
    api_frame s = (s', Ok resp) /\
    (is_open s = false -> s' = s /\ resp = Http500) /\
    (is_open s = true -> latest_data s <> [] ->
       s' = s /\ resp = Faces (latest_data s)) /\
    (is_open s = true -> latest_data s = [] ->
     latest_data (ticks 1 s) <> [] ->
       s' = ticks 1 s /\ resp = Faces (latest_data (ticks 1 s))) /\
    (is_open s = true -> latest_data s = [] ->
     latest_data (ticks 1 s) = [] ->
       s' = ticks 2 s /\
       ((camera_ok (ticks 1 s) /\ resp = Faces (latest_data (ticks 2 s))) \/
        (~ camera_ok (ticks 1 s) /\ resp = Http500))).
Proof.
  intros Hwf Hev. unfold api_frame.
  destruct (is_open s) eqn:Hopen; cbn [negb].
  2:{ exists s, Http500. split; [reflexivity|]. split; [now split|].
      repeat split; discriminate. }
  unfold get_latest_data.
  destruct (latest_data s) as [|d0 data0] eqn:El.
  2:{ exists s, (Faces (d0 :: data0)). split; [reflexivity|].
      split; [discriminate|]. split; [now split|]. split; discriminate. }
  cbn [ticks].
  destruct (process_frame_outcome s Hwf Hev) as (Hwf1 & Hev1 & _ & H1).
  set (s1 := fst (process_frame s)) in *.
  assert (Hev1' : emotion_every s1 <> 0) by congruence.
  destruct (process_frame_outcome s1 Hwf1 Hev1') as (_ & _ & _ & H2).
  set (s2 := fst (process_frame s1)) in *.
  assert (Hfirst : (let '(s', r) := process_frame s in
                    match r with
                    | Ok _ => (s', Ok (latest_data s'))
                    | Raise RuntimeError => (s', Ok (latest_data s'))
                    | Raise e => (s', Raise e)
                    end) = (s1, Ok (latest_data s1))).
  { destruct H1 as [(_ & fr & ->)|(_ & -> & _)]; reflexivity. }
  rewrite Hfirst.
  destruct (latest_data s1) as [|d1 data1] eqn:El1.
  - destruct H2 as [(Hcam & fr & E2)|(Hno & E2 & _)]; rewrite E2.
    + exists s2, (Faces (latest_data s2)). split; [reflexivity|].
      split; [discriminate|]. split; [congruence|]. split; [congruence|].
      intros _ _ _. split; [reflexivity|]. left. now split.
    + exists s2, Http500. split; [reflexivity|].
      split; [discriminate|]. split; [congruence|]. split; [congruence|].
      intros _ _ _. split; [reflexivity|]. right. now split.
  - exists s1, (Faces (d1 :: data1)). split; [reflexivity|].
    split; [discriminate|]. split; [congruence|].
    split; [intros _ _ _; now split|]. intros _ _ H. discriminate H.
Qed.

(** ** The streaming endpoint *)



(** ** The distance matrix *)

Lemma norm2_zero (p q : Z * Z) : norm2 p q = 0 <-> p = q.
Proof.
  destruct p as [px py], q as [qx qy]. unfold norm2. cbn [fst snd]. split.
  - intros H.
    pose proof (Z.square_nonneg (px - qx)) as Hx.
    pose proof (Z.square_nonneg (py - qy)) as Hy.
    assert (Ex : (px - qx) * (px - qx) = 0) by lia.
    assert (Ey : (py - qy) * (py - qy) = 0) by lia.
    apply Z.mul_eq_0 in Ex, Ey. f_equal; lia.
  - intros H. injection H as -> ->. lia.
Qed.

(** X5.  [_pairwise_distances a b] has one row per point of [a] and in every
    row one entry per point of [b]; the entry of row [r] and column [c] is
    the squared distance between the two points, which is never negative,
    is zero exactly when the points coincide, and is the entry of row [c] and
    column [r] of the matrix taken the other way round. *)
Theorem pairwise_distances_shape_and_entries (a b : list (Z * Z)) :
  length (_pairwise_distances a b) = length a /\
  (forall r, (r < length a)%nat ->
     length (nth r (_pairwise_distances a b) []) = length b) /\
  (forall r c, (r < length a)%nat -> (c < length b)%nat ->
     let d := nth c (nth r (_pairwise_distances a b) []) 0 in
     d = norm2 (nth r a (0, 0)) (nth c b (0, 0)) /\
     0 <= d /\
     (d = 0 <-> nth r a (0, 0) = nth c b (0, 0)) /\
     nth r (nth c (_pairwise_distances b a) []) 0 = d).
Proof.
  assert (Hentry : forall (u v : list (Z * Z)) r c,
            (r < length u)%nat -> (c < length v)%nat ->
            nth c (nth r (_pairwise_distances u v) []) 0
            = norm2 (nth r u (0, 0)) (nth c v (0, 0))).
  { intros u v r c Hr Hc. unfold _pairwise_distances.
    rewrite nth_map_lt with (a := (0, 0)) by assumption.
    now rewrite nth_map_lt with (a := (0, 0)) by assumption. }
  split; [unfold _pairwise_distances; apply length_map|]. split.
  - intros r Hr. unfold _pairwise_distances.
    rewrite nth_map_lt with (a := (0, 0)) by assumption. apply length_map.
  - intros r c Hr Hc d. unfold d. rewrite !Hentry by assumption.
    split; [reflexivity|]. split.
    { unfold norm2.
      pose proof (Z.square_nonneg (fst (nth r a (0, 0)) - fst (nth c b (0, 0)))).
      pose proof (Z.square_nonneg (snd (nth r a (0, 0)) - snd (nth c b (0, 0)))).
      lia. }
    split; [apply norm2_zero|]. unfold norm2. ring.
Qed.

(** * The pipeline on a file system that can refuse a line *)

(** ** The loop over the tracked objects *)

Lemma refuses_same_image (writable : Z -> nat -> bool) (count every : Z)
  (fr fr' : frame) (item : nat * rect) :
  same_image fr' fr ->
  refuses writable count every fr' item = refuses writable count every fr item.
Proof. intros H. unfold refuses. now rewrite (has_crop_same_image fr' fr). Qed.

Lemma track_step_same_image (er : EmotionRecognizer) (count every : Z)
  (acc acc' : frame * list face_result * list log_entry) (item : nat * rect) :
  track_step er count every acc item = Ok acc' ->
  same_image (fst (fst acc')) (fst (fst acc)).
Proof.
  destruct acc as [[fr res] lg], item as [pid b]. intros E.
  destruct (Z.eq_dec every 0) as [->|Hev].
  - destruct b as [[[x y] w] h]. discriminate E.
  - destruct (track_step_spec er count every fr res lg pid b Hev)
      as (r & fr' & E' & _ & _ & Himg & _).
    rewrite E' in E. injection E as <-. exact Himg.
Qed.

(** A line that is not refused: the step is the one of [track_step]. *)
Lemma track_step_io_accepted (writable : Z -> nat -> bool)
  (er : EmotionRecognizer) (count every : Z)
  (fr : frame) (res : list face_result) (lg : list log_entry)
  (item : nat * rect) :
  refuses writable count every fr item = false ->
  track_step_io writable er count every (fr, res, lg) item
  = track_step er count every (fr, res, lg) item.
Proof.
  destruct item as [pid [[[x y] w] h]].
  unfold refuses, has_crop, clamp, crop_box, track_step_io, track_step.
  cbn [fst snd].
  destruct (every =? 0); [reflexivity|].
  destruct (count mod every =? 0); cbn [andb]; [|reflexivity].
  destruct (roi_size (crop fr (Z.max x 0) (Z.max y 0) (Z.max w 1) (Z.max h 1)) >? 0);
    cbn [andb]; [|reflexivity].
  destruct (predict er (crop fr (Z.max x 0) (Z.max y 0) (Z.max w 1) (Z.max h 1)))
    as [em conf].
  destruct (writable count pid); [reflexivity|discriminate].
Qed.

(** A refused line ends the step with [OSError]. *)
Lemma track_step_io_refused (writable : Z -> nat -> bool)
  (er : EmotionRecognizer) (count every : Z)
  (fr : frame) (res : list face_result) (lg : list log_entry)
  (item : nat * rect) :
  every <> 0 ->
  refuses writable count every fr item = true ->
  track_step_io writable er count every (fr, res, lg) item = Raise OSError.
Proof.
  intros Hev. apply Z.eqb_neq in Hev.
  destruct item as [pid [[[x y] w] h]].
  unfold refuses, has_crop, clamp, crop_box, track_step_io.
  cbn [fst snd]. rewrite Hev. intros H.
  apply andb_true_iff in H. destruct H as [H Hw].
  apply andb_true_iff in H. destruct H as [Hs Hc].
  rewrite Hs, Hc.
  destruct (predict er (crop fr (Z.max x 0) (Z.max y 0) (Z.max w 1) (Z.max h 1)))
    as [em conf].
  apply negb_true_iff in Hw. now rewrite Hw.
Qed.

(** While no line is refused the loop is the one of [process_frame]. *)
Lemma track_loop_io_accepted (writable : Z -> nat -> bool)
  (er : EmotionRecognizer) (count every : Z) (fr0 : frame)
  (items : list (nat * rect)) :
  (forall item, In item items -> refuses writable count every fr0 item = false) ->
  forall acc out,
    same_image (fst (fst acc)) fr0 ->
    for_each (track_step er count every) items acc = Ok out ->
    track_loop_io writable er count every items acc = (snd out, Ok (fst out)).
Proof.
  induction items as [|item items IH]; intros Hacc acc out Himg E.
  - cbn [for_each] in E. injection E as <-. now destruct acc as [[fr res] lg].
  - cbn [for_each] in E. cbn [track_loop_io].
    destruct (track_step er count every acc item) as [acc'|e] eqn:E1;
      [|discriminate E].
    cbn [bind] in E.
    pose proof (track_step_same_image _ _ _ _ _ _ E1) as Himg1.
    destruct acc as [[fr res] lg]. cbn [fst] in Himg, Himg1.
    rewrite track_step_io_accepted, E1.
    + apply IH; [intros i Hi; apply Hacc; now right| |assumption].
      destruct Himg as (A & B & C), Himg1 as (A1 & B1 & C1).
      repeat split; congruence.
    + rewrite (refuses_same_image _ _ _ fr0 fr) by assumption.
      apply Hacc. now left.
Qed.

(** The first refused line ends the loop with [OSError]; the lines written
    for the objects before it stay in the file. *)
Lemma track_loop_io_refused (writable : Z -> nat -> bool)
  (er : EmotionRecognizer) (count every : Z) (fr0 : frame)
  (before : list (nat * rect)) (item : nat * rect) (after : list (nat * rect)) :
  every <> 0 ->
  (forall i, In i before -> refuses writable count every fr0 i = false) ->
  refuses writable count every fr0 item = true ->
  forall acc out,
    same_image (fst (fst acc)) fr0 ->
    for_each (track_step er count every) before acc = Ok out ->
    track_loop_io writable er count every (before ++ item :: after) acc
    = (snd out, Raise OSError).
Proof.
  intros Hev. induction before as [|b before IH]; intros Hacc Hit acc out Himg E.
  - cbn [for_each] in E. injection E as <-. cbn [app track_loop_io].
    destruct acc as [[fr res] lg]. cbn [fst] in Himg.
    rewrite track_step_io_refused; [reflexivity|assumption|].
    now rewrite (refuses_same_image _ _ _ fr0 fr).
  - cbn [for_each] in E. cbn [app track_loop_io].
    destruct (track_step er count every acc b) as [acc'|e] eqn:E1;
      [|discriminate E].
    cbn [bind] in E.
    pose proof (track_step_same_image _ _ _ _ _ _ E1) as Himg1.
    destruct acc as [[fr res] lg]. cbn [fst] in Himg, Himg1.
    rewrite track_step_io_accepted, E1.
    + apply IH; [intros i Hi; apply Hacc; now right|assumption| |assumption].
      destruct Himg as (A & B & C), Himg1 as (A1 & B1 & C1).
      repeat split; congruence.
    + rewrite (refuses_same_image _ _ _ fr0 fr) by assumption.
      apply Hacc. now left.
Qed.

(** With a sampling period of 0 the first object ends the loop, before any
    line is due. *)
Lemma track_loop_io_zero_period (writable : Z -> nat -> bool)
  (er : EmotionRecognizer) (count : Z) (items : list (nat * rect))
  (acc : frame * list face_result * list log_entry) :
  track_loop_io writable er count 0 items acc
  = (snd acc, match items with
              | [] => Ok (fst acc)
              | _ :: _ => Raise ZeroDivisionError
              end).
Proof.
  destruct acc as [[fr res] lg]. destruct items as [|[pid [[[x y] w] h]] items];
    reflexivity.
Qed.

(** Either no line of the tick is refused, or there is a first one. *)
Lemma first_refused (writable : Z -> nat -> bool) (count every : Z) (fr0 : frame)
  (items : list (nat * rect)) :
  (forall item, In item items -> refuses writable count every fr0 item = false) \/
  exists before item after,
    items = before ++ item :: after /\
    (forall i, In i before -> refuses writable count every fr0 i = false) /\
    refuses writable count every fr0 item = true.
Proof.
  induction items as [|a items IH]; [left; intros item []|].
  destruct (refuses writable count every fr0 a) eqn:Ea.
  - right. exists [], a, items. split; [reflexivity|]. split; [intros i []|assumption].
  - destruct IH as [IH|(before & item & after & -> & Hb & Hi)].
    + left. intros item [<-|H]; [assumption|now apply IH].
    + right. exists (a :: before), item, after. split; [reflexivity|].
      split; [|assumption]. intros i [<-|H]; [assumption|now apply Hb].
Qed.

(** ** One tick *)

Lemma same_image_refl (fr : frame) : same_image fr fr.
Proof. repeat split. Qed.

(** A tick on which no due line is refused is the tick of [process_frame]. *)
Lemma process_frame_io_unrefused (writable : Z -> nat -> bool) (s : VisionSystem) :
  (emotion_every s <> 0 -> is_open s = true ->
   forall fr0 cap' tracked,
     cap_read (cap s) = ((true, Some fr0), cap') ->
     update (tracker s) (map _bbox_from_detection (detector s fr0)) = Ok tracked ->
     forall item, In item (objects tracked) ->
       refuses writable (frame_count s + 1) (emotion_every s) fr0 item = false) ->
  process_frame_io writable s = process_frame s.
Proof.
  intros H. unfold process_frame_io, process_frame.
  destruct (is_open s) eqn:Hopen; cbn [negb]; [|reflexivity].
  destruct (cap_read (cap s)) as [[ret fr] cap'] eqn:Hread.
  destruct ret; [|reflexivity]. destruct fr as [fr0|]; [|reflexivity].
  destruct (update (tracker s) (map _bbox_from_detection (detector s fr0)))
    as [tracked|e] eqn:Eu; [|reflexivity].
  destruct (Z.eq_dec (emotion_every s) 0) as [E0|Hev].
  - rewrite E0, track_loop_io_zero_period. cbn [snd fst].
    destruct (objects tracked) as [|i items]; [reflexivity|].
    now rewrite track_loop_zero_period by discriminate.
  - destruct (track_loop_spec (emotion_recognizer s) (frame_count s + 1)
                (emotion_every s) (objects tracked) Hev fr0 [] (logs s))
      as (fr' & new & El & _).
    rewrite El.
    rewrite (track_loop_io_accepted writable _ _ _ fr0 _
               (H Hev eq_refl fr0 cap' tracked eq_refl Eu) (fr0, [], logs s) _
               (same_image_refl fr0) El).
    reflexivity.
Qed.

Lemma refuses_always_writable (count every : Z) (fr : frame) (item : nat * rect) :
  refuses always_writable count every fr item = false.
Proof. unfold refuses, always_writable. cbn [negb]. apply andb_false_r. Qed.

(** On a file system that accepts every line the two descriptions agree. *)
Lemma process_frame_io_always_writable (s : VisionSystem) :
  process_frame_io always_writable s = process_frame s.
Proof.
  apply process_frame_io_unrefused. intros. apply refuses_always_writable.
Qed.

Lemma get_latest_data_io_always_writable (s : VisionSystem) :
  get_latest_data_io always_writable s = get_latest_data s.
Proof.
  unfold get_latest_data_io, get_latest_data.
  now rewrite process_frame_io_always_writable.
Qed.

Lemma api_frame_io_always_writable (s : VisionSystem) :
  api_frame_io always_writable s = api_frame s.
Proof.
  unfold api_frame_io, api_frame.
  rewrite get_latest_data_io_always_writable.
  destruct (get_latest_data s) as [s1 r].
  now rewrite process_frame_io_always_writable.
Qed.

(** A refused line: the tick raises [OSError] after the tracker update and
    the increment of the tick counter; the stored results stay, and the log
    keeps what was written before the refusal. *)
Lemma process_frame_io_refused (writable : Z -> nat -> bool) (s : VisionSystem)
  (fr0 : frame) (cap' : VideoCapture) (tracked : CentroidTracker)
  (item : nat * rect) :
  emotion_every s <> 0 ->
  is_open s = true -> cap_read (cap s) = ((true, Some fr0), cap') ->
  update (tracker s) (map _bbox_from_detection (detector s fr0)) = Ok tracked ->
  In item (objects tracked) ->
  refuses writable (frame_count s + 1) (emotion_every s) fr0 item = true ->
  exists s' written,
    process_frame_io writable s = (s', Raise OSError) /\
    tracker s' = tracked /\
    cap s' = cap' /\
    frame_count s' = frame_count s + 1 /\
    latest_data s' = latest_data s /\
    logs s' = logs s ++ written /\
    emotion_every s' = emotion_every s.
Proof.
  intros Hev Hopen Hread Eu Hin Href.
  destruct (first_refused writable (frame_count s + 1) (emotion_every s) fr0
              (objects tracked))
    as [Hnone|(before & it & after & Eit & Hb & Hit)].
  { rewrite (Hnone item Hin) in Href. discriminate. }
  destruct (track_loop_spec (emotion_recognizer s) (frame_count s + 1)
              (emotion_every s) before Hev fr0 [] (logs s))
    as (fr' & new & El & _).
  eexists _, _. split.
  { unfold process_frame_io. rewrite Hopen. cbn [negb]. rewrite Hread, Eu, Eit.
    rewrite (track_loop_io_refused writable _ _ _ fr0 before it after Hev Hb Hit
               (fr0, [], logs s) _ (same_image_refl fr0) El).
    cbn [snd]. reflexivity. }
  cbn [tracker cap frame_count latest_data logs emotion_every].
  repeat split; reflexivity.
Qed.

(** The outcomes of a tick that gets a frame. *)
Lemma process_frame_io_cases (writable : Z -> nat -> bool) (s : VisionSystem)
  (fr0 : frame) (cap' : VideoCapture) :
  wf (tracker s) ->
  is_open s = true -> cap_read (cap s) = ((true, Some fr0), cap') ->
  exists tracked s',
    update (tracker s) (map _bbox_from_detection (detector s fr0)) = Ok tracked /\
    wf tracked /\
    tracker s' = tracked /\
    emotion_every s' = emotion_every s /\
    is_open s' = true /\
    ((emotion_every s = 0 /\ objects tracked <> [] /\
      process_frame_io writable s = (s', Raise ZeroDivisionError)) \/
     (emotion_every s <> 0 /\
      (exists item, In item (objects tracked) /\
         refuses writable (frame_count s + 1) (emotion_every s) fr0 item = true) /\
      process_frame_io writable s = (s', Raise OSError)) \/
     ((emotion_every s = 0 -> objects tracked = []) /\
      (forall item, In item (objects tracked) ->
         refuses writable (frame_count s + 1) (emotion_every s) fr0 item = false) /\
      exists fr1 results,
        process_frame_io writable s = (s', Ok (fr1, results)) /\
        latest_data s' = results /\
        map person_id results = keys (objects tracked) /\
        map bbox results = map clamp (values (objects tracked)) /\
        Forall (fun r => is_sentinel r \/ sampled (emotion_recognizer s) fr1 r)
               results)).
Proof.
  intros Hwf Hopen Hread.
  assert (Hcap : opened cap' = true).
  { unfold is_open in Hopen. unfold cap_read in Hread.
    destruct (pending (cap s)); [discriminate|].
    injection Hread as _ <-. exact Hopen. }
  destruct (update_total (tracker s) (map _bbox_from_detection (detector s fr0)) Hwf)
    as (tracked & Eu & Hwf' & _).
  exists tracked.
  destruct (Z.eq_dec (emotion_every s) 0) as [E0|Hev].
  - (* a sampling period of 0 *)
    assert (Ep : process_frame_io writable s = process_frame s)
      by (apply process_frame_io_unrefused; intros H; contradiction).
    unfold process_frame in Ep. rewrite Hopen in Ep. cbn [negb] in Ep.
    rewrite Hread, Eu in Ep.
    destruct (objects tracked) as [|i items] eqn:Eo.
    + cbn [for_each] in Ep.
      match type of Ep with _ = (?S, _) => exists S end.
      cbn [tracker emotion_every latest_data].
      split; [assumption|]. split; [assumption|]. split; [reflexivity|].
      split; [reflexivity|]. split; [exact Hcap|].
      right; right. split; [reflexivity|]. split; [intros item []|].
      exists fr0, []. split; [exact Ep|].
      repeat split; try reflexivity. constructor.
    + rewrite E0, track_loop_zero_period in Ep by discriminate.
      match type of Ep with _ = (?S, _) => exists S end.
      cbn [tracker emotion_every].
      split; [assumption|]. split; [assumption|]. split; [reflexivity|].
      split; [now rewrite E0|]. split; [exact Hcap|].
      left. split; [assumption|]. split; [discriminate|exact Ep].
  - destruct (first_refused writable (frame_count s + 1) (emotion_every s) fr0
                (objects tracked))
      as [Hnone|(before & it & after & Eit & Hb & Hit)].
    + (* every due line is written *)
      assert (Ep : process_frame_io writable s = process_frame s).
      { apply process_frame_io_unrefused. intros _ _ fr0' cap'' tracked' Hr' Eu'.
        rewrite Hread in Hr'. injection Hr' as <- <-.
        rewrite Eu in Eu'. injection Eu' as <-. exact Hnone. }
      destruct (process_frame_ok s fr0 cap' Hwf Hev Hopen Hread)
        as (s' & fr1 & results & Eq & Eu' & _ & Hev' & _ & _ & Hc' & _ & Hl & _
            & Hids & Hboxes & _ & Hall).
      rewrite Eu in Eu'. injection Eu' as Et.
      exists s'. split; [assumption|]. split; [assumption|].
      split; [now symmetry|]. split; [assumption|].
      split; [unfold is_open; now rewrite Hc'|].
      right; right. split; [intros H; contradiction|]. split; [assumption|].
      exists fr1, results. rewrite Ep. split; [assumption|]. split; [assumption|].
      rewrite Et. split; [assumption|]. split; [assumption|].
      eapply Forall_impl; [|exact Hall]. intros r Hr. cbn beta in Hr.
      destruct ((frame_count s' mod emotion_every s =? 0) && has_crop fr1 (bbox r));
        [now right|now left].
    + (* a due line is refused *)
      assert (Hin : In it (objects tracked))
        by (rewrite Eit; apply in_or_app; right; now left).
      destruct (process_frame_io_refused writable s fr0 cap' tracked it
                  Hev Hopen Hread Eu Hin Hit)
        as (s' & written & Eq & Et & Hc' & _ & _ & _ & Hev').
      exists s'. split; [assumption|]. split; [assumption|].
      split; [assumption|]. split; [assumption|].
      split; [unfold is_open; now rewrite Hc'|].
      right; left. split; [assumption|]. split; [|assumption].
      now exists it.
Qed.

Lemma process_frame_io_source_failure (writable : Z -> nat -> bool)
  (s : VisionSystem) :
  ~ camera_ok s -> process_frame_io writable s = process_frame s.
Proof.
  intros Hno. apply process_frame_io_unrefused.
  intros _ Hopen fr0 cap' tracked Hread. exfalso. apply Hno.
  split; [assumption|]. now exists fr0, cap'.
Qed.

(** Whatever a tick does, the tracker's dictionaries agree afterwards, the
    sampling period is kept, and an exception is one of three. *)
Lemma process_frame_io_inv (writable : Z -> nat -> bool) (s s' : VisionSystem)
  (r : result (frame * list face_result)) :
  wf (tracker s) ->
  process_frame_io writable s = (s', r) ->
  wf (tracker s') /\
  emotion_every s' = emotion_every s /\
  is_open s' = is_open s /\
  (forall fr res, r = Ok (fr, res) -> latest_data s' = res) /\
  (forall e, r = Raise e ->
     latest_data s' = latest_data s /\
     ((e = RuntimeError /\ ~ camera_ok s) \/
      (e = ZeroDivisionError /\ emotion_every s = 0 /\ camera_ok s) \/
      (e = OSError /\ emotion_every s <> 0 /\ camera_ok s))).
Proof.
  intros Hwf E. destruct (camera_ok_dec s) as [Hcam|Hno].
  - pose proof Hcam as (Hopen & fr0 & cap' & Hread).
    destruct (process_frame_io_cases writable s fr0 cap' Hwf Hopen Hread)
      as (tracked & s1 & Eu & Hwf1 & Et & Hev1 & Ho1 & Hcases).
    assert (Hs : forall r1, process_frame_io writable s = (s1, r1) ->
              s' = s1 /\ r = r1) by (intros r1 E1; split; congruence).
    destruct Hcases as [(E0 & Hne & E1)|[(Hev & Hex & E1)|(_ & _ & fr1 & results & E1 & Hl & _)]];
      destruct (Hs _ E1) as [-> ->];
      (split; [now rewrite Et|]); (split; [assumption|]);
      (split; [congruence|]).
    + split; [discriminate|]. intros e He. injection He as <-.
      split; [|right; left; split; [reflexivity|split; assumption]].
      clear - E1 Hopen Hread Eu Hne E0. unfold process_frame_io in E1.
      rewrite Hopen in E1. cbn [negb] in E1. rewrite Hread, Eu in E1.
      destruct (track_loop_io _ _ _ _ _ _) as [lg [[fr res]|e]];
        now injection E1 as <-.
    + split; [discriminate|]. intros e He. injection He as <-.
      split; [|right; right; split; [reflexivity|split; assumption]].
      clear - E1 Hopen Hread Eu. unfold process_frame_io in E1.
      rewrite Hopen in E1. cbn [negb] in E1. rewrite Hread, Eu in E1.
      destruct (track_loop_io _ _ _ _ _ _) as [lg [[fr res]|e]];
        [discriminate|]. now injection E1 as <-.
    + split; [|discriminate]. intros fr res He. injection He as _ <-. exact Hl.
  - rewrite (process_frame_io_source_failure writable s Hno) in E.
    destruct (process_frame_source_failure s Hno) as (s1 & E1 & Ht & _ & Hl & _).
    rewrite E1 in E. injection E as <- <-.
    split; [now rewrite Ht|].
    assert (Hcfg : emotion_every s1 = emotion_every s /\ is_open s1 = is_open s).
    { clear - E1. unfold process_frame in E1.
      destruct (is_open s) eqn:Hopen; cbn [negb] in E1.
      - destruct (cap_read (cap s)) as [[ret fr] cap'] eqn:Hread.
        assert (Hc : opened cap' = opened (cap s)).
        { unfold cap_read in Hread. destruct (pending (cap s)).
          - now injection Hread as _ _ <-.
          - now injection Hread as _ <-. }
        destruct ret; [destruct fr as [fr|]|].
        + destruct (update _ _) as [tracked|e].
          * destruct (for_each _ _ _) as [[[fr1 res] lg]|e]; [discriminate|].
            apply (f_equal fst) in E1. cbn [fst] in E1. rewrite <- E1.
            split; [reflexivity|]. unfold is_open in *. cbn. congruence.
          * apply (f_equal fst) in E1. cbn [fst] in E1. rewrite <- E1.
            split; [reflexivity|]. unfold is_open in *. cbn. congruence.
        + apply (f_equal fst) in E1. cbn [fst] in E1. rewrite <- E1.
          split; [reflexivity|]. unfold is_open in *. cbn. congruence.
        + apply (f_equal fst) in E1. cbn [fst] in E1. rewrite <- E1.
          split; [reflexivity|]. unfold is_open in *. cbn. congruence.
      - apply (f_equal fst) in E1. cbn [fst] in E1. rewrite <- E1. now split. }
    destruct Hcfg as [H1 H2]. split; [assumption|]. split; [assumption|].
    split; [discriminate|]. intros e He. injection He as <-.
    split; [assumption|]. left. now split.
Qed.

Lemma refuses_accepting (writable : Z -> nat -> bool) (count every : Z)
  (fr : frame) (item : nat * rect) :
  (forall c pid, writable c pid = true) ->
  refuses writable count every fr item = false.
Proof. intros H. unfold refuses. rewrite H. cbn [negb]. apply andb_false_r. Qed.

Lemma process_frame_io_accepting (writable : Z -> nat -> bool) (s : VisionSystem) :
  (forall c pid, writable c pid = true) ->
  process_frame_io writable s = process_frame s.
Proof.
  intros H. apply process_frame_io_unrefused. intros. now apply refuses_accepting.
Qed.

Lemma get_latest_data_io_accepting (writable : Z -> nat -> bool) (s : VisionSystem) :
  (forall c pid, writable c pid = true) ->
  get_latest_data_io writable s = get_latest_data s.
Proof.
  intros H. unfold get_latest_data_io, get_latest_data.
  now rewrite process_frame_io_accepting.
Qed.

Lemma api_frame_io_accepting (writable : Z -> nat -> bool) (s : VisionSystem) :
  (forall c pid, writable c pid = true) ->
  api_frame_io writable s = api_frame s.
Proof.
  intros H. unfold api_frame_io, api_frame.
  rewrite get_latest_data_io_accepting by assumption.
  destruct (get_latest_data s) as [s1 r].
  now rewrite process_frame_io_accepting.
Qed.

(** ** The snapshot accessor *)

Lemma get_latest_data_io_inv (writable : Z -> nat -> bool) (s s' : VisionSystem)
  (r : result (list face_result)) :
  wf (tracker s) ->
  get_latest_data_io writable s = (s', r) ->
  wf (tracker s') /\
  emotion_every s' = emotion_every s /\
  is_open s' = is_open s /\
  (forall data, r = Ok data -> data = latest_data s') /\
  (forall e, r = Raise e ->
     latest_data s = [] /\ camera_ok s /\
     process_frame_io writable s = (s', Raise e) /\
     ((e = ZeroDivisionError /\ emotion_every s = 0) \/
      (e = OSError /\ emotion_every s <> 0))).
Proof.
  intros Hwf. unfold get_latest_data_io.
  destruct (latest_data s) as [|d data] eqn:El.
  - destruct (process_frame_io writable s) as [s1 r1] eqn:E1.
    destruct (process_frame_io_inv writable s s1 r1 Hwf E1)
      as (Hwf1 & Hev1 & Ho1 & _ & Hr).
    destruct r1 as [[fr res]|e].
    + intros E. injection E as <- <-.
      split; [assumption|]. split; [assumption|]. split; [assumption|].
      split; [|discriminate]. intros data H. now injection H as <-.
    + destruct (Hr e eq_refl) as (_ & [(-> & Hno)|[(-> & E0 & Hcam)|(-> & Hev & Hcam)]]);
        intros E; injection E as <- <-;
        (split; [assumption|]); (split; [assumption|]); (split; [assumption|]).
      * split; [|discriminate]. intros data H. now injection H as <-.
      * split; [discriminate|]. intros e He. injection He as <-.
        split; [reflexivity|]. split; [assumption|]. split; [reflexivity|].
        left. now split.
      * split; [discriminate|]. intros e He. injection He as <-.
        split; [reflexivity|]. split; [assumption|]. split; [reflexivity|].
        right. now split.
  - intros E. injection E as <- <-.
    split; [assumption|]. split; [reflexivity|]. split; [reflexivity|].
    split; [|discriminate]. intros data0 H. injection H as <-. now rewrite El.
Qed.

(** C10, as amended.  [get_latest_data] returns the stored list without
    running anything when the list is not empty.  When it is empty the
    warm-up tick runs: if it fails on the frame source (camera not open, or
    no frame read) the [RuntimeError] is caught and the list, still empty, is
    returned, with the tracker, the tick counter and the log as they were; if
    it returns, its results are stored and returned.  The call raises exactly
    when the list is empty, the camera delivers a frame and the warm-up tick
    raises one of the two exceptions that are not caught:
    [ZeroDivisionError], with a sampling period of 0, or [OSError], when a
    log line is refused.  With a non-zero sampling period and a file system
    that accepts every line the call never raises. *)
Theorem get_latest_data_catches_source_failures
  (writable : Z -> nat -> bool) (s : VisionSystem) :
  wf (tracker s) ->
  (latest_data s <> [] ->
     get_latest_data_io writable s = (s, Ok (latest_data s))) /\
  (latest_data s = [] -> ~ camera_ok s ->
     exists s',
       get_latest_data_io writable s = (s', Ok []) /\
       latest_data s' = [] /\
       tracker s' = tracker s /\
       frame_count s' = frame_count s /\
       logs s' = logs s) /\
  (latest_data s = [] ->
     forall s' fr results,
       process_frame_io writable s = (s', Ok (fr, results)) ->
       get_latest_data_io writable s = (s', Ok results) /\
       latest_data s' = results) /\
  (forall s' e,
     get_latest_data_io writable s = (s', Raise e) <->
     latest_data s = [] /\ camera_ok s /\
     process_frame_io writable s = (s', Raise e) /\
     ((e = ZeroDivisionError /\ emotion_every s = 0) \/
      (e = OSError /\ emotion_every s <> 0))) /\
  (emotion_every s <> 0 -> (forall c pid, writable c pid = true) ->
     exists s', get_latest_data_io writable s = (s', Ok (latest_data s'))).
Proof.
  intros Hwf. split; [|split; [|split; [|split]]].
  - intros Hne. unfold get_latest_data_io.
    destruct (latest_data s); [congruence|reflexivity].
  - intros El Hno. unfold get_latest_data_io. rewrite El.
    rewrite (process_frame_io_source_failure writable s Hno).
    destruct (process_frame_source_failure s Hno) as (s' & E & Ht & Hf & Hd & Hl).
    rewrite E. exists s'. rewrite Hd, El. repeat split; assumption.
  - intros El s' fr results E.
    destruct (process_frame_io_inv writable s s' _ Hwf E) as (_ & _ & _ & Hl & _).
    specialize (Hl fr results eq_refl).
    unfold get_latest_data_io. rewrite El, E, Hl. now split.
  - intros s' e. split.
    + intros E. exact (proj2 (proj2 (proj2 (proj2
                 (get_latest_data_io_inv writable s s' _ Hwf E)))) e eq_refl).
    + intros (El & _ & E & He). unfold get_latest_data_io. rewrite El, E.
      destruct He as [(-> & _)|(-> & _)]; reflexivity.
  - intros Hev Hw. rewrite get_latest_data_io_accepting by assumption.
    destruct (get_latest_data_returns s Hwf Hev) as (s' & data & E & -> & _).
    now exists s'.
Qed.

(** ** The snapshot endpoint *)

(** X13.  With a non-zero sampling period the only exception the snapshot
    endpoint lets through is the [OSError] of a refused log line, and the
    one of the warm-up tick does get through.  On a file system that accepts
    every line it never raises, and what it does is settled by the camera
    and the stored list: with the camera closed it answers 500 and runs
    nothing; with a non-empty stored list it answers that list and runs
    nothing; with an empty one it runs a tick and answers its results if
    there are any; otherwise, whether that tick failed or found no face, it
    runs a second tick and answers 500 when that one fails on the frame
    source and its results, possibly empty, when it does not. *)
Theorem api_frame_answers (writable : Z -> nat -> bool) (s : VisionSystem) :
  wf (tracker s) -> emotion_every s <> 0 ->
  (forall s' e, api_frame_io writable s = (s', Raise e) -> e = OSError) /\
  (forall s',
     is_open s = true -> latest_data s = [] ->
     process_frame_io writable s = (s', Raise OSError) ->
     api_frame_io writable s = (s', Raise OSError)) /\
  ((forall c pid, writable c pid = true) ->
   exists s' resp,
     api_frame_io writable s = (s', Ok resp) /\
     (is_open s = false -> s' = s /\ resp = Http500) /\
     (is_open s = true -> latest_data s <> [] ->
        s' = s /\ resp = Faces (latest_data s)) /\
     (is_open s = true -> latest_data s = [] ->
      latest_data (ticks 1 s) <> [] ->
        s' = ticks 1 s /\ resp = Faces (latest_data (ticks 1 s))) /\
     (is_open s = true -> latest_data s = [] ->
      latest_data (ticks 1 s) = [] ->
        s' = ticks 2 s /\
        ((camera_ok (ticks 1 s) /\ resp = Faces (latest_data (ticks 2 s))) \/
         (~ camera_ok (ticks 1 s) /\ resp = Http500)))).
Proof.
  intros Hwf Hev. split; [|split].
  - intros s' e. unfold api_frame_io.
    destruct (is_open s); cbn [negb]; [|discriminate].
    destruct (get_latest_data_io writable s) as [s1 r] eqn:E1.
    destruct (get_latest_data_io_inv writable s s1 r Hwf E1)
      as (Hwf1 & Hev1 & _ & _ & Hr).
    destruct r as [[|d data]|e1].
    + destruct (process_frame_io writable s1) as [s2 r2] eqn:E2.
      destruct (process_frame_io_inv writable s1 s2 r2 Hwf1 E2)
        as (_ & _ & _ & _ & Hr2).
      destruct r2 as [[fr data]|e2]; [discriminate|].
      destruct (Hr2 e2 eq_refl) as (_ & [(-> & _)|[(-> & E0 & _)|(-> & _)]]).
      * discriminate.
      * congruence.
      * intros E. now injection E as _ <-.
    + discriminate.
    + destruct (Hr e1 eq_refl) as (_ & _ & _ & [(-> & E0)|(-> & _)]).
      * contradiction.
      * intros E. now injection E as _ <-.
  - intros s' Hopen El E. unfold api_frame_io, get_latest_data_io.
    rewrite Hopen. cbn [negb]. now rewrite El, E.
  - intros Hw. rewrite api_frame_io_accepting by assumption.
    exact (api_frame_cases s Hwf Hev).
Qed.

(** ** What makes a tick fail *)

(** C8, as amended.  A tick raises [RuntimeError] exactly when the frame
    source is not open or delivers no frame to this tick.  A tick that gets
    a frame updates the tracker and then fails in two cases only: with
    [ZeroDivisionError] when the sampling period is 0 and an object is
    tracked, and with [OSError] when the period is not 0 and the file system
    refuses a log line that is due.  Otherwise it returns one result per
    tracked object, whatever the classifier does: every result is the
    sentinel or carries what [predict] returned, [predict] returns the
    sentinel whenever the classifier is absent, raises or yields nothing
    usable, and so every result is the sentinel when the classifier fails on
    every crop. *)
Theorem tick_outcomes (writable : Z -> nat -> bool) (s : VisionSystem) :
  wf (tracker s) ->
  ((exists s', process_frame_io writable s = (s', Raise RuntimeError))
   <-> ~ camera_ok s) /\
  (forall fr0 cap',
     is_open s = true -> cap_read (cap s) = ((true, Some fr0), cap') ->
     exists tracked,
       update (tracker s) (map _bbox_from_detection (detector s fr0))
         = Ok tracked /\
       (emotion_every s = 0 -> objects tracked <> [] ->
          exists s', process_frame_io writable s = (s', Raise ZeroDivisionError)) /\
       (emotion_every s <> 0 ->
        (exists item,
           In item (objects tracked) /\
           refuses writable (frame_count s + 1) (emotion_every s) fr0 item
             = true) ->
          exists s', process_frame_io writable s = (s', Raise OSError)) /\
       ((emotion_every s = 0 -> objects tracked = []) ->
        (forall item,
           In item (objects tracked) ->
           refuses writable (frame_count s + 1) (emotion_every s) fr0 item
             = false) ->
          exists s' fr1 results,
            process_frame_io writable s = (s', Ok (fr1, results)) /\
            tracker s' = tracked /\
            latest_data s' = results /\
            map person_id results = keys (objects tracked) /\
            map bbox results = map clamp (values (objects tracked)) /\
            Forall (fun r => is_sentinel r \/
                             sampled (emotion_recognizer s) fr1 r) results /\
            ((forall image, classifier_fails (emotion_recognizer s) image) ->
             Forall is_sentinel results))) /\
  (forall image,
     classifier_fails (emotion_recognizer s) image ->
     predict (emotion_recognizer s) image = neutral).
Proof.
  intros Hwf. split; [|split].
  - split.
    + intros (s' & E) (Hopen & fr0 & cap' & Hread).
      destruct (process_frame_io_cases writable s fr0 cap' Hwf Hopen Hread)
        as (tracked & s1 & _ & _ & _ & _ & _
            & [(_ & _ & E1)|[(_ & _ & E1)|(_ & _ & fr1 & res & E1 & _)]]);
        congruence.
    + intros Hno. rewrite (process_frame_io_source_failure writable s Hno).
      destruct (process_frame_source_failure s Hno) as (s' & E & _).
      now exists s'.
  - intros fr0 cap' Hopen Hread.
    destruct (process_frame_io_cases writable s fr0 cap' Hwf Hopen Hread)
      as (tracked & s1 & Eu & _ & Et & _ & _ & Hc).
    exists tracked. split; [assumption|]. split; [|split].
    + intros E0 Hne.
      destruct Hc as [(_ & _ & E1)|[(Hev & _)|(Hz & _)]];
        [now exists s1|contradiction|now specialize (Hz E0)].
    + intros Hev (item & Hin & Hr).
      destruct Hc as [(E0 & _)|[(_ & _ & E1)|(_ & Hnone & _)]];
        [contradiction|now exists s1|].
      rewrite (Hnone item Hin) in Hr. discriminate.
    + intros Hz Hnone.
      destruct Hc as [(E0 & Hne & _)|[(_ & (item & Hin & Hr) & _)
                     |(_ & _ & fr1 & results & E1 & Hl & Hids & Hboxes & Hall)]].
      * now specialize (Hz E0).
      * rewrite (Hnone item Hin) in Hr. discriminate.
      * exists s1, fr1, results.
        do 6 (split; [assumption|]).
        intros Hfail. eapply Forall_impl; [|exact Hall].
        intros r [Hr|(src & _ & _ & Hp)]; [assumption|].
        rewrite predict_failure in Hp by apply Hfail.
        unfold is_sentinel. now injection Hp as -> ->.
  - intros image. apply predict_failure.
Qed.

End Pipeline.

(** * The runtimes *)

(** The runtimes cover every behaviour of the two library calls: whatever
    sorting order [sort] the array library has and whatever order [iter] a
    set is iterated in, some runtime makes [argsort] and [range_difference]
    return exactly those. *)
Lemma every_order_is_a_runtime
  (sort : list Z -> list nat) (iter : nat -> list nat -> list nat) :
  (forall ks, Permutation (sort ks) (seq 0 (length ks)) /\
              StronglySorted (fun i j => nth i ks 0 <= nth j ks 0) (sort ks)) ->
  (forall n s, Permutation (iter n s)
                           (filter (fun i => negb (mem i s)) (seq 0 n))) ->
  exists rt : Runtime,
    (forall ks, argsort (rt := rt) ks = sort ks) /\
    (forall n s, range_difference (rt := rt) n s = iter n s).
Proof.
  intros Hsort Hiter.
  exists {| argsort_ties :=
              fun ks i j => Nat.ltb (index_of i (sort ks)) (index_of j (sort ks));
            set_order :=
              fun n s i j => Nat.ltb (index_of i (iter n s)) (index_of j (iter n s)) |}.
  split.
  - intros ks. destruct (Hsort ks) as [Hp Hs].
    unfold argsort. cbn [argsort_ties].
    apply order_by_reaches; [apply seq_NoDup|assumption|].
    intros i j Hi Hj Hne.
    assert (Hiq : In i (sort ks)) by (apply (Permutation_in _ (Permutation_sym Hp) Hi)).
    assert (Hjq : In j (sort ks)) by (apply (Permutation_in _ (Permutation_sym Hp) Hj)).
    split.
    + intros H. apply orb_true_iff in H. destruct H as [H|H].
      * apply Z.ltb_lt in H.
        destruct (earlier_total (sort ks) i j Hiq Hjq Hne) as [He|He]; [assumption|].
        pose proof (sorted_earlier _ _ Hs j i Hjq Hiq He) as Hle. cbn beta in Hle. lia.
      * apply andb_true_iff in H. destruct H as [_ H]. now apply Nat.ltb_lt in H.
    + intros He. pose proof (sorted_earlier _ _ Hs i j Hiq Hjq He) as Hle.
      cbn beta in Hle. apply orb_true_iff.
      destruct (Z.ltb_spec (nth i ks 0) (nth j ks 0)); [now left|right].
      apply andb_true_iff. split; [apply Z.eqb_eq; lia|now apply Nat.ltb_lt].
  - intros n s. unfold range_difference. cbn [set_order].
    apply order_by_reaches; [apply NoDup_filter, seq_NoDup|apply Hiter|].
    intros i j _ _ _. apply Nat.ltb_lt.
Qed.

(** * Scenarios

    The theorems of [Section Pipeline] hold for every runtime.  The scenarios
    below run the code on [stable_runtime], except where another runtime is
    named. *)

#[export] Existing Instance stable_runtime.

Lemma update_without_detections_witness :
  wf two_objects /\ objects two_objects <> [] /\
  exists t',
    update two_objects [] = Ok t' /\
    od_get (objects t') 1%nat = None /\
    od_get (objects t') O = Some (100, 100, 50, 50) /\
    od_get (disappeared t') O = Some 1.
Proof.
  split; [exact wf_two_objects|]. split; [discriminate|].
  destruct (update_without_detections two_objects wf_two_objects)
    as (t' & E & H & _); [discriminate|].
  exists t'. split; [exact E|].
  destruct (H 1%nat (500, 500, 50, 50) eq_refl) as (d1 & E1 & H1 & _).
  destruct (H O (100, 100, 50, 50) eq_refl) as (d0 & E0 & _ & H0).
  injection E1 as <-. injection E0 as <-.
  split; [apply H1; reflexivity|].
  apply H0. discriminate.
Defined.

Lemma greedy_assignment_order_and_ties_witness :
  wf tied_objects /\
  exists t',
    update tied_objects [(120, 100, 50, 50)] = Ok t' /\
    od_get (objects t') O = Some (120, 100, 50, 50) /\
    od_get (objects t') 1%nat = Some (140, 100, 50, 50).
Proof.
  assert (Hwf : wf tied_objects) by solve_wf.
  split; [exact Hwf|].
  destruct (greedy_assignment_order_and_ties tied_objects [(120, 100, 50, 50)] Hwf)
    as (t1 & ar & ac & t' & _ & Eu & _); [discriminate|discriminate|].
  exists t'. split; [exact Eu|].
  vm_compute in Eu. injection Eu as <-. split; reflexivity.
Defined.

(** C1 as stated fails on the tie-break.  The four boxes of [tie_boxes] are
    registered as objects 0 to 3.  With the detections [tie_detections] the
    rows' minimum distances are [[20, 20, 1, 0]], rows 0 and 1 tied on the
    first detection.  numpy's default [argsort] returns [[3, 2, 1, 0]] for
    these keys, so row 1 is visited before row 0: the object registered later
    takes the detection, and the object registered first goes unmatched. *)
Lemma later_registered_object_wins_the_tie :
  exists t t',
    run (rt := reversing_runtime) (init 15 80) [tie_boxes] = Ok t /\
    keys (objects t) = [0; 1; 2; 3]%nat /\
    map (row_key (distances_of t tie_detections)) [0; 1; 2; 3]%nat
      = [20 * 20; 20 * 20; 1; 0] /\
    row_col (distances_of t tie_detections) 0
      = row_col (distances_of t tie_detections) 1 /\
    rows_of (rt := reversing_runtime) (distances_of t tie_detections)
      = [3; 2; 1; 0]%nat /\
    update (rt := reversing_runtime) t tie_detections = Ok t' /\
    od_get (objects t') 1%nat = Some (20, 0, 10, 10) /\
    od_get (disappeared t') 1%nat = Some 0 /\
    od_get (objects t') 0%nat = Some (0, 0, 10, 10) /\
    od_get (disappeared t') 0%nat = Some 1.
Proof.
  eexists _, _. split; [reflexivity|].
  split; [reflexivity|]. split; [reflexivity|]. split; [reflexivity|].
  split; [reflexivity|]. split; [vm_compute; reflexivity|].
  repeat split; reflexivity.
Qed.

Lemma unassigned_rows_age_and_columns_register_witness :
  wf one_object /\
  (exists t', update one_object [(300, 100, 50, 50)] = Ok t' /\
              od_get (disappeared t') O = Some 1) /\
  update one_object [(300, 100, 50, 50)]
  = Ok {| next_object_id := 2;
          objects := [(O, (100, 100, 50, 50)); (1%nat, (300, 100, 50, 50))];
          disappeared := [(O, 1); (1%nat, 0)];
          max_disappeared := 15;
          max_distance := 80 |}.
Proof.
  split; [exact wf_one_object|]. split.
  - destruct (proj1 unassigned_rows_age_and_columns_register
                    one_object [(300, 100, 50, 50)] wf_one_object)
      as (t1 & ar & ac & t' & Ea & Eu & Hrow & _); [discriminate|discriminate|].
    exists t'. split; [exact Eu|].
    vm_compute in Ea. injection Ea as _ <- _.
    destruct (Hrow O) as (d & Ed & _ & Hd); [simpl; lia|intros []|].
    injection Ed as <-. apply Hd. simpl. lia.
  - apply (proj2 unassigned_rows_age_and_columns_register
                 O 1%nat (100, 100, 50, 50) (300, 100, 50, 50) 15);
      [lia|lia|reflexivity].
Defined.

Lemma identity_preserved_under_small_motion_witness :
  wf one_object /\
  near_unique_object one_object [(105, 103, 50, 50)] /\
  no_shared_closest one_object [(105, 103, 50, 50)] /\
  exists t',
    update one_object [(105, 103, 50, 50)] = Ok t' /\
    next_object_id t' = 1%nat /\
    od_get (objects t') O = Some (105, 103, 50, 50) /\
    od_get (disappeared t') O = Some 0.
Proof.
  assert (H1 : near_unique_object one_object [(105, 103, 50, 50)]).
  { intros c Hc. simpl in Hc. assert (c = O) by lia. subst c.
    exists O. split; [simpl; lia|]. split; [reflexivity|].
    intros r' Hr' _. simpl in Hr'. lia. }
  assert (H2 : no_shared_closest one_object [(105, 103, 50, 50)]).
  { intros r c1 c2 _ Hc1 Hc2 _ _. simpl in Hc1, Hc2. lia. }
  split; [exact wf_one_object|]. split; [exact H1|]. split; [exact H2|].
  destruct (proj1 identity_preserved_under_small_motion
                  one_object [(105, 103, 50, 50)] wf_one_object)
    as (t' & Eu & N & _ & Hm & _); [exact H1|exact H2|].
  exists t'. split; [exact Eu|]. split; [exact N|].
  apply (Hm O O); [simpl; lia|simpl; lia|reflexivity].
Defined.

(** C2 as stated fails: the tracker below is reached by sixteen [update]
    calls, its only detection is within reach of object 0 alone, and yet the
    call returns a different set of ids, because object 1 has used up its
    tolerated misses. *)
Lemma ids_change_when_unmatched_object_expires :
  run (init 15 80)
      ([(100, 100, 50, 50); (500, 500, 50, 50)]
         :: repeat [(100, 100, 50, 50)] 15)
    = Ok two_objects /\
  near_unique_object two_objects [(105, 103, 50, 50)] /\
  no_shared_closest two_objects [(105, 103, 50, 50)] /\
  keys (objects two_objects) = [O; 1%nat] /\
  update two_objects [(105, 103, 50, 50)]
    = Ok {| next_object_id := 2;
            objects := [(O, (105, 103, 50, 50))];
            disappeared := [(O, 0)];
            max_disappeared := 15;
            max_distance := 80 |}.
Proof.
  split; [vm_compute; reflexivity|]. split.
  { intros c Hc. simpl in Hc. assert (c = O) by lia. subst c.
    exists O. split; [simpl; lia|]. split; [reflexivity|].
    intros r' Hr' Hw. simpl in Hr'.
    destruct r' as [|[|r']]; [reflexivity|discriminate Hw|lia]. }
  split.
  { intros r c1 c2 _ Hc1 Hc2 _ _. simpl in Hc1, Hc2. lia. }
  split; reflexivity.
Qed.



Lemma first_detections_are_all_registered_witness :
  update (init 15 80) [(10, 20, 30, 40); (50, 60, 70, 80)]
  = Ok {| next_object_id := 2;
          objects := [(O, (10, 20, 30, 40)); (1%nat, (50, 60, 70, 80))];
          disappeared := [(O, 0); (1%nat, 0)];
          max_disappeared := 15;
          max_distance := 80 |}.
Proof.
  destruct (first_detections_are_all_registered
              (init 15 80) [(10, 20, 30, 40); (50, 60, 70, 80)]
              (wf_init 15 80) eq_refl)
    as (t' & E & Eo & Ed & N & M & X).
  rewrite E. destruct t' as [n o d m x]. cbn in Eo, Ed, N, M, X.
  now subst.
Defined.

Lemma deregister_removes_only_that_id_witness :
  wf two_objects /\
  objects (deregister two_objects O) = [(1%nat, (500, 500, 50, 50))] /\
  od_get (disappeared (deregister two_objects O)) 1%nat = Some 15.
Proof.
  split; [exact wf_two_objects|]. split; [reflexivity|].
  destruct (deregister_removes_only_that_id two_objects O wf_two_objects)
    as (_ & _ & _ & _ & H & _).
  destruct (H 1%nat) as [_ E]; [discriminate|]. rewrite E. reflexivity.
Defined.

Lemma update_returns_detections_or_aged_objects_witness :
  wf two_objects /\
  exists t',
    update two_objects [(105, 103, 50, 50)] = Ok t' /\
    od_get (objects t') O = Some (105, 103, 50, 50) /\
    od_get (disappeared t') O = Some 0.
Proof.
  split; [exact wf_two_objects|].
  destruct (update_returns_detections_or_aged_objects
              two_objects [(105, 103, 50, 50)] wf_two_objects) as (t' & E & H).
  exists t'. split; [exact E|].
  pose proof E as Ec. vm_compute in Ec. injection Ec as Ec.
  assert (Eo : od_get (objects t') O = Some (105, 103, 50, 50))
    by (rewrite <- Ec; reflexivity).
  split; [exact Eo|].
  destruct (H O _ Eo) as [[_ E0]|[Hold _]]; [exact E0|discriminate Hold].
Defined.


Lemma requests_keep_the_system_consistent_witness :
  wf (tracker (fresh_system 100)) /\
  frame_count (serve_all (fresh_system 100)
                         [ApiFrame; Tick; VideoStream 2; GetLatest; Shutdown; Tick])
    = 5 /\
  pending (cap (serve_all (fresh_system 100)
                          [ApiFrame; Tick; VideoStream 2; GetLatest; Shutdown; Tick]))
    = [].
Proof.
  assert (Hwf : wf (tracker (fresh_system 100))) by apply wf_init.
  split; [exact Hwf|].
  destruct (requests_keep_the_system_consistent (fresh_system 100)
              [ApiFrame; Tick; VideoStream 2; GetLatest; Shutdown; Tick] Hwf)
    as (_ & _ & _ & _ & _ & _ & (consumed & Hp & Hf) & _).
  assert (Hq : pending (cap (serve_all (fresh_system 100)
                 [ApiFrame; Tick; VideoStream 2; GetLatest; Shutdown; Tick])) = [])
    by (vm_compute; reflexivity).
  split; [|exact Hq].
  rewrite Hq, app_nil_r in Hp. rewrite Hf, <- Hp. reflexivity.
Defined.

Lemma zero_sampling_period_witness :
  exists s',
    process_frame zero_period_system = (s', Raise ZeroDivisionError) /\
    keys (objects (tracker s')) = [O] /\
    frame_count s' = 1 /\
    get_latest_data zero_period_system = (s', Raise ZeroDivisionError).
Proof.
  destruct (zero_sampling_period zero_period_system face_frame
              {| opened := true; pending := [] |})
    as (tracked & Eu & _ & H);
    [apply wf_init|reflexivity|reflexivity|reflexivity|].
  vm_compute in Eu. injection Eu as <-.
  destruct H as (s' & Ep & Et & Ef & _ & _ & _ & Hg); [discriminate|].
  exists s'. split; [exact Ep|]. split; [rewrite Et; reflexivity|].
  split; [rewrite Ef; reflexivity|]. apply Hg. reflexivity.
Defined.

Lemma predict_returns_the_first_best_emotion_witness :
  predict {| er_detector :=
               Some (fun _ => FerFaces [[("sad"%string, 1 # 10);
                                         ("happy"%string, 4 # 10);
                                         ("angry"%string, 4 # 10)];
                                        [("fear"%string, 9 # 10)]]) |}
          (crop_box blank_frame (0, 0, 10, 10))
  = ("happy"%string, 4 # 10).
Proof.
  destruct (predict_returns_the_first_best_emotion
              {| er_detector :=
                   Some (fun _ => FerFaces [[("sad"%string, 1 # 10);
                                             ("happy"%string, 4 # 10);
                                             ("angry"%string, 4 # 10)];
                                            [("fear"%string, 9 # 10)]]) |}
              (fun _ => FerFaces [[("sad"%string, 1 # 10);
                                   ("happy"%string, 4 # 10);
                                   ("angry"%string, 4 # 10)];
                                  [("fear"%string, 9 # 10)]])
              (crop_box blank_frame (0, 0, 10, 10))
              [("sad"%string, 1 # 10); ("happy"%string, 4 # 10);
               ("angry"%string, 4 # 10)]
              [[("fear"%string, 9 # 10)]] eq_refl eq_refl)
    as (label & score & earlier & later & Ep & _); [discriminate|].
  reflexivity.
Defined.


Lemma tick_outcomes_witness :
  wf (tracker (system_before_fifth_tick 100)) /\
  exists s' fr1 results,
    process_frame_io always_writable (system_before_fifth_tick 100)
      = (s', Ok (fr1, results)) /\
    map person_id results = [O].
Proof.
  assert (Hwf : wf (tracker (system_before_fifth_tick 100)))
    by (vm_compute; solve_wf).
  split; [exact Hwf|].
  destruct (tick_outcomes always_writable (system_before_fifth_tick 100) Hwf)
    as (_ & H & _).
  destruct (H face_frame {| opened := true; pending := [] |} eq_refl eq_refl)
    as (tracked & Eu & _ & _ & Hok).
  vm_compute in Eu. injection Eu as <-.
  destruct Hok as (s' & fr1 & results & E & _ & _ & Hids & _).
  - intros H0. vm_compute in H0. discriminate H0.
  - intros item _. apply refuses_always_writable.
  - now exists s', fr1, results.
Defined.

(** C8 as stated fails: with a working camera a tick fails all the same,
    with [ZeroDivisionError] on the system configured with a sampling period
    of 0 once a face is tracked, and with [OSError] on the fifth tick of the
    system of the scenarios when the file system refuses the log line of the
    face it samples. *)
Lemma tick_fails_with_a_working_camera :
  (camera_ok zero_period_system /\
   exists s',
     process_frame_io always_writable zero_period_system
       = (s', Raise ZeroDivisionError)) /\
  (camera_ok (system_before_fifth_tick 100) /\
   emotion_every (system_before_fifth_tick 100) = 5 /\
   exists s',
     process_frame_io never_writable (system_before_fifth_tick 100)
       = (s', Raise OSError)).
Proof.
  split.
  - split; [split; [reflexivity|eexists _, _; reflexivity]|].
    eexists. vm_compute. reflexivity.
  - split; [split; [reflexivity|eexists _, _; reflexivity]|].
    split; [reflexivity|]. eexists. vm_compute. reflexivity.
Qed.

Lemma get_latest_data_catches_source_failures_witness :
  wf (tracker unplugged_system) /\
  exists s',
    get_latest_data_io always_writable unplugged_system = (s', Ok []) /\
    frame_count s' = 0.
Proof.
  assert (Hwf : wf (tracker unplugged_system)) by apply wf_init.
  split; [exact Hwf|].
  destruct (get_latest_data_catches_source_failures always_writable
              unplugged_system Hwf) as (_ & H & _).
  destruct H as (s' & E & _ & _ & Hf & _);
    [reflexivity|intros [Ho _]; discriminate Ho|].
  exists s'. split; [exact E|exact Hf].
Defined.

(** C10 as stated fails: the warm-up tick of [get_latest_data] raises
    [ZeroDivisionError] on the system configured with a sampling period of 0,
    and [OSError] on the system of the scenarios when the file system
    refuses the log line of its fifth tick; neither is a [RuntimeError], and
    both reach the caller. *)
Lemma get_latest_data_lets_other_exceptions_through :
  (latest_data zero_period_system = [] /\
   exists s',
     get_latest_data_io always_writable zero_period_system
       = (s', Raise ZeroDivisionError)) /\
  (latest_data (system_before_fifth_tick 100) = [] /\
   exists s',
     get_latest_data_io never_writable (system_before_fifth_tick 100)
       = (s', Raise OSError)).
Proof.
  split; (split; [reflexivity|]); eexists; vm_compute; reflexivity.
Qed.

Lemma api_frame_answers_witness :
  wf (tracker quiet_system) /\
  exists s',
    api_frame_io always_writable quiet_system = (s', Ok (Faces [])) /\
    s' = ticks 2 quiet_system.
Proof.
  assert (Hwf : wf (tracker quiet_system)) by apply wf_init.
  split; [exact Hwf|].
  destruct (api_frame_answers always_writable quiet_system Hwf) as (_ & _ & H);
    [discriminate|].
  destruct H as (s' & resp & E & _ & _ & _ & H); [reflexivity|].
  destruct H as (Es & Hr); [reflexivity|reflexivity|reflexivity|].
  exists s'. split; [|exact Es].
  destruct Hr as [(_ & ->)|(Hno & _)]; [exact E|].
  exfalso. apply Hno. split; [reflexivity|]. eexists _, _. reflexivity.
Defined.
